(** * PhotoToKML: clustering of geotagged photographs and track synthesis

    A shallow embedding of the core of [kml.py], [topath.py] and
    [PlainExtractTotrack.py] (whose second and third parts repeat the first
    two scripts), and of [sanitize_path], which [cleankml.py] repeats too.

    Conventions.
    - A Python [str] is a [string]; its characters are the bytes of the UTF-8
      encoding.  Every pattern the scripts search for is a single ASCII
      character, and no byte of a multi-byte UTF-8 sequence is ASCII, so the
      replacements and splits below act on bytes as Python's act on code
      points; [str.strip] drops the byte sequences of Python's white-space
      characters.
    - A Python [float] is a binary64 [float] of the kernel; [+] and [-] are
      the IEEE operations, rounding to nearest even.
    - A [dict] is an association list in insertion order, the order in which
      Python iterates it.
    - [None] is [None]; an element's [.text] is an [option string].
    - A call that raises is a [Raised] result; what was done before the
      exception stays done.  What the libraries decide (the strings lxml
      takes as element texts, [float] on a string, the radius test of the
      clustering) is a parameter of the definitions. *)

From Stdlib Require Import ZArith String Ascii List Lia Bool.
From Stdlib Require Import Floats.PrimFloat Uint63.
From Stdlib Require Import Reals Lra.
From Stdlib Require Import DecimalString DecimalNat.
From stdpp Require Import base relations list.

Import ListNotations.
Local Open Scope string_scope.

(** ** Python string primitives *)

Module PyStr.

(** [count] of [str.replace]: [None] when the argument is absent. *)
Definition count_left (count : option nat) : bool :=
  match count with
  | Some O => false
  | _ => true
  end.

Definition count_pred (count : option nat) : option nat :=
  match count with
  | Some n => Some (Nat.pred n)
  | None => None
  end.

(** [s.replace(old, new, count)] for a non-empty [old]: occurrences are
    found from the left and do not overlap; [skip] counts the characters of
    the occurrence under the cursor that are still to be dropped.  All call
    sites of the scripts pass a one-character [old]. *)
Fixpoint replace_from (old new : string) (count : option nat) (skip : nat)
         (s : string) {struct s} : string :=
  match s with
  | EmptyString => EmptyString
  | String c s' =>
      match skip with
      | S k => replace_from old new count k s'
      | O =>
          if count_left count && String.prefix old s
          then new ++ replace_from old new (count_pred count)
                                   (String.length old - 1) s'
          else String c (replace_from old new count 0 s')
      end
  end.

Definition replace (old new : string) (count : option nat) (s : string) : string :=
  replace_from old new count 0 s.

(** The white-space characters of Python that are one byte long: U+0009 to
    U+000D and U+001C to U+0020. *)
Definition is_space (c : ascii) : bool :=
  let n := nat_of_ascii c in
  ((9 <=? n)%nat && (n <=? 13)%nat) || ((28 <=? n)%nat && (n <=? 32)%nat).

(** The number of bytes of the white-space character at the head of [s],
    and [0] when [s] does not start with one.  Besides the characters above,
    [str.isspace] holds for U+0085 and U+00A0 (0xC2 and one more byte) and
    for U+1680, U+2000 to U+200A, U+2028, U+2029, U+202F, U+205F and U+3000
    (three bytes each). *)
Definition space_width (s : string) : nat :=
  match s with
  | EmptyString => 0
  | String c s1 =>
      if is_space c then 1
      else
        match s1 with
        | EmptyString => 0
        | String c1 s2 =>
            let n := nat_of_ascii c in
            let n1 := nat_of_ascii c1 in
            if ((n =? 194) && ((n1 =? 133) || (n1 =? 160)))%nat then 2
            else
              match s2 with
              | EmptyString => 0
              | String c2 _ =>
                  let n2 := nat_of_ascii c2 in
                  if ((n =? 225) && (n1 =? 154) && (n2 =? 128)
                      || (n =? 226) && (n1 =? 128)
                         && ((128 <=? n2) && (n2 <=? 138)
                             || (n2 =? 168) || (n2 =? 169) || (n2 =? 175))
                      || (n =? 226) && (n1 =? 129) && (n2 =? 159)
                      || (n =? 227) && (n1 =? 128) && (n2 =? 128))%nat
                  then 3 else 0
              end
        end
  end.

(** [s.lstrip()]; [skip] counts the bytes of the white-space character
    under the cursor that are still to be dropped. *)
Fixpoint lstrip_from (skip : nat) (s : string) : string :=
  match s with
  | EmptyString => EmptyString
  | String c s' =>
      match skip with
      | S k => lstrip_from k s'
      | O =>
          match space_width s with
          | O => s
          | S k => lstrip_from k s'
          end
      end
  end.

Definition lstrip (s : string) : string := lstrip_from 0 s.

(** [s.rstrip()]: a white-space character is dropped when everything after
    it was dropped, that is when what is kept from its first byte on is that
    character alone. *)
Fixpoint rstrip (s : string) : string :=
  match s with
  | EmptyString => EmptyString
  | String c s' =>
      let kept := String c (rstrip s') in
      if (space_width kept =? String.length kept)%nat then EmptyString else kept
  end.

Definition strip (s : string) : string := rstrip (lstrip s).

(** [s.split(sep)] for a one-character [sep]: never empty, one more field
    than there are separators. *)
Fixpoint split (sep : ascii) (s : string) : list string :=
  match s with
  | EmptyString => [EmptyString]
  | String c s' =>
      if Ascii.eqb c sep then EmptyString :: split sep s'
      else match split sep s' with
           | f :: fs => String c f :: fs
           | [] => [String c EmptyString]
           end
  end.

End PyStr.

(** ** [sanitize_path] (kml.py 13-19, PlainExtractTotrack.py 74-80,
       cleankml.py 7-13) *)

(** The backslash character. *)
Definition backslash : ascii := Ascii.ascii_of_nat 92.

Definition sanitize_path (path : string) : string :=
  let sanitized :=
    PyStr.replace "/" "_" None
      (PyStr.replace (String backslash EmptyString) "_" None
         (PyStr.replace ":" EmptyString None path)) in
  let sanitized := PyStr.replace " " "_" None sanitized in
  sanitized.

(** The same function character by character: a colon is deleted, a
    backslash, a slash and a space become an underscore, every other
    character is kept. *)
Fixpoint sanitize_chars (path : string) : string :=
  match path with
  | EmptyString => EmptyString
  | String c s =>
      if Ascii.eqb c ":" then sanitize_chars s
      else if Ascii.eqb c backslash || Ascii.eqb c "/" || Ascii.eqb c " "
           then String "_" (sanitize_chars s)
           else String c (sanitize_chars s)
  end.

(** What the specification's sentence says of sanitize: path separators,
    colons and spaces each become an underscore. *)
Fixpoint sanitize_as_specified (path : string) : string :=
  match path with
  | EmptyString => EmptyString
  | String c s =>
      if Ascii.eqb c ":" || Ascii.eqb c backslash || Ascii.eqb c "/" || Ascii.eqb c " "
      then String "_" (sanitize_as_specified s)
      else String c (sanitize_as_specified s)
  end.

(** ** The data model *)

(** One entry of [photos_with_gps]: the tuple
    [(photo_name, lat, lon, timestamp)] built in [process_directory]. *)
Record GeoRecord : Type := mkGeoRecord {
  photo_name : string;
  lat : float;
  lon : float;
  timestamp : option string
}.

(** A [dict] from cluster label to member list, in insertion order. *)
Definition Clusters : Type := list (Z * list GeoRecord).

(** ** Exceptions *)

(** The exceptions the scripts can meet, all subclasses of [Exception]. *)
Inductive Exn : Type :=
| ValueError        (* a text lxml refuses, unpacking too few fields,
                       [float] of a non-number *)
| AttributeError    (* [.strip()] of a [None] text *)
| ParseError.       (* [etree.parse]: unreadable file or malformed markup *)

Inductive PyResult (A : Type) : Type :=
| Returned (a : A)
| Raised (e : Exn).
Arguments Returned {A} a.
Arguments Raised {A} e.

(** ** [create_kml] (kml.py 77-114, PlainExtractTotrack.py 137-170) *)

(** The children of a point placemark.  [KPoint lon lat] stands for
    [<Point><coordinates>{lon},{lat}</coordinates></Point>]. *)
Inductive KmlElement : Type :=
| KName (text : string)
| KTimeStamp (when : string)
| KPoint (lon lat : float).

(** [l.insert(i, x)] *)
Definition py_insert {A : Type} (i : nat) (x : A) (l : list A) : list A :=
  take i l ++ x :: drop i l.

(** Truth value of [timestamp]: [None] and the empty string are false. *)
Definition truthy (timestamp : option string) : bool :=
  match timestamp with
  | None => false
  | Some EmptyString => false
  | Some _ => true
  end.

(** Lines 98-99: the text put under [TimeStamp/when]. *)
Definition timestamp_formatted (ts : string) : string :=
  let timestamp_formatted := PyStr.replace ":" "-" (Some 2) ts in
  PyStr.replace " " "T" None timestamp_formatted ++ "Z".

(** The children of the placemark of a record, as lines 92-100 put them
    together: the name, the timestamp when the capture time is true, the
    point. *)
Definition placemark_of (r : GeoRecord) : list KmlElement :=
  let placemark_elements := [KName (photo_name r); KPoint (lon r) (lat r)] in
  if truthy (timestamp r)
  then match timestamp r with
       | Some ts => py_insert 1 (KTimeStamp (timestamp_formatted ts)) placemark_elements
       | None => placemark_elements
       end
  else placemark_elements.

(** [str(n)] for a non-negative [int]. *)
Definition py_str_nat (n : nat) : string :=
  NilEmpty.string_of_uint (Nat.to_uint n).

(** Line 87: the document title
    [f"{folder_name}（第{cluster_number}个子类/共{total_clusters}个子类）"]. *)
Definition kml_name (folder_name : string) (cluster_number total_clusters : nat)
  : string :=
  (folder_name ++ "（第" ++ py_str_nat cluster_number ++ "个子类/共"
   ++ py_str_nat total_clusters ++ "个子类）")%string.

(** The title kept as its three interpolated values. *)
Record KmlTitle : Type := mkKmlTitle {
  title_folder : string;
  title_number : nat;
  title_total : nat
}.

Record PointDocument : Type := mkPointDocument {
  doc_title : KmlTitle;
  doc_placemarks : list (list KmlElement)
}.

Section PointDocuments.
(** The test lxml applies to a string that is to become the text of an
    element.  A string it refuses (one with a NUL or another control
    character, tab, newline and carriage return apart) makes the element
    maker raise [ValueError] (for a lone surrogate its subclass
    [UnicodeEncodeError]), and no element is made.  The test is the
    library's: the scripts are modelled for any such test. *)
Variable xml_compatible : string -> bool.

(** [KML.tag(text)] for a string: the text of the element made. *)
Definition element_text (text : string) : PyResult string :=
  if xml_compatible text then Returned text else Raised ValueError.

(** Lines 91-101, the body of the loop over [cluster_points_list].  The
    text of [coordinates] is the rendering of two floats around a comma
    (digits, a sign, a point, an exponent, [inf], [nan]), which lxml takes:
    the point is kept as its two floats. *)
Definition make_placemark (r : GeoRecord) : PyResult (list KmlElement) :=
  match element_text (photo_name r) with
  | Raised e => Raised e
  | Returned name =>
      let placemark_elements := [KName name; KPoint (lon r) (lat r)] in
      if truthy (timestamp r)
      then match timestamp r with
           | Some ts =>
               match element_text (timestamp_formatted ts) with
               | Raised e => Raised e
               | Returned when =>
                   Returned (py_insert 1 (KTimeStamp when) placemark_elements)
               end
           | None => Returned placemark_elements
           end
      else Returned placemark_elements
  end.

(** Lines 90-102: [placemarks] after the loop, unless an element maker
    raised. *)
Fixpoint make_placemarks (cluster_points_list : list GeoRecord)
  : PyResult (list (list KmlElement)) :=
  match cluster_points_list with
  | [] => Returned []
  | r :: rest =>
      match make_placemark r with
      | Raised e => Raised e
      | Returned placemark =>
          match make_placemarks rest with
          | Raised e => Raised e
          | Returned placemarks => Returned (placemark :: placemarks)
          end
      end
  end.

(** The document that [create_kml] serialises into [output_file].  The tree
    is complete before the file is opened (line 113): when an element maker
    raises, nothing is written.  Failures of the file system are outside
    the model. *)
Definition create_kml (cluster_points_list : list GeoRecord)
           (cluster_number total_clusters : nat) (folder_name : string)
  : PyResult PointDocument :=
  match make_placemarks cluster_points_list with
  | Raised e => Raised e
  | Returned placemarks =>
      match element_text (kml_name folder_name cluster_number total_clusters) with
      | Raised e => Raised e
      | Returned _ =>
          Returned {| doc_title := mkKmlTitle folder_name cluster_number total_clusters;
                      doc_placemarks := placemarks |}
      end
  end.
End PointDocuments.

(** The strings of one record that [create_kml] makes element texts of:
    the name, and the normalised capture time when there is one. *)
Definition record_texts (r : GeoRecord) : list string :=
  photo_name r
  :: (if truthy (timestamp r)
      then match timestamp r with
           | Some ts => [timestamp_formatted ts]
           | None => []
           end
      else []).

(** All of them for one call of [create_kml], the title last. *)
Definition document_texts (cluster_points_list : list GeoRecord)
           (cluster_number total_clusters : nat) (folder_name : string)
  : list string :=
  flat_map record_texts cluster_points_list
  ++ [kml_name folder_name cluster_number total_clusters].

(** The timestamp normalisation read character by character: the first [n]
    colons become hyphens, every space becomes [T]. *)
Fixpoint iso_chars (n : nat) (s : string) : string :=
  match s with
  | EmptyString => EmptyString
  | String c s' =>
      if Ascii.eqb c ":" then
        match n with
        | O => String c (iso_chars O s')
        | S k => String "-" (iso_chars k s')
        end
      else if Ascii.eqb c " " then String "T" (iso_chars n s')
      else String c (iso_chars n s')
  end.


(** ** [cluster_points] (kml.py 57-75, PlainExtractTotrack.py 118-135) *)

Local Open Scope list_scope.

(** A point handed to the clustering: [(lat, lon)], line 66. *)
Definition Coord : Type := (float * float)%type.

Definition coord_of (r : GeoRecord) : Coord := (lat r, lon r).

(** Modelled from the spec: the labelling
    [DBSCAN(eps, min_samples=1, metric='haversine').fit(coords_rad).labels_]
    is scikit-learn's, which is not among the sources.  Section 4.2 describes
    it: density-based grouping with [minSamples = 1]; two records are directly
    connected when their great-circle distance is at most [eps]; clusters are
    formed by chains of direct connections; a single point forms its own
    cluster; labels follow the order in which the points are first met.  The
    definition below is the usual expansion loop of that algorithm: the
    points are visited in input order, an unlabelled core point starts a new
    label, and the label spreads over a stack of neighbours.

    [within_eps p q] stands for the comparison of the metric with the radius,
    [haversine(radians p, radians q) <= max_distance / 6371], whose
    floating-point evaluation is left abstract. *)
Module DBSCAN.
Section Fit.
Variable within_eps : Coord -> Coord -> bool.
Variable X : list Coord.

Definition noise : Z := (-1)%Z.
Definition min_samples : nat := 1.

Definition adj (i j : nat) : bool :=
  match X !! i, X !! j with
  | Some p, Some q => within_eps p q
  | _, _ => false
  end.

(** The radius neighbourhood of point [i], itself included when the
    metric puts it within the radius; the neighbours are listed by
    increasing index. *)
Definition neighborhoods (i : nat) : list nat :=
  List.filter (adj i) (seq 0 (length X)).

Definition is_core (i : nat) : bool :=
  (min_samples <=? length (neighborhoods i))%nat.

Definition unlabeled (labels : list Z) (v : nat) : bool :=
  match labels !! v with
  | Some l => (l =? noise)%Z
  | None => false
  end.

(** One turn of the expansion loop on the point [i] under the cursor: an
    unlabelled point takes the label, and a core point pushes its
    unlabelled neighbours.  The head of [stack] is the top of the stack. *)
Definition label_point (label_num : Z) (i : nat) (stack : list nat) (labels : list Z)
  : list Z * list nat :=
  if unlabeled labels i then
    let labels := <[i := label_num]> labels in
    (labels,
     if is_core i
     then rev (List.filter (unlabeled labels) (neighborhoods i)) ++ stack
     else stack)
  else (labels, stack).

(** One expansion: turns are taken until the stack is empty.  [None] when
    the fuel runs out. *)
Fixpoint expand (label_num : Z) (fuel : nat) (i : nat) (stack : list nat)
         (labels : list Z) : option (list Z) :=
  match fuel with
  | O => None
  | S fuel' =>
      let '(labels, stack) := label_point label_num i stack labels in
      match stack with
      | [] => Some labels
      | j :: stack' => expand label_num fuel' j stack' labels
      end
  end.

(** Every point is labelled once and pushes at most [length X]
    neighbours, every other iteration pops one. *)
Definition fuel : nat := S (S (length X) * length X).

Fixpoint visit (points : list nat) (label_num : Z) (labels : list Z)
  : option (list Z) :=
  match points with
  | [] => Some labels
  | i :: points' =>
      if negb (unlabeled labels i) || negb (is_core i)
      then visit points' label_num labels
      else match expand label_num fuel i [] labels with
           | Some labels' => visit points' (label_num + 1)%Z labels'
           | None => None
           end
  end.

Definition fit : option (list Z) :=
  visit (seq 0 (length X)) 0%Z (replicate (length X) noise).
End Fit.
End DBSCAN.

(** [clusters.setdefault(label, []).append(x)] *)
Fixpoint setdefault_append {A : Type} (label : Z) (x : A) (clusters : list (Z * list A))
  : list (Z * list A) :=
  match clusters with
  | [] => [(label, [x])]
  | (k, members) :: rest =>
      if (label =? k)%Z then (k, members ++ [x]) :: rest
      else (k, members) :: setdefault_append label x rest
  end.

(** Lines 72-74: the body of the loop over [zip(labels, photos_with_gps)],
    and the loop. *)
Definition group_step {A : Type} (clusters : list (Z * list A)) (lp : Z * A)
  : list (Z * list A) :=
  setdefault_append (fst lp) (snd lp) clusters.

Definition group_by_label {A : Type} (labels : list Z) (photos : list A) : list (Z * list A) :=
  fold_left group_step (zip labels photos) [].

(** [None] only when the labelling runs out of fuel, which it never does
    ([cluster_points_returns]). *)
Definition cluster_points (within_eps : Coord -> Coord -> bool)
           (photos_with_gps : list GeoRecord) : option Clusters :=
  match photos_with_gps with
  | [] => Some []
  | _ =>
      let coords := map coord_of photos_with_gps in
      match DBSCAN.fit within_eps coords with
      | Some labels => Some (group_by_label labels photos_with_gps)
      | None => None
      end
  end.

(** Members of a cluster joined by direct connections that stay inside the
    cluster. *)
Definition connected_in (within_eps : Coord -> Coord -> bool) (members : list GeoRecord)
  : GeoRecord -> GeoRecord -> Prop :=
  rtc (fun a b => In a members /\ In b members
                  /\ within_eps (coord_of a) (coord_of b) = true).

(** ** The cluster filter of [process_directory] (kml.py 174-198,
       PlainExtractTotrack.py 221-245) *)

Record RetainedGroup : Type := mkRetainedGroup {
  group_index : nat;
  group_members : list GeoRecord;
  group_document : PointDocument
}.

Record FilterState : Type := mkFilterState {
  valid_cluster_count : nat;
  total_discarded_points : nat;
  generated : list RetainedGroup
}.

Definition retained (cluster_points_list : list GeoRecord) : bool :=
  (3 <? length cluster_points_list)%nat.

Definition discarded (cluster_points_list : list GeoRecord) : bool :=
  negb (retained cluster_points_list).

(** Line 181. *)
Definition total_clusters_of (clusters : Clusters) : nat :=
  length (List.filter retained (map snd clusters)).

(** [for item in items: body], where the body works on the state of the
    loop: an exception ends the loop, and what was done before it stays
    done. *)
Fixpoint for_items {A St : Type} (body : St -> A -> PyResult unit * St)
         (items : list A) (st : St) : PyResult unit * St :=
  match items with
  | [] => (Returned tt, st)
  | item :: rest =>
      match body st item with
      | (Returned _, st') => for_items body rest st'
      | (Raised e, st') => (Raised e, st')
      end
  end.

Section ClusterFilter.
Variable xml_compatible : string -> bool.

(** Lines 184-193, the body of the loop over [clusters.items()].  Nothing
    around the call of [create_kml] catches what it raises. *)
Definition filter_step (folder_name : string) (total_clusters : nat)
           (st : FilterState) (item : Z * list GeoRecord)
  : PyResult unit * FilterState :=
  let cluster_points_list := snd item in
  if retained cluster_points_list then
    let valid_cluster_count := S (valid_cluster_count st) in
    match create_kml xml_compatible cluster_points_list valid_cluster_count
                     total_clusters folder_name with
    | Returned document =>
        (Returned tt,
         {| valid_cluster_count := valid_cluster_count;
            total_discarded_points := total_discarded_points st;
            generated :=
              generated st ++
                [mkRetainedGroup valid_cluster_count cluster_points_list document] |})
    | Raised e =>
        (Raised e,
         {| valid_cluster_count := valid_cluster_count;
            total_discarded_points := total_discarded_points st;
            generated := generated st |})
    end
  else
    (Returned tt,
     {| valid_cluster_count := valid_cluster_count st;
        total_discarded_points :=
          total_discarded_points st + length cluster_points_list;
        generated := generated st |}).

Definition filter_clusters (folder_name : string) (clusters : Clusters)
  : PyResult unit * FilterState :=
  for_items (filter_step folder_name (total_clusters_of clusters)) clusters
            (mkFilterState 0 0 []).

(** The two numbers of the log line 198, which is reached only when the
    loop has returned. *)
Definition discarded_clusters (folder_name : string) (clusters : Clusters)
  : option nat :=
  match filter_clusters folder_name clusters with
  | (Returned _, st) => Some (length clusters - valid_cluster_count st)
  | (Raised _, _) => None
  end.

Definition discarded_points (folder_name : string) (clusters : Clusters)
  : option nat :=
  match filter_clusters folder_name clusters with
  | (Returned _, st) => Some (total_discarded_points st)
  | (Raised _, _) => None
  end.

(** The calls of [create_kml] that the loop makes for the clusters kept,
    numbered from [cluster_number], are all calls in which lxml takes every
    text. *)
Fixpoint accepted_from (folder_name : string) (total_clusters cluster_number : nat)
         (kept : list (list GeoRecord)) : bool :=
  match kept with
  | [] => true
  | cluster_points_list :: rest =>
      forallb xml_compatible
              (document_texts cluster_points_list cluster_number total_clusters
                              folder_name)
      && accepted_from folder_name total_clusters (S cluster_number) rest
  end.

Definition writable (folder_name : string) (clusters : Clusters) : bool :=
  accepted_from folder_name (total_clusters_of clusters) 1
                (List.filter retained (map snd clusters)).
End ClusterFilter.

(** ** The track pass (topath.py, PlainExtractTotrack.py 298-470) *)

(** A value interpolated into an f-string: a [str] as it is, a [float]
    through [repr]; the rendering of a float is not modelled. *)
Inductive Interpolated : Type :=
| IStr (s : string)
| IFloat (x : float).

(** The text [f"{lon},{lat},0 {lon2},{lat2},0"], kept as its four values. *)
Record LineCoords : Type := mkLineCoords {
  origin_lon : Interpolated;
  origin_lat : Interpolated;
  minor_offset_lon : float;
  minor_offset_lat : float
}.

(** A [Placemark] under the [Tracks] folder.  An optional child is [None]
    when absent and [Some text] when present; [tp_coordinates] is the text of
    [LineString/coordinates], [None] until it is assigned. *)
Record TrackPlacemark : Type := mkTrackPlacemark {
  tp_name : option (option string);
  tp_description : option (option string);
  tp_style_url : string;
  tp_tessellate : string;
  tp_altitude_mode : string;
  tp_coordinates : option LineCoords
}.

(** What the scripts print. *)
Inductive Diagnostic : Type :=
| KmlFileError (file_path : string) (e : Exn)
| XmpMissingCoordinates (file_path : string)
| XmpInvalidCoordinates (file_path : string)
| XmpProcessed (file_path : string)
| XmpFileError (file_path : string) (e : Exn)
| NoInputFiles.

(** The mutable world of the pass: the [Tracks] folder element, which every
    call appends to in place, and the console. *)
Record TrackState : Type := mkTrackState {
  folder_tracks : list TrackPlacemark;
  stdout : list Diagnostic
}.

(** State survives an exception: what was appended before a [raise] stays
    appended. *)
Definition M (A : Type) : Type := TrackState -> PyResult A * TrackState.

Definition ret {A : Type} (a : A) : M A := fun s => (Returned a, s).

Definition raise {A : Type} (e : Exn) : M A := fun s => (Raised e, s).

Definition bind {A B : Type} (m : M A) (k : A -> M B) : M B :=
  fun s =>
    match m s with
    | (Returned a, s') => k a s'
    | (Raised e, s') => (Raised e, s')
    end.

Notation "x <- m ;; k" := (bind m (fun x => k))
  (at level 100, m at next level, right associativity).
Notation "m ;;; k" := (bind m (fun _ => k))
  (at level 100, right associativity).

(** [try: body except Exception as e: handler] *)
Definition try_except {A : Type} (body : M A) (handler : Exn -> M A) : M A :=
  fun s =>
    match body s with
    | (Returned a, s') => (Returned a, s')
    | (Raised e, s') => handler e s'
    end.

Fixpoint for_each {A : Type} (items : list A) (body : A -> M unit) : M unit :=
  match items with
  | [] => ret tt
  | x :: rest => body x ;;; for_each rest body
  end.

Definition print (d : Diagnostic) : M unit :=
  fun s => (Returned tt, {| folder_tracks := folder_tracks s;
                            stdout := stdout s ++ [d] |}).

(** [etree.SubElement(folder_tracks, "Placemark")] and the children that
    are built before the coordinates text. *)
Definition sub_element (p : TrackPlacemark) : M unit :=
  fun s => (Returned tt, {| folder_tracks := folder_tracks s ++ [p];
                            stdout := stdout s |}).

Definition with_coordinates (c : LineCoords) (p : TrackPlacemark) : TrackPlacemark :=
  {| tp_name := tp_name p;
     tp_description := tp_description p;
     tp_style_url := tp_style_url p;
     tp_tessellate := tp_tessellate p;
     tp_altitude_mode := tp_altitude_mode p;
     tp_coordinates := Some c |}.

(** [coordinates_new.text = coord_str]: [coordinates_new] aliases the
    element appended last. *)
Definition set_coordinates_text (c : LineCoords) : M unit :=
  fun s => (Returned tt,
            {| folder_tracks :=
                 alter (with_coordinates c) (Nat.pred (length (folder_tracks s)))
                       (folder_tracks s);
               stdout := stdout s |}).

(** A [Placemark] of a parsed point document, as the three queries of
    [process_kml_file] see it: the [name] child, the first [Point] below it
    with its [coordinates] child, and [TimeStamp/when]. *)
Record KmlPlacemark : Type := mkKmlPlacemark {
  pm_name : option (option string);
  pm_point : option (option (option string));
  pm_when : option (option string)
}.

(** The result of [etree.parse]: [None] when it raises. *)
Definition KmlFile : Type := option (list KmlPlacemark).

(** The two XPath results of [process_xmp_file]: the texts of the matched
    elements, in document order. *)
Record XmpDocument : Type := mkXmpDocument {
  lat_elements : list (option string);
  lon_elements : list (option string)
}.

Definition XmpFile : Type := option XmpDocument.

(** [0.000001] *)
Definition offset : float := 0x1.0c6f7a0b5ed8dp-20%float.

(** The fixed description of a track made from a geotag document. *)
Definition xmp_description : string := "从 XMP 文件提取的坐标".

Definition track_stub (name description : option (option string)) : TrackPlacemark :=
  {| tp_name := name;
     tp_description := description;
     tp_style_url := "#track";
     tp_tessellate := "1";
     tp_altitude_mode := "clampedToGround";
     tp_coordinates := None |}.

Section TrackPass.
(** Python's [float] on a [str]: [None] is [ValueError]. *)
Variable py_float : string -> option float.

Definition float_of (text : string) : M float :=
  match py_float text with
  | Some x => ret x
  | None => raise ValueError
  end.

(** [lon, lat, *rest = coord_text.split(',')] *)
Definition unpack_lon_lat (fields : list string) : M (string * string) :=
  match fields with
  | lon :: lat :: _ => ret (lon, lat)
  | _ => raise ValueError
  end.

(** The body of the loop of [process_kml_file], lines 52-92. *)
Definition convert_placemark (placemark : KmlPlacemark) : M unit :=
  match pm_point placemark with
  | Some (Some text) =>
      coord_text <- match text with
                    | Some t => ret (PyStr.strip t)
                    | None => raise AttributeError
                    end ;;
      lon_lat <- unpack_lon_lat (PyStr.split "," coord_text) ;;
      let '(lon, lat) := lon_lat in
      sub_element (track_stub (pm_name placemark) (pm_when placemark)) ;;;
      x <- float_of lon ;;
      let lon2 := (x + offset)%float in
      y <- float_of lat ;;
      let lat2 := (y + offset)%float in
      set_coordinates_text (mkLineCoords (IStr lon) (IStr lat) lon2 lat2)
  | _ => ret tt
  end.

Definition parse {A : Type} (file : option A) : M A :=
  match file with
  | Some root => ret root
  | None => raise ParseError
  end.

Definition process_kml_file (file_path : string) (file : KmlFile) : M unit :=
  try_except
    (placemarks <- parse file ;;
     for_each placemarks convert_placemark)
    (fun e => print (KmlFileError file_path e)).

Definition first_text (elements : list (option string)) : option string :=
  match elements with
  | e :: _ => e
  | [] => None
  end.

(** [os.path.basename] is left to the caller: [base_name] is the name
    given to the placemark. *)
Definition process_xmp_file (file_path base_name : string) (file : XmpFile) : M unit :=
  try_except
    (root <- parse file ;;
     let lat := first_text (lat_elements root) in
     let lon := first_text (lon_elements root) in
     match lat, lon with
     | Some lat, Some lon =>
         match py_float lat with
         | None => print (XmpInvalidCoordinates file_path)
         | Some lat =>
             match py_float lon with
             | None => print (XmpInvalidCoordinates file_path)
             | Some lon =>
                 sub_element (track_stub (Some (Some base_name))
                                         (Some (Some xmp_description))) ;;;
                 let lon2 := (lon + offset)%float in
                 let lat2 := (lat + offset)%float in
                 set_coordinates_text
                   (mkLineCoords (IFloat lon) (IFloat lat) lon2 lat2) ;;;
                 print (XmpProcessed file_path)
             end
         end
     | _, _ => print (XmpMissingCoordinates file_path)
     end)
    (fun e => print (XmpFileError file_path e)).

(** [main] of topath.py and [process_tracks]: the point documents first,
    then the geotag documents, all into one folder. *)
Definition process_tracks (kml_files : list (string * KmlFile))
           (xmp_files : list (string * string * XmpFile)) : M unit :=
  match kml_files, xmp_files with
  | [], [] => print NoInputFiles
  | _, _ =>
      for_each kml_files (fun f => process_kml_file (fst f) (snd f)) ;;;
      for_each xmp_files
               (fun f => process_xmp_file (fst (fst f)) (snd (fst f)) (snd f))
  end.

(** The entry a point placemark turns into when nothing fails. *)
Definition synthesize (name description : option (option string))
           (lon lat : string) (x y : float) : TrackPlacemark :=
  with_coordinates
    (mkLineCoords (IStr lon) (IStr lat) (x + offset)%float (y + offset)%float)
    (track_stub name description).
End TrackPass.

Definition empty_tracks : TrackState := mkTrackState [] [].

(** ** Concrete instances of the abstract parts *)

(** A stand-in for [float] on plain decimal literals: an optional sign,
    digits, at most one point.  With a mantissa below [2^53] and at most 18
    digits after the point both operands of the division are exact, so the
    quotient is the correctly rounded value, the one [float] returns. *)
Module Decimal.
Definition digit_of (c : ascii) : option Z :=
  let n := Z.of_nat (nat_of_ascii c) in
  if ((48 <=? n) && (n <=? 57))%Z then Some (n - 48)%Z else None.

Fixpoint scan (seen_point any : bool) (mantissa : Z) (places : nat) (s : string)
  : option (Z * nat) :=
  match s with
  | EmptyString => if any then Some (mantissa, places) else None
  | String c s' =>
      if Ascii.eqb c "." then
        if seen_point then None else scan true any mantissa places s'
      else match digit_of c with
           | Some d => scan seen_point true (10 * mantissa + d)%Z
                            (if seen_point then S places else places) s'
           | None => None
           end
  end.

Definition magnitude (s : string) : option float :=
  match scan false false 0%Z 0 s with
  | Some (mantissa, places) =>
      if ((mantissa <? 2 ^ 53)%Z && (places <=? 18)%nat)
      then Some (PrimFloat.of_uint63 (Uint63.of_Z mantissa)
                 / PrimFloat.of_uint63 (Uint63.of_Z (10 ^ Z.of_nat places)))%float
      else None
  | None => None
  end.

Definition float_of_decimal (s : string) : option float :=
  match s with
  | String "-" s' => option_map PrimFloat.opp (magnitude s')
  | String "+" s' => magnitude s'
  | _ => magnitude s
  end.
End Decimal.

(** A stand-in for the test of lxml, read on the UTF-8 bytes of a string:
    of the bytes below 32 only tab, newline and carriage return pass.  The
    strings of the concrete runs are ASCII, where this is the whole test. *)
Module Xml.
Definition char_ok (c : ascii) : bool :=
  let n := nat_of_ascii c in
  ((32 <=? n) || (n =? 9) || (n =? 10) || (n =? 13))%nat.

Fixpoint compatible (s : string) : bool :=
  match s with
  | EmptyString => true
  | String c s' => char_ok c && compatible s'
  end.
End Xml.

(** A radius test on the plane, in degrees: both coordinates differ by at
    most [eps]. *)
Definition within_box (eps : float) (p q : Coord) : bool :=
  (PrimFloat.abs (fst p - fst q) <=? eps)%float
  && (PrimFloat.abs (snd p - snd q) <=? eps)%float.

(** ** The distance metric *)

(** Modelled from the spec: the metric [metric='haversine'] is computed
    inside scikit-learn, not by the sources.  Section 4.1 gives its
    contract: the haversine great-circle formula on a sphere of radius 6371
    km, inputs in degrees, converted to radians internally.  The formula is
    stated over the real numbers; the rounding of a binary64 evaluation is
    not part of this model. *)
Module Metric.
Local Open Scope R_scope.

Record GeoPoint : Type := mkGeoPoint {
  latitude : R;
  longitude : R
}.

Definition radians (degrees : R) : R := degrees * PI / 180.

Definition earth_radius_km : R := 6371.

(** The great-circle distance on the unit sphere, arguments in radians. *)
Definition haversine (lat1 lon1 lat2 lon2 : R) : R :=
  2 * asin (sqrt ((sin (/2 * (lat1 - lat2)))² 
                  + cos lat1 * cos lat2 * (sin (/2 * (lon1 - lon2)))²)).

Definition distanceKm (a b : GeoPoint) : R :=
  earth_radius_km
  * haversine (radians (latitude a)) (radians (longitude a))
              (radians (latitude b)) (radians (longitude b)).

(** Line 68 and the comparison DBSCAN makes with it. *)
Definition eps (max_distance : R) : R := max_distance / earth_radius_km.

Definition directly_connected (max_distance : R) (a b : GeoPoint) : Prop :=
  haversine (radians (latitude a)) (radians (longitude a))
            (radians (latitude b)) (radians (longitude b)) <= eps max_distance.
End Metric.

(** ** Summaries of the track pass

    What one call contributes, as pure functions of the parsed file; the
    lemmas of the track pass relate them to the stateful definitions. *)

Inductive Outcome : Type :=
| Skipped                               (* no point geometry: nothing done *)
| Converted (entry : TrackPlacemark)    (* a finished track *)
| FailedBefore (e : Exn)                (* raised before [SubElement] *)
| FailedAfter (stub : TrackPlacemark).  (* [float] raised: the stub stays, without text *)

Section Summaries.
Variable py_float : string -> option float.

Definition outcome (placemark : KmlPlacemark) : Outcome :=
  match pm_point placemark with
  | Some (Some None) => FailedBefore AttributeError
  | Some (Some (Some t)) =>
      match PyStr.split "," (PyStr.strip t) with
      | lon :: lat :: _ =>
          match py_float lon, py_float lat with
          | Some x, Some y =>
              Converted (synthesize (pm_name placemark) (pm_when placemark) lon lat x y)
          | _, _ => FailedAfter (track_stub (pm_name placemark) (pm_when placemark))
          end
      | _ => FailedBefore ValueError
      end
  | _ => Skipped
  end.

Definition failed (placemark : KmlPlacemark) : bool :=
  match outcome placemark with
  | FailedBefore _ | FailedAfter _ => true
  | _ => false
  end.

Definition entries_of (placemark : KmlPlacemark) : list TrackPlacemark :=
  match outcome placemark with
  | Converted entry => [entry]
  | _ => []
  end.

Definition leftover_of (placemark : KmlPlacemark) : list TrackPlacemark :=
  match outcome placemark with
  | FailedAfter stub => [stub]
  | _ => []
  end.

Definition exn_of (placemark : KmlPlacemark) : option Exn :=
  match outcome placemark with
  | FailedBefore e => Some e
  | FailedAfter _ => Some ValueError
  | _ => None
  end.

(** The placemarks a loop over [placemarks] appends, and the exception
    that ends it. *)
Fixpoint walk (placemarks : list KmlPlacemark) : list TrackPlacemark * option Exn :=
  match placemarks with
  | [] => ([], None)
  | placemark :: rest =>
      match exn_of placemark with
      | Some e => (leftover_of placemark, Some e)
      | None => (entries_of placemark ++ fst (walk rest), snd (walk rest))
      end
  end.

Definition kml_tracks (file : KmlFile) : list TrackPlacemark :=
  match file with
  | Some placemarks => fst (walk placemarks)
  | None => []
  end.

Definition kml_stdout (file_path : string) (file : KmlFile) : list Diagnostic :=
  match file with
  | Some placemarks =>
      match snd (walk placemarks) with
      | Some e => [KmlFileError file_path e]
      | None => []
      end
  | None => [KmlFileError file_path ParseError]
  end.

(** The coordinates of a geotag document, when both resolve to numbers. *)
Definition xmp_coordinates (document : XmpDocument) : option (float * float) :=
  match first_text (lat_elements document), first_text (lon_elements document) with
  | Some lat, Some lon =>
      match py_float lat, py_float lon with
      | Some lat, Some lon => Some (lat, lon)
      | _, _ => None
      end
  | _, _ => None
  end.

(** No alias resolves to a text. *)
Definition xmp_unresolved (document : XmpDocument) : bool :=
  match first_text (lat_elements document), first_text (lon_elements document) with
  | Some _, Some _ => false
  | _, _ => true
  end.

(** Both resolve, and one of the texts is not a number. *)
Definition xmp_non_numeric (document : XmpDocument) : bool :=
  match first_text (lat_elements document), first_text (lon_elements document) with
  | Some lat, Some lon =>
      match py_float lat, py_float lon with
      | Some _, Some _ => false
      | _, _ => true
      end
  | _, _ => false
  end.

Definition xmp_tracks (base_name : string) (file : XmpFile) : list TrackPlacemark :=
  match file with
  | Some document =>
      match xmp_coordinates document with
      | Some (lat, lon) =>
          [with_coordinates
             (mkLineCoords (IFloat lon) (IFloat lat) (lon + offset)%float
                           (lat + offset)%float)
             (track_stub (Some (Some base_name)) (Some (Some xmp_description)))]
      | None => []
      end
  | None => []
  end.

Definition xmp_stdout (file_path : string) (file : XmpFile) : Diagnostic :=
  match file with
  | Some document =>
      if xmp_unresolved document then XmpMissingCoordinates file_path
      else if xmp_non_numeric document then XmpInvalidCoordinates file_path
           else XmpProcessed file_path
  | None => XmpFileError file_path ParseError
  end.

(** Everything the files of a run contribute, in order. *)
Definition kml_all (kml_files : list (string * KmlFile)) : list TrackPlacemark :=
  flat_map (fun f => kml_tracks (snd f)) kml_files.

Definition xmp_all (xmp_files : list (string * string * XmpFile)) : list TrackPlacemark :=
  flat_map (fun f => xmp_tracks (snd (fst f)) (snd f)) xmp_files.

(** The number an interpolated origin stands for. *)
Definition value_of (v : Interpolated) : option float :=
  match v with
  | IStr s => py_float s
  | IFloat x => Some x
  end.

(** The second vertex is the binary64 sum of the first and [offset]. *)
Definition offset_applied (p : TrackPlacemark) : Prop :=
  match tp_coordinates p with
  | Some c =>
      exists x y,
        value_of (origin_lon c) = Some x /\ value_of (origin_lat c) = Some y
        /\ minor_offset_lon c = (x + offset)%float
        /\ minor_offset_lat c = (y + offset)%float
  | None => True
  end.
End Summaries.

(** State [s] after [tracks] were appended and [lines] printed. *)
Definition extended (s : TrackState) (tracks : list TrackPlacemark)
           (lines : list Diagnostic) : TrackState :=
  {| folder_tracks := folder_tracks s ++ tracks; stdout := stdout s ++ lines |}.



(** ** Notions used to state the properties of the clustering *)

(** [clusters.get(label, [])] *)
Fixpoint members {A : Type} (label : Z) (clusters : list (Z * list A)) : list A :=
  match clusters with
  | [] => []
  | (k, ms) :: rest => if (label =? k)%Z then ms else members label rest
  end.

(** The records that carry [label], in input order. *)
Definition labelled {A : Type} (label : Z) (labels : list Z) (photos : list A) : list A :=
  map snd (List.filter (fun lp => (fst lp =? label)%Z) (zip labels photos)).

(** The points still without a label. *)
Definition pending (labels : list Z) : nat :=
  length (List.filter (fun l => (l =? DBSCAN.noise)%Z) labels).

(** Two points that carry label [c] and are within the radius of each
    other, and the chains of such pairs. *)
Definition linked (within_eps : Coord -> Coord -> bool) (X : list Coord)
           (labels : list Z) (c : Z) (u v : nat) : Prop :=
  labels !! u = Some c /\ labels !! v = Some c /\ DBSCAN.adj within_eps X u v = true.

Definition chained (within_eps : Coord -> Coord -> bool) (X : list Coord)
           (labels : list Z) (c : Z) : nat -> nat -> Prop :=
  rtc (linked within_eps X labels c).

(** A point on the stack of an expansion with label [c]: it carries [c]
    already, or a point that carries [c] has it in its neighbourhood. *)
Definition frontier (within_eps : Coord -> Coord -> bool) (X : list Coord)
           (labels : list Z) (c : Z) (v : nat) : Prop :=
  labels !! v = Some c
  \/ exists u, labels !! u = Some c /\ DBSCAN.adj within_eps X u v = true.

(** The state of the outer loop before it visits a point: labels are
    [noise] or below [label_num], and points with one label are chained. *)
Definition well_labelled (within_eps : Coord -> Coord -> bool) (X : list Coord)
           (label_num : Z) (labels : list Z) : Prop :=
  length labels = length X
  /\ (0 <= label_num)%Z
  /\ (forall v l, labels !! v = Some l -> l = DBSCAN.noise \/ (0 <= l < label_num)%Z)
  /\ (forall c a b, c <> DBSCAN.noise -> labels !! a = Some c -> labels !! b = Some c ->
                    chained within_eps X labels c a b).

(** ** Concrete runs *)

(** The track-pass scenario of section 8: one point document with one
    placemark at longitude 10.0, latitude 20.0 and no timestamp. *)
Definition scenario_point_document : list (string * KmlFile) :=
  [("group_1.kml",
    Some [mkKmlPlacemark (Some (Some "IMG_1.jpg")) (Some (Some (Some "10.0,20.0"))) None])].

Definition scenario_tracks : list TrackPlacemark :=
  folder_tracks
    (snd (process_tracks Decimal.float_of_decimal scenario_point_document []
                         empty_tracks)).

(** A geotag document without any latitude element, and one whose latitude
    is not a number. *)
Definition xmp_without_latitude : XmpDocument :=
  mkXmpDocument [] [Some "10.0"].

Definition xmp_with_text_latitude : XmpDocument :=
  mkXmpDocument [Some "north"] [Some "10.0"].

(** Placemarks of a point document: a good one, one whose coordinate text
    has no comma, one whose longitude is not a number. *)
Definition good_placemark : KmlPlacemark :=
  mkKmlPlacemark (Some (Some "IMG_1.jpg")) (Some (Some (Some "10.0,20.0")))
                 (Some (Some "2024-01-02T03:04:05Z")).

Definition unsplittable_placemark : KmlPlacemark :=
  mkKmlPlacemark (Some (Some "IMG_2.jpg")) (Some (Some (Some "10.0 20.0"))) None.

Definition non_numeric_placemark : KmlPlacemark :=
  mkKmlPlacemark (Some (Some "IMG_3.jpg")) (Some (Some (Some "east,20.0"))) None.

(** Three clusters of four photographs each; the photographs of the second
    have a name that starts with the control character U+0001, which lxml
    refuses. *)
Definition clusters_with_a_refused_name : Clusters :=
  [(0%Z, replicate 4 (mkGeoRecord "IMG.jpg" 0 0 None));
   (1%Z, replicate 4 (mkGeoRecord (String (ascii_of_nat 1) "IMG.jpg") 5 5 None));
   (2%Z, replicate 4 (mkGeoRecord "IMG.jpg" 9 9 None))].

(** A rendering of the two coordinates of the track-pass scenario. *)
Definition scenario_repr (x : float) : string :=
  if (x =? 10)%float then "10.0" else if (x =? 20)%float then "20.0" else "0.0".

(** Three photographs in a row, one degree apart, and a fourth far away;
    with a radius of one degree the first and the third are not within the
    radius of each other. *)
Definition photos_in_a_row : list GeoRecord :=
  [mkGeoRecord "IMG_1.jpg" 0 0 None;
   mkGeoRecord "IMG_2.jpg" 5 5 None;
   mkGeoRecord "IMG_3.jpg" 1 0 None;
   mkGeoRecord "IMG_4.jpg" 2 0 None]%float.

(** ** Further parts of the scripts *)

(** *** Names of the files written by [process_directory] (kml.py 121-150,
        186) *)

(** Lines 126-128: [f"{sanitized_absolute}_{sanitized_relative}_{time_str}"]. *)
Definition output_prefix (absolute_path relative_path time_str : string) : string :=
  (sanitize_path absolute_path ++ "_" ++ sanitize_path relative_path ++ "_" ++ time_str)%string.

(** Line 186: [f"{prefix}_{valid_cluster_count}.kml"]. *)
Definition kml_filename (prefix : string) (valid_cluster_count : nat) : string :=
  (prefix ++ "_" ++ py_str_nat valid_cluster_count ++ ".kml")%string.

(** Line 150: [f"{prefix}_log.txt"]. *)
Definition log_filename (prefix : string) : string :=
  (prefix ++ "_log.txt")%string.

Fixpoint all_chars (p : ascii -> bool) (s : string) : bool :=
  match s with
  | EmptyString => true
  | String c s' => p c && all_chars p s'
  end.

(** A character that may stand in one component of a file name as the
    scripts build them: not a colon, a separator or a space. *)
Definition name_char (c : ascii) : bool :=
  negb (Ascii.eqb c ":" || Ascii.eqb c backslash || Ascii.eqb c "/" || Ascii.eqb c " ").

Definition is_digit (c : ascii) : bool :=
  let n := nat_of_ascii c in ((48 <=? n)%nat && (n <=? 57)%nat).

(** [s.count(c)] for a character. *)
Fixpoint count_char (c : ascii) (s : string) : nat :=
  match s with
  | EmptyString => 0
  | String a s' => if Ascii.eqb a c then S (count_char c s') else count_char c s'
  end.

(** *** Photographs of a directory (kml.py 139-172) *)

(** [str.lower()] on the ASCII letters; among the characters outside ASCII
    none lowers to a letter of the three extensions below. *)
Definition ascii_lower (c : ascii) : ascii :=
  let n := nat_of_ascii c in
  if ((65 <=? n)%nat && (n <=? 90)%nat) then ascii_of_nat (n + 32) else c.

Fixpoint str_lower (s : string) : string :=
  match s with
  | EmptyString => EmptyString
  | String c s' => String (ascii_lower c) (str_lower s')
  end.

(** [s.endswith(suffix)] *)
Definition str_endswith (s suffix : string) : bool :=
  (String.length suffix <=? String.length s)%nat
  && String.eqb (substring (String.length s - String.length suffix)
                           (String.length suffix) s) suffix.

(** Line 140: [file.lower().endswith(('.jpg', '.jpeg', '.png'))]. *)
Definition is_photo_file (file : string) : bool :=
  let lowered := str_lower file in
  str_endswith lowered ".jpg" || str_endswith lowered ".jpeg"
  || str_endswith lowered ".png".

(** What [extract_gps(photo_path)] does for one photograph: it returns the
    triple, returns [None], or raises (the file cannot be opened). *)
Inductive GpsOutcome : Type :=
| GpsFound (lat lon : float) (timestamp : option string)
| GpsAbsent
| GpsRaised (error : string).

Record PhotoTally : Type := mkPhotoTally {
  photos_with_gps : list GeoRecord;
  no_gps_count : nat;
  failed_count : nat;
  failure_log : list (string * string)
}.

(** Lines 162-172, the body of the loop over [photo_files]. *)
Definition tally_photo (extract_gps : string -> GpsOutcome) (tally : PhotoTally)
           (photo : string) : PhotoTally :=
  match extract_gps photo with
  | GpsFound lat lon timestamp =>
      {| photos_with_gps := photos_with_gps tally ++ [mkGeoRecord photo lat lon timestamp];
         no_gps_count := no_gps_count tally;
         failed_count := failed_count tally;
         failure_log := failure_log tally |}
  | GpsAbsent =>
      {| photos_with_gps := photos_with_gps tally;
         no_gps_count := S (no_gps_count tally);
         failed_count := failed_count tally;
         failure_log := failure_log tally |}
  | GpsRaised e =>
      {| photos_with_gps := photos_with_gps tally;
         no_gps_count := no_gps_count tally;
         failed_count := S (failed_count tally);
         failure_log := failure_log tally ++ [(photo, e)] |}
  end.

(** Lines 139-172: the photographs among [all_files], and the tally after
    the loop. *)
Definition photo_files_of (all_files : list string) : list string :=
  List.filter is_photo_file all_files.

Definition tally_photos (extract_gps : string -> GpsOutcome) (all_files : list string)
  : PhotoTally :=
  fold_left (tally_photo extract_gps) (photo_files_of all_files)
            (mkPhotoTally [] 0 0 []).

(** What one photograph adds to [photos_with_gps] and to the log, and
    whether it is counted as having no coordinates. *)
Definition record_found (extract_gps : string -> GpsOutcome) (photo : string)
  : list GeoRecord :=
  match extract_gps photo with
  | GpsFound lat lon timestamp => [mkGeoRecord photo lat lon timestamp]
  | _ => []
  end.

Definition failure_logged (extract_gps : string -> GpsOutcome) (photo : string)
  : list (string * string) :=
  match extract_gps photo with
  | GpsRaised e => [(photo, e)]
  | _ => []
  end.

Definition gps_absent (extract_gps : string -> GpsOutcome) (photo : string) : bool :=
  match extract_gps photo with
  | GpsAbsent => true
  | _ => false
  end.

(** *** Order of the clusters *)

(** [k in keys] *)
Definition known (keys : list Z) (k : Z) : bool := existsb (Z.eqb k) keys.

(** The distinct labels of a label vector, each at its first occurrence. *)
Fixpoint first_seen (labels : list Z) : list Z :=
  match labels with
  | [] => []
  | l :: rest => l :: List.filter (fun k => negb (k =? l)%Z) (first_seen rest)
  end.

(** *** A point document read back by the track pass *)

Section ReadBack.
(** [repr] of a float, as the f-string [f"{lon},{lat}"] renders it. *)
Variable repr : float -> string.

(** The text of an element after it was written and parsed: an empty text
    comes back as [None]. *)
Definition parsed_text (s : string) : option string :=
  match s with
  | EmptyString => None
  | _ => Some s
  end.

Fixpoint find_name (elements : list KmlElement) : option (option string) :=
  match elements with
  | [] => None
  | KName text :: _ => Some (parsed_text text)
  | _ :: rest => find_name rest
  end.

Fixpoint find_point (elements : list KmlElement) : option (option (option string)) :=
  match elements with
  | [] => None
  | KPoint lon lat :: _ => Some (Some (parsed_text (repr lon ++ "," ++ repr lat)%string))
  | _ :: rest => find_point rest
  end.

Fixpoint find_when (elements : list KmlElement) : option (option string) :=
  match elements with
  | [] => None
  | KTimeStamp when :: _ => Some (parsed_text when)
  | _ :: rest => find_when rest
  end.

(** What the three queries of [process_kml_file] find in a placemark built
    by [create_kml]. *)
Definition placemark_as_read (elements : list KmlElement) : KmlPlacemark :=
  {| pm_name := find_name elements;
     pm_point := find_point elements;
     pm_when := find_when elements |}.

Definition document_as_read (document : PointDocument) : KmlFile :=
  Some (map placemark_as_read (doc_placemarks document)).

(** The track a record of a point document is expected to give. *)
Definition track_of_record (r : GeoRecord) : TrackPlacemark :=
  with_coordinates
    (mkLineCoords (IStr (repr (lon r))) (IStr (repr (lat r)))
                  (lon r + offset)%float (lat r + offset)%float)
    (track_stub (Some (parsed_text (photo_name r)))
                (if truthy (timestamp r)
                 then match timestamp r with
                      | Some ts => Some (Some (timestamp_formatted ts))
                      | None => None
                      end
                 else None)).
End ReadBack.

(** A rendering of a number: not empty, in ASCII, without comma and
    without space. *)
Definition number_char (c : ascii) : bool :=
  (nat_of_ascii c <? 128)%nat && negb (Ascii.eqb c ",") && negb (PyStr.is_space c).

Definition plain_number (s : string) : bool :=
  negb (String.eqb s EmptyString) && all_chars number_char s.

(** [float] reads back what [repr] renders of the coordinates of [r]. *)
Definition renders (repr : float -> string) (py_float : string -> option float)
           (r : GeoRecord) : Prop :=
  plain_number (repr (lon r)) = true /\ plain_number (repr (lat r)) = true
  /\ py_float (repr (lon r)) = Some (lon r) /\ py_float (repr (lat r)) = Some (lat r).

(** *** [flatten_directory] (PlainExtractTotrack.py 21-68) *)

(** [s.rfind(c)] *)
Fixpoint rfind (c : ascii) (s : string) : option nat :=
  match s with
  | EmptyString => None
  | String a s' =>
      match rfind c s' with
      | Some i => Some (S i)
      | None => if Ascii.eqb a c then Some 0 else None
      end
  end.

(** [os.path.splitext] on a file name, which holds no separator: the
    extension starts at the last dot, unless only dots come before it. *)
Definition splitext (name : string) : string * string :=
  match rfind "." name with
  | Some dot =>
      if all_chars (fun c => Ascii.eqb c ".") (substring 0 dot name)
      then (name, EmptyString)
      else (substring 0 dot name, substring dot (String.length name - dot) name)
  | None => (name, EmptyString)
  end.

(** [f"{base}_{counter}{ext}"] *)
Definition numbered (base ext : string) (counter : nat) : string :=
  (base ++ "_" ++ py_str_nat counter ++ ext)%string.

(** Lines 44-46: the loop [while os.path.exists(destination_path)].  [None]
    when the fuel runs out. *)
Fixpoint next_free (fuel : nat) (exists_ : string -> bool) (base ext : string)
         (destination : string) (counter : nat) : option string :=
  match fuel with
  | O => None
  | S fuel' =>
      if exists_ destination
      then next_free fuel' exists_ base ext (numbered base ext counter) (S counter)
      else Some destination
  end.

(** Lines 37-46: the name under which [file] arrives in the root directory,
    whose entries (files and directories) are [existing]; names are compared
    as a case-sensitive file system compares them. *)
Definition destination_name (existing : list string) (file : string) : option string :=
  let exists_ := fun name => existsb (String.eqb name) existing in
  if exists_ file then
    let '(base, ext) := splitext file in
    next_free (S (S (length existing))) exists_ base ext file 1
  else Some file.

(** Lines 31-50: the files of the subdirectories, in the order of the walk,
    are moved one after the other; a moved file is an entry of the root from
    then on.  The result lists, for each file, the name it was given. *)
Fixpoint flatten_moves (existing : list string) (files : list string)
  : option (list (string * string)) :=
  match files with
  | [] => Some []
  | file :: rest =>
      match destination_name existing file with
      | Some destination =>
          match flatten_moves (destination :: existing) rest with
          | Some moves => Some ((file, destination) :: moves)
          | None => None
          end
      | None => None
      end
  end.

(** *** Further notions for the track pass *)

Definition has_coordinates (placemark : KmlPlacemark) : bool :=
  match pm_point placemark with
  | Some (Some _) => true
  | _ => false
  end.

(** The fixed children of a track: the shared style, tessellation, and the
    altitude mode. *)
Definition styled (p : TrackPlacemark) : Prop :=
  tp_style_url p = "#track" /\ tp_tessellate p = "1"
  /\ tp_altitude_mode p = "clampedToGround".

(** The expansion in progress: an unlabelled neighbour of a point that
    carries [c] is under the cursor or on the stack. *)
Definition awaiting (within_eps : Coord -> Coord -> bool) (X : list Coord)
           (labels : list Z) (c : Z) (i : nat) (stack : list nat) : Prop :=
  forall u v, labels !! u = Some c -> DBSCAN.adj within_eps X u v = true ->
              labels !! v = Some DBSCAN.noise -> v = i \/ In v stack.

(** Before the outer loop visits point [i]: the points before [i] are
    labelled, and their labels are 0, ..., [num - 1] in the order of their
    first occurrence. *)
Definition visited_upto (X : list Coord) (i : nat) (num : Z) (L : list Z) : Prop :=
  length L = length X
  /\ (0 <= num)%Z
  /\ (forall v l, L !! v = Some l -> l = DBSCAN.noise \/ (0 <= l < num)%Z)
  /\ (forall j, j < i -> exists l, L !! j = Some l /\ l <> DBSCAN.noise)
  /\ first_seen (take i L) = seqZ 0 num.

(** Points within the radius of each other carry the same label. *)
Definition closed_labels (within_eps : Coord -> Coord -> bool) (X : list Coord)
           (labels : list Z) : Prop :=
  forall u v c, c <> DBSCAN.noise -> labels !! u = Some c ->
                DBSCAN.adj within_eps X u v = true -> labels !! v = Some c.

(* ================================================================== *)
(** * Properties *)
(* ================================================================== *)

(** ** Strings *)

Section StringFacts.
Local Open Scope string_scope.

Lemma prefix_empty (s : string) : String.prefix EmptyString s = true.
Proof. destruct s; reflexivity. Qed.

Lemma replace_all_cons (a : ascii) (new : string) (c : ascii) (s : string) :
  PyStr.replace (String a EmptyString) new None (String c s)
  = if Ascii.eqb c a
    then new ++ PyStr.replace (String a EmptyString) new None s
    else String c (PyStr.replace (String a EmptyString) new None s).
Proof.
  unfold PyStr.replace. cbn [PyStr.replace_from PyStr.count_left andb String.prefix].
  destruct (ascii_dec a c) as [->|Hne].
  - rewrite Ascii.eqb_refl, prefix_empty. reflexivity.
  - destruct (Ascii.eqb_spec c a) as [->|_]; [congruence | reflexivity].
Qed.

Lemma replace_count_cons (a : ascii) (new : string) (n : nat) (c : ascii) (s : string) :
  PyStr.replace (String a EmptyString) new (Some n) (String c s)
  = match n with
    | S k => if Ascii.eqb c a
             then new ++ PyStr.replace (String a EmptyString) new (Some k) s
             else String c (PyStr.replace (String a EmptyString) new (Some n) s)
    | O => String c (PyStr.replace (String a EmptyString) new (Some n) s)
    end.
Proof.
  unfold PyStr.replace. destruct n as [|k].
  - reflexivity.
  - cbn [PyStr.replace_from PyStr.count_left PyStr.count_pred andb String.prefix Nat.pred].
    destruct (ascii_dec a c) as [->|Hne].
    + rewrite Ascii.eqb_refl, prefix_empty. reflexivity.
    + destruct (Ascii.eqb_spec c a) as [->|_]; [congruence | reflexivity].
Qed.

Lemma replace_all_nil (a : ascii) (new : string) (count : option nat) :
  PyStr.replace (String a EmptyString) new count EmptyString = EmptyString.
Proof. reflexivity. Qed.

Lemma replace_all_other (a : ascii) (new : string) (c : ascii) (s : string) :
  Ascii.eqb c a = false ->
  PyStr.replace (String a EmptyString) new None (String c s)
  = String c (PyStr.replace (String a EmptyString) new None s).
Proof. intros Hne. rewrite replace_all_cons, Hne. reflexivity. Qed.

Lemma sanitize_path_cons (c : ascii) (s : string) :
  sanitize_path (String c s)
  = if Ascii.eqb c ":" then sanitize_path s
    else if Ascii.eqb c backslash || Ascii.eqb c "/" || Ascii.eqb c " "
         then String "_" (sanitize_path s)
         else String c (sanitize_path s).
Proof.
  unfold sanitize_path.
  rewrite (replace_all_cons ":").
  destruct (Ascii.eqb c ":") eqn:Ecolon; [reflexivity|].
  rewrite (replace_all_cons backslash).
  destruct (Ascii.eqb c backslash) eqn:Eback.
  { cbn [String.append orb].
    rewrite (replace_all_other "/" "_" "_") by reflexivity.
    rewrite (replace_all_other " " "_" "_") by reflexivity.
    reflexivity. }
  rewrite (replace_all_cons "/").
  destruct (Ascii.eqb c "/") eqn:Eslash.
  { cbn [String.append orb].
    rewrite (replace_all_other " " "_" "_") by reflexivity.
    reflexivity. }
  rewrite (replace_all_cons " ").
  destruct (Ascii.eqb c " ") eqn:Espace; reflexivity.
Qed.

Lemma timestamp_formatted_chars (n : nat) (ts : string) :
  PyStr.replace " " "T" None (PyStr.replace ":" "-" (Some n) ts) = iso_chars n ts.
Proof.
  revert n. induction ts as [|c ts IH]; intros n; [reflexivity|].
  rewrite replace_count_cons. cbn [iso_chars].
  destruct (Ascii.eqb c ":") eqn:Ecolon.
  - apply Ascii.eqb_eq in Ecolon. subst c. destruct n as [|k].
    + rewrite replace_all_cons. cbn. rewrite IH. reflexivity.
    + cbn [String.append]. rewrite replace_all_cons. cbn. rewrite IH. reflexivity.
  - assert (Hstep : PyStr.replace " " "T" None
                      (String c (PyStr.replace ":" "-" (Some n) ts))
                    = if Ascii.eqb c " " then String "T" (iso_chars n ts)
                      else String c (iso_chars n ts)).
    { rewrite replace_all_cons, IH. reflexivity. }
    destruct n; exact Hstep.
Qed.




End StringFacts.

(** C5, as amended.  For every path string, [sanitize_path] deletes each
    colon and replaces each backslash, slash and space by an underscore;
    every other character is kept, in order. *)
Theorem sanitize_path_chars (path : string) :
  sanitize_path path = sanitize_chars path.
Proof.
  induction path as [|c s IH]; [reflexivity|].
  rewrite sanitize_path_cons. cbn [sanitize_chars]. rewrite IH. reflexivity.
Qed.

(** C5, as stated, fails: a colon of the input does not become an underscore,
    it disappears (it is replaced by the empty string). *)
Lemma sanitize_path_colon_removed :
  sanitize_path "C:\My Photos" = "C_My_Photos"%string
  /\ sanitize_as_specified "C:\My Photos" = "C__My_Photos"%string
  /\ sanitize_path "C:\My Photos" <> sanitize_as_specified "C:\My Photos".
Proof. repeat split; vm_compute; congruence. Qed.

(** ** Point documents *)



Section PointDocumentFacts.
Variable xml_compatible : string -> bool.

Lemma make_placemark_spec (r : GeoRecord) :
  make_placemark xml_compatible r
  = if forallb xml_compatible (record_texts r)
    then Returned (placemark_of r) else Raised ValueError.
Proof.
  unfold make_placemark, record_texts, placemark_of, element_text.
  cbn [forallb]. destruct (xml_compatible (photo_name r)); [|reflexivity].
  cbn [andb]. destruct (truthy (timestamp r)); [|reflexivity].
  destruct (timestamp r) as [ts|]; [|reflexivity].
  cbn [forallb]. destruct (xml_compatible (timestamp_formatted ts)); reflexivity.
Qed.

Lemma make_placemarks_spec (cluster_points_list : list GeoRecord) :
  make_placemarks xml_compatible cluster_points_list
  = if forallb xml_compatible (flat_map record_texts cluster_points_list)
    then Returned (map placemark_of cluster_points_list) else Raised ValueError.
Proof.
  induction cluster_points_list as [|r rest IH]; [reflexivity|].
  cbn [make_placemarks flat_map map]. rewrite make_placemark_spec, forallb_app.
  destruct (forallb xml_compatible (record_texts r)); [|reflexivity].
  rewrite IH. cbn [andb].
  destruct (forallb xml_compatible (flat_map record_texts rest)); reflexivity.
Qed.

(** [create_kml] returns the document of its records exactly when lxml takes
    every text, and raises [ValueError] otherwise. *)
Lemma create_kml_spec (cluster_points_list : list GeoRecord)
      (cluster_number total_clusters : nat) (folder_name : string) :
  create_kml xml_compatible cluster_points_list cluster_number total_clusters folder_name
  = if forallb xml_compatible
               (document_texts cluster_points_list cluster_number total_clusters
                               folder_name)
    then Returned {| doc_title := mkKmlTitle folder_name cluster_number total_clusters;
                     doc_placemarks := map placemark_of cluster_points_list |}
    else Raised ValueError.
Proof.
  unfold create_kml, document_texts, element_text.
  rewrite make_placemarks_spec, forallb_app. cbn [forallb].
  destruct (forallb xml_compatible (flat_map record_texts cluster_points_list));
    [|reflexivity].
  cbn [andb]. rewrite andb_true_r.
  destruct (xml_compatible (kml_name folder_name cluster_number total_clusters));
    reflexivity.
Qed.

End PointDocumentFacts.




(** ** The cluster filter *)

Lemma for_items_cons {A St : Type} (body : St -> A -> PyResult unit * St)
      (item : A) (rest : list A) (st : St) :
  for_items body (item :: rest) st
  = match body st item with
    | (Returned _, st') => for_items body rest st'
    | (Raised e, st') => (Raised e, st')
    end.
Proof. reflexivity. Qed.

Section FilterFacts.
Variable xml_compatible : string -> bool.
Variable folder_name : string.
Variable total : nat.

(** One turn of the loop on a cluster that is kept. *)
Lemma filter_step_retained (st : FilterState) (k : Z) (c : list GeoRecord) :
  retained c = true ->
  filter_step xml_compatible folder_name total st (k, c)
  = if forallb xml_compatible
               (document_texts c (S (valid_cluster_count st)) total folder_name)
    then (Returned tt,
          {| valid_cluster_count := S (valid_cluster_count st);
             total_discarded_points := total_discarded_points st;
             generated :=
               generated st ++
                 [mkRetainedGroup (S (valid_cluster_count st)) c
                    {| doc_title := mkKmlTitle folder_name (S (valid_cluster_count st))
                                               total;
                       doc_placemarks := map placemark_of c |}] |})
    else (Raised ValueError,
          {| valid_cluster_count := S (valid_cluster_count st);
             total_discarded_points := total_discarded_points st;
             generated := generated st |}).
Proof.
  intros Hret. unfold filter_step. cbn [snd]. rewrite Hret, create_kml_spec.
  destruct (forallb xml_compatible _); reflexivity.
Qed.

Lemma filter_step_discarded (st : FilterState) (k : Z) (c : list GeoRecord) :
  retained c = false ->
  filter_step xml_compatible folder_name total st (k, c)
  = (Returned tt,
     {| valid_cluster_count := valid_cluster_count st;
        total_discarded_points := total_discarded_points st + length c;
        generated := generated st |}).
Proof. intros Hret. unfold filter_step. cbn [snd]. now rewrite Hret. Qed.

(** The loop when lxml takes every text: it returns, and every cluster kept
    has its document. *)
Lemma filter_step_run (clusters : Clusters) (st : FilterState) :
  accepted_from xml_compatible folder_name total (S (valid_cluster_count st))
                (List.filter retained (map snd clusters)) = true ->
  exists st' : FilterState,
    for_items (filter_step xml_compatible folder_name total) clusters st
    = (Returned tt, st')
    /\ map group_members (generated st')
       = map group_members (generated st) ++ List.filter retained (map snd clusters)
    /\ map group_index (generated st')
       = map group_index (generated st)
         ++ seq (S (valid_cluster_count st))
                (length (List.filter retained (map snd clusters)))
    /\ valid_cluster_count st'
       = valid_cluster_count st + length (List.filter retained (map snd clusters))
    /\ total_discarded_points st'
       = total_discarded_points st
         + list_sum (map length (List.filter discarded (map snd clusters)))
    /\ (Forall (fun g => title_number (doc_title (group_document g)) = group_index g
                         /\ title_total (doc_title (group_document g)) = total
                         /\ doc_placemarks (group_document g)
                            = map placemark_of (group_members g))
               (generated st) ->
        Forall (fun g => title_number (doc_title (group_document g)) = group_index g
                         /\ title_total (doc_title (group_document g)) = total
                         /\ doc_placemarks (group_document g)
                            = map placemark_of (group_members g))
               (generated st')).
Proof.
  revert st. induction clusters as [|[k c] clusters IH]; intros st Hacc.
  - exists st. cbn. rewrite !app_nil_r, !Nat.add_0_r. repeat split; auto.
  - rewrite for_items_cons. cbn [map snd List.filter] in Hacc |- *.
    unfold discarded at 1. destruct (retained c) eqn:Hret; cbn [negb].
    + cbn [accepted_from] in Hacc. apply andb_prop in Hacc as [Htexts Hrest].
      rewrite (filter_step_retained st k c Hret), Htexts.
      match goal with
      | |- context [for_items _ clusters ?s] =>
          destruct (IH s Hrest) as (st' & Hrun & Hm & Hi & Hv & Hd & Hf)
      end.
      cbn [generated valid_cluster_count total_discarded_points] in *.
      exists st'. split; [exact Hrun|].
      rewrite Hm, Hi, Hv, Hd, !map_app.
      cbn [map group_members group_index length seq].
      rewrite <- !app_assoc. cbn [app].
      repeat split; try reflexivity; try lia.
      intros Hall. apply Hf. apply Forall_app. split; [exact Hall|].
      constructor; [|constructor]. cbn. auto.
    + rewrite (filter_step_discarded st k c Hret).
      match goal with
      | |- context [for_items _ clusters ?s] =>
          destruct (IH s Hacc) as (st' & Hrun & Hm & Hi & Hv & Hd & Hf)
      end.
      cbn [generated valid_cluster_count total_discarded_points] in *.
      exists st'. split; [exact Hrun|].
      rewrite Hm, Hi, Hv, Hd.
      repeat split; try reflexivity; try exact Hf.
      change (list_sum (map length (c :: ?l))) with (length c + list_sum (map length l)).
      lia.
Qed.

(** The loop when lxml refuses a text: it raises at the first cluster kept
    whose document holds one, and the documents of the clusters kept before
    it are written. *)
Lemma filter_step_raised (clusters : Clusters) (st : FilterState) :
  accepted_from xml_compatible folder_name total (S (valid_cluster_count st))
                (List.filter retained (map snd clusters)) = false ->
  exists (st' : FilterState) (before : list (list GeoRecord)) (c : list GeoRecord)
         (after : list (list GeoRecord)),
    for_items (filter_step xml_compatible folder_name total) clusters st
    = (Raised ValueError, st')
    /\ List.filter retained (map snd clusters) = before ++ c :: after
    /\ accepted_from xml_compatible folder_name total (S (valid_cluster_count st))
                     before = true
    /\ forallb xml_compatible
               (document_texts c (S (valid_cluster_count st) + length before) total
                               folder_name) = false
    /\ map group_members (generated st') = map group_members (generated st) ++ before
    /\ map group_index (generated st')
       = map group_index (generated st)
         ++ seq (S (valid_cluster_count st)) (length before).
Proof.
  revert st. induction clusters as [|[k c] clusters IH]; intros st Hacc.
  - discriminate Hacc.
  - rewrite for_items_cons. cbn [map snd List.filter] in Hacc |- *.
    destruct (retained c) eqn:Hret.
    + cbn [accepted_from] in Hacc.
      rewrite (filter_step_retained st k c Hret).
      destruct (forallb xml_compatible
                  (document_texts c (S (valid_cluster_count st)) total folder_name))
        eqn:Htexts.
      * cbn [andb] in Hacc.
        match goal with
        | |- context [for_items _ clusters ?s] =>
            destruct (IH s Hacc) as (st' & before & c' & after & Hrun & Hsplit
                                     & Hbefore & Hrefused & Hm & Hi)
        end.
        cbn [generated valid_cluster_count total_discarded_points] in *.
        exists st', (c :: before), c', after.
        split; [exact Hrun|]. split; [now rewrite Hsplit|].
        split; [cbn [accepted_from]; now rewrite Htexts, Hbefore|].
        split; [cbn [length]; now rewrite Nat.add_succ_r|].
        rewrite Hm, Hi, !map_app. cbn [map group_members group_index length seq].
        rewrite <- !app_assoc. cbn [app]. split; reflexivity.
      * eexists _, [], c, _.
        cbn [generated valid_cluster_count total_discarded_points].
        split; [reflexivity|]. split; [reflexivity|]. split; [reflexivity|].
        cbn [length seq]. rewrite Nat.add_0_r, !app_nil_r. auto.
    + rewrite (filter_step_discarded st k c Hret).
      match goal with
      | |- context [for_items _ clusters ?s] =>
          destruct (IH s Hacc) as (st' & before & c' & after & Hrun & Hsplit
                                   & Hbefore & Hrefused & Hm & Hi)
      end.
      cbn [generated valid_cluster_count total_discarded_points] in *.
      exists st', before, c', after. auto 10.
Qed.
End FilterFacts.

Lemma filter_partition_length {A : Type} (f : A -> bool) (l : list A) :
  length (List.filter f l) + length (List.filter (fun x => negb (f x)) l) = length l.
Proof.
  induction l as [|x l IH]; [reflexivity|].
  cbn. destruct (f x); cbn; lia.
Qed.

(** C3, as amended.  The documents are built inside the loop of the
    filter.  When lxml takes the texts of the document of every cluster
    with more than 3 members, the loop runs to its end: going through the
    clusters in the order of the mapping, it keeps exactly the clusters with
    more than 3 members (4 are kept, 3 are not), in that order; the groups
    kept are numbered 1, 2, ..., K, and each document carries its number and
    K; the number of clusters dropped and the number of records in them are
    both reported. *)
Theorem filter_clusters_retained (xml_compatible : string -> bool)
        (folder_name : string) (clusters : Clusters) :
  writable xml_compatible folder_name clusters = true ->
  exists st : FilterState,
    filter_clusters xml_compatible folder_name clusters = (Returned tt, st)
    /\ let K := valid_cluster_count st in
       (forall c : list GeoRecord, retained c = true <-> 3 < length c)
       /\ map group_members (generated st) = List.filter retained (map snd clusters)
       /\ map group_index (generated st) = seq 1 K
       /\ K = length (generated st)
       /\ Forall (fun g => title_number (doc_title (group_document g)) = group_index g
                           /\ title_total (doc_title (group_document g)) = K
                           /\ doc_placemarks (group_document g)
                              = map placemark_of (group_members g))
                 (generated st)
       /\ discarded_clusters xml_compatible folder_name clusters
          = Some (length (List.filter discarded (map snd clusters)))
       /\ discarded_points xml_compatible folder_name clusters
          = Some (list_sum (map length (List.filter discarded (map snd clusters)))).
Proof.
  intros Hw.
  destruct (filter_step_run xml_compatible folder_name (total_clusters_of clusters)
                            clusters (mkFilterState 0 0 []) Hw)
    as (st & Hrun & Hm & Hi & Hv & Hd & Hf).
  cbn [generated valid_cluster_count total_discarded_points map app Nat.add] in *.
  fold (filter_clusters xml_compatible folder_name clusters) in Hrun.
  exists st. split; [exact Hrun|]. set (K := valid_cluster_count st) in *.
  assert (HK : K = total_clusters_of clusters) by exact Hv.
  split; [|split; [|split; [|split; [|split; [|split]]]]].
  - intros c. unfold retained. apply Nat.ltb_lt.
  - exact Hm.
  - rewrite Hi. subst K. rewrite Hv. reflexivity.
  - rewrite <- (length_map group_members), Hm. exact Hv.
  - rewrite HK. apply Hf. constructor.
  - unfold discarded_clusters. rewrite Hrun. f_equal. fold K. rewrite HK.
    unfold total_clusters_of, discarded.
    pose proof (filter_partition_length retained (map snd clusters)) as Hp.
    rewrite length_map in Hp. lia.
  - unfold discarded_points. rewrite Hrun. f_equal. exact Hd.
Qed.

Lemma filter_clusters_retained_witness :
  exists st : FilterState,
    filter_clusters Xml.compatible "trip"
      [(0%Z, replicate 3 (mkGeoRecord "IMG_1.jpg" 0 0 None));
       (1%Z, replicate 4 (mkGeoRecord "IMG_2.jpg" 5 5 (Some "2024:01:02 03:04:05")))]
    = (Returned tt, st)
    /\ map group_index (generated st) = [1]
    /\ map (fun g => length (group_members g)) (generated st) = [4]
    /\ discarded_clusters Xml.compatible "trip"
         [(0%Z, replicate 3 (mkGeoRecord "IMG_1.jpg" 0 0 None));
          (1%Z, replicate 4 (mkGeoRecord "IMG_2.jpg" 5 5 (Some "2024:01:02 03:04:05")))]
       = Some 1
    /\ discarded_points Xml.compatible "trip"
         [(0%Z, replicate 3 (mkGeoRecord "IMG_1.jpg" 0 0 None));
          (1%Z, replicate 4 (mkGeoRecord "IMG_2.jpg" 5 5 (Some "2024:01:02 03:04:05")))]
       = Some 3.
Proof.
  destruct (filter_clusters_retained Xml.compatible "trip"
              [(0%Z, replicate 3 (mkGeoRecord "IMG_1.jpg" 0 0 None));
               (1%Z, replicate 4 (mkGeoRecord "IMG_2.jpg" 5 5
                                              (Some "2024:01:02 03:04:05")))])
    as (st & Hrun & _ & Hm & Hi & HK & _ & Hdc & Hdp).
  - vm_compute. reflexivity.
  - exists st. split; [exact Hrun|].
    assert (Hone : valid_cluster_count st = 1).
    { rewrite HK, <- (length_map group_members), Hm. reflexivity. }
    rewrite Hone in Hi. split; [exact Hi|]. split.
    + rewrite <- (map_map group_members length), Hm. reflexivity.
    + split; [exact Hdc | exact Hdp].
Defined.

(** C3, as stated, fails for a mapping in which a cluster that is kept
    holds a photograph whose name lxml refuses.  All three clusters have 4
    members; the document of the first is written, [create_kml] raises for
    the second, nothing catches the exception, the third cluster is not
    reached and neither count is reported. *)
Lemma filter_clusters_refused_name :
  map (fun item => length (snd item)) clusters_with_a_refused_name = [4; 4; 4]
  /\ List.filter retained (map snd clusters_with_a_refused_name)
     = map snd clusters_with_a_refused_name
  /\ fst (filter_clusters Xml.compatible "trip" clusters_with_a_refused_name)
     = Raised ValueError
  /\ map group_index
         (generated (snd (filter_clusters Xml.compatible "trip"
                                          clusters_with_a_refused_name)))
     = [1]
  /\ map group_members
         (generated (snd (filter_clusters Xml.compatible "trip"
                                          clusters_with_a_refused_name)))
     <> List.filter retained (map snd clusters_with_a_refused_name)
  /\ discarded_clusters Xml.compatible "trip" clusters_with_a_refused_name = None
  /\ discarded_points Xml.compatible "trip" clusters_with_a_refused_name = None.
Proof. repeat split; vm_compute; congruence. Qed.

(** ** The track pass *)

Lemma extended_nil (s : TrackState) : extended s [] [] = s.
Proof. destruct s as [tracks lines]. unfold extended. cbn. now rewrite !app_nil_r. Qed.

Lemma extended_extended (s : TrackState) (t1 t2 : list TrackPlacemark)
      (o1 o2 : list Diagnostic) :
  extended (extended s t1 o1) t2 o2 = extended s (t1 ++ t2) (o1 ++ o2).
Proof. unfold extended. cbn. now rewrite !app_assoc. Qed.

Lemma alter_last {A : Type} (f : A -> A) (l : list A) (x : A) :
  alter f (Nat.pred (length (l ++ [x]))) (l ++ [x]) = l ++ [f x].
Proof.
  rewrite length_app. cbn [length]. rewrite Nat.add_1_r. cbn [Nat.pred].
  rewrite alter_app_r_alt by lia. now rewrite Nat.sub_diag.
Qed.

Section TrackFacts.
Variable py_float : string -> option float.

Lemma convert_placemark_outcome (placemark : KmlPlacemark) (s : TrackState) :
  convert_placemark py_float placemark s
  = match outcome py_float placemark with
    | Skipped => (Returned tt, s)
    | Converted entry => (Returned tt, extended s [entry] [])
    | FailedBefore e => (Raised e, s)
    | FailedAfter stub => (Raised ValueError, extended s [stub] [])
    end.
Proof.
  unfold convert_placemark, outcome.
  destruct (pm_point placemark) as [[[t|]|]|]; try reflexivity.
  unfold bind at 1. cbn [ret].
  destruct (PyStr.split "," (PyStr.strip t)) as [|lon [|lat fields]];
    try reflexivity.
  unfold bind at 1. cbn [unpack_lon_lat ret].
  unfold bind at 1, sub_element at 1. unfold float_of.
  destruct (py_float lon) as [x|]; unfold bind at 1; cbn [ret raise].
  - destruct (py_float lat) as [y|]; unfold bind at 1; cbn [ret raise].
    + unfold set_coordinates_text, extended, synthesize.
      cbn [folder_tracks stdout]. rewrite alter_last, app_nil_r. reflexivity.
    + unfold extended. cbn [folder_tracks stdout]. now rewrite app_nil_r.
  - destruct (py_float lat); unfold extended; cbn [folder_tracks stdout];
      now rewrite app_nil_r.
Qed.

Lemma for_each_walk (placemarks : list KmlPlacemark) (s : TrackState) :
  for_each placemarks (convert_placemark py_float) s
  = (match snd (walk py_float placemarks) with
     | Some e => Raised e
     | None => Returned tt
     end,
     extended s (fst (walk py_float placemarks)) []).
Proof.
  revert s. induction placemarks as [|placemark rest IH]; intros s.
  - cbn. now rewrite extended_nil.
  - cbn [for_each walk]. unfold bind at 1. rewrite convert_placemark_outcome.
    unfold exn_of, leftover_of, entries_of.
    destruct (outcome py_float placemark) as [|entry|e|stub]; cbn [fst snd app].
    + rewrite IH. reflexivity.
    + rewrite IH, extended_extended. reflexivity.
    + now rewrite extended_nil.
    + reflexivity.
Qed.

Lemma process_kml_file_summary (file_path : string) (file : KmlFile) (s : TrackState) :
  process_kml_file py_float file_path file s
  = (Returned tt,
     extended s (kml_tracks py_float file) (kml_stdout py_float file_path file)).
Proof.
  unfold process_kml_file, try_except, kml_tracks, kml_stdout.
  destruct file as [placemarks|].
  - unfold bind at 1. cbn [parse ret]. rewrite for_each_walk.
    destruct (snd (walk py_float placemarks)) as [e|].
    + unfold print. cbn [folder_tracks stdout extended]. unfold extended.
      cbn [folder_tracks stdout]. now rewrite app_nil_r.
    + reflexivity.
  - cbn. unfold extended. now rewrite app_nil_r.
Qed.

Lemma process_xmp_file_summary (file_path base_name : string) (file : XmpFile)
      (s : TrackState) :
  process_xmp_file py_float file_path base_name file s
  = (Returned tt,
     extended s (xmp_tracks py_float base_name file)
              [xmp_stdout py_float file_path file]).
Proof.
  unfold process_xmp_file, try_except, xmp_tracks, xmp_stdout, xmp_coordinates,
    xmp_unresolved, xmp_non_numeric.
  destruct file as [document|].
  - unfold bind at 1. cbn [parse ret].
    destruct (first_text (lat_elements document)) as [lat|],
             (first_text (lon_elements document)) as [lon|];
      try (cbn; unfold extended; now rewrite app_nil_r).
    destruct (py_float lat) as [x|]; [destruct (py_float lon) as [y|]|];
      try (cbn; unfold extended; now rewrite app_nil_r).
    unfold bind, sub_element, set_coordinates_text, print, extended.
    cbn [folder_tracks stdout]. rewrite alter_last. reflexivity.
  - cbn. unfold extended. now rewrite app_nil_r.
Qed.

Lemma for_each_kml (kml_files : list (string * KmlFile)) (s : TrackState) :
  exists lines,
    for_each kml_files (fun f => process_kml_file py_float (fst f) (snd f)) s
    = (Returned tt, extended s (kml_all py_float kml_files) lines).
Proof.
  revert s. induction kml_files as [|f rest IH]; intros s.
  - exists []. cbn. now rewrite extended_nil.
  - cbn [for_each]. unfold bind at 1. rewrite process_kml_file_summary.
    destruct (IH (extended s (kml_tracks py_float (snd f))
                           (kml_stdout py_float (fst f) (snd f)))) as [lines ->].
    eexists. rewrite extended_extended. reflexivity.
Qed.

Lemma for_each_xmp (xmp_files : list (string * string * XmpFile)) (s : TrackState) :
  exists lines,
    for_each xmp_files
             (fun f => process_xmp_file py_float (fst (fst f)) (snd (fst f)) (snd f)) s
    = (Returned tt, extended s (xmp_all py_float xmp_files) lines).
Proof.
  revert s. induction xmp_files as [|f rest IH]; intros s.
  - exists []. cbn. now rewrite extended_nil.
  - cbn [for_each]. unfold bind at 1. rewrite process_xmp_file_summary.
    destruct (IH (extended s (xmp_tracks py_float (snd (fst f)) (snd f))
                           [xmp_stdout py_float (fst (fst f)) (snd f)]))
      as [lines ->].
    eexists. rewrite extended_extended. reflexivity.
Qed.

Lemma process_tracks_summary (kml_files : list (string * KmlFile))
      (xmp_files : list (string * string * XmpFile)) (s : TrackState) :
  exists lines,
    process_tracks py_float kml_files xmp_files s
    = (Returned tt, extended s (kml_all py_float kml_files ++ xmp_all py_float xmp_files) lines).
Proof.
  assert (Hloops :
            exists lines,
              (for_each kml_files (fun f => process_kml_file py_float (fst f) (snd f)) ;;;
               for_each xmp_files
                 (fun f => process_xmp_file py_float (fst (fst f)) (snd (fst f)) (snd f))) s
              = (Returned tt, extended s (kml_all py_float kml_files ++ xmp_all py_float xmp_files) lines)).
  { unfold bind. destruct (for_each_kml kml_files s) as [l1 ->].
    destruct (for_each_xmp xmp_files (extended s (kml_all py_float kml_files) l1)) as [l2 ->].
    eexists. rewrite extended_extended. reflexivity. }
  unfold process_tracks.
  destruct kml_files as [|k kml_files]; [destruct xmp_files as [|x xmp_files]|];
    try exact Hloops.
  exists [NoInputFiles]. unfold print, extended. cbn. now rewrite app_nil_r.
Qed.

Lemma offset_applied_stub (name description : option (option string)) :
  offset_applied py_float (track_stub name description).
Proof. exact I. Qed.

Lemma offset_applied_outcome (placemark : KmlPlacemark) :
  Forall (offset_applied py_float)
         (entries_of py_float placemark ++ leftover_of py_float placemark).
Proof.
  unfold entries_of, leftover_of, outcome.
  destruct (pm_point placemark) as [[[t|]|]|]; try constructor.
  destruct (PyStr.split "," (PyStr.strip t)) as [|lon [|lat fields]];
    try constructor.
  destruct (py_float lon) as [x|] eqn:Hx; [destruct (py_float lat) as [y|] eqn:Hy|].
  - constructor; [|constructor]. exists x, y. cbn. auto.
  - constructor; [exact I | constructor].
  - destruct (py_float lat); (constructor; [exact I | constructor]).
Qed.

Lemma offset_applied_walk (placemarks : list KmlPlacemark) :
  Forall (offset_applied py_float) (fst (walk py_float placemarks)).
Proof.
  induction placemarks as [|placemark rest IH]; [constructor|].
  cbn [walk]. pose proof (offset_applied_outcome placemark) as Hout.
  apply Forall_app in Hout as [Hentries Hleft].
  destruct (exn_of py_float placemark); cbn [fst].
  - exact Hleft.
  - apply Forall_app. split; assumption.
Qed.

Lemma offset_applied_xmp (base_name : string) (file : XmpFile) :
  Forall (offset_applied py_float) (xmp_tracks py_float base_name file).
Proof.
  unfold xmp_tracks. destruct file as [document|]; [|constructor].
  destruct (xmp_coordinates py_float document) as [[x y]|]; [|constructor].
  constructor; [|constructor]. exists y, x. cbn. auto.
Qed.
End TrackFacts.

(** C4, as amended.  Every track of a run, whether it comes from a point
    placemark or from a geotag document, has as second vertex the binary64
    sums [origin_lon + 0.000001] and [origin_lat + 0.000001] of the numbers
    its first vertex stands for (a stub left by a failed conversion has no
    vertices at all). *)
Theorem track_offset_applied (py_float : string -> option float)
        (kml_files : list (string * KmlFile))
        (xmp_files : list (string * string * XmpFile)) :
  Forall (offset_applied py_float)
         (folder_tracks (snd (process_tracks py_float kml_files xmp_files empty_tracks))).
Proof.
  destruct (process_tracks_summary py_float kml_files xmp_files empty_tracks)
    as [lines ->].
  cbn [snd extended folder_tracks empty_tracks app].
  apply Forall_app. split.
  - unfold kml_all. apply Forall_flat_map, Forall_forall. intros [path file] _.
    cbn [snd]. unfold kml_tracks. destruct file as [placemarks|]; [|constructor].
    apply offset_applied_walk.
  - unfold xmp_all. apply Forall_flat_map, Forall_forall. intros [[path base] file] _.
    apply offset_applied_xmp.
Qed.

(** C4, as stated, fails on the scenario of the specification itself: the
    track made from the placemark at (10.0, 20.0) has second vertex
    (10.000001, 20.000001), and neither [10.000001 - 10.0] nor
    [20.000001 - 20.0] is the float [0.000001]: the sums were rounded to
    multiples of [2^-49] and [2^-48], which [0.000001] is not. *)
Lemma track_offset_difference_inexact :
  exists c : LineCoords,
    map tp_coordinates scenario_tracks = [Some c]
    /\ value_of Decimal.float_of_decimal (origin_lon c) = Some 10%float
    /\ value_of Decimal.float_of_decimal (origin_lat c) = Some 20%float
    /\ minor_offset_lon c = 0x1.40000218def41p+3%float
    /\ minor_offset_lat c = 0x1.4000010c6f7a1p+4%float
    /\ (minor_offset_lon c - 10)%float = 0x1.0c6f7a08p-20%float
    /\ (minor_offset_lat c - 20)%float = 0x1.0c6f7a1p-20%float
    /\ (minor_offset_lon c - 10 =? offset)%float = false
    /\ (minor_offset_lat c - 20 =? offset)%float = false
    /\ (minor_offset_lon c - 10)%float <> offset
    /\ (minor_offset_lat c - 20)%float <> offset.
Proof.
  eexists. split; [vm_compute; reflexivity|].
  cbn [origin_lon origin_lat minor_offset_lon minor_offset_lat].
  repeat split; try (vm_compute; reflexivity); vm_compute; discriminate.
Qed.

(** C7.  A geotag document in which no latitude or longitude alias resolves
    to a text, or in which a resolved text is not a number, is skipped: the
    call returns normally, appends no track, and prints one diagnostic; and
    in a run the documents before and after it contribute exactly what they
    contribute without it, the run itself returning normally. *)
Theorem xmp_document_skipped (py_float : string -> option float)
        (file_path base_name : string) (document : XmpDocument) :
  xmp_unresolved document = true \/ xmp_non_numeric py_float document = true ->
  (forall s : TrackState,
      exists d : Diagnostic,
        process_xmp_file py_float file_path base_name (Some document) s
        = (Returned tt, {| folder_tracks := folder_tracks s; stdout := stdout s ++ [d] |})
        /\ (d = XmpMissingCoordinates file_path \/ d = XmpInvalidCoordinates file_path))
  /\ (forall (kml_files : list (string * KmlFile))
             (before after : list (string * string * XmpFile)) (s : TrackState),
        exists lines : list Diagnostic,
          process_tracks py_float kml_files
                         (before ++ (file_path, base_name, Some document) :: after) s
          = (Returned tt,
             extended s (kml_all py_float kml_files
                         ++ xmp_all py_float before ++ xmp_all py_float after)
                      lines)).
Proof.
  intros Hskip.
  assert (Hnone : xmp_coordinates py_float document = None).
  { unfold xmp_coordinates, xmp_unresolved, xmp_non_numeric in *.
    destruct (first_text (lat_elements document)) as [lat|],
             (first_text (lon_elements document)) as [lon|];
      try reflexivity.
    destruct (py_float lat), (py_float lon); try reflexivity.
    destruct Hskip; discriminate. }
  split.
  - intros s. rewrite process_xmp_file_summary.
    exists (xmp_stdout py_float file_path (Some document)). split.
    + unfold xmp_tracks. rewrite Hnone. unfold extended. now rewrite app_nil_r.
    + unfold xmp_stdout.
      destruct (xmp_unresolved document) eqn:Hu; [now left|].
      destruct Hskip as [Hskip|Hskip]; [discriminate|]. rewrite Hskip. now right.
  - intros kml_files before after s.
    destruct (process_tracks_summary py_float kml_files
                (before ++ (file_path, base_name, Some document) :: after) s)
      as [lines ->].
    exists lines. do 3 f_equal. unfold xmp_all. rewrite flat_map_app.
    cbn [flat_map fst snd xmp_tracks]. rewrite Hnone. reflexivity.
Qed.

Lemma xmp_document_skipped_witness :
  (exists d : Diagnostic,
      process_xmp_file Decimal.float_of_decimal "a.xmp" "a.xmp"
                       (Some xmp_with_text_latitude) empty_tracks
      = (Returned tt, {| folder_tracks := []; stdout := [d] |})
      /\ (d = XmpMissingCoordinates "a.xmp" \/ d = XmpInvalidCoordinates "a.xmp"))
  /\ xmp_non_numeric Decimal.float_of_decimal xmp_with_text_latitude = true.
Proof.
  split; [|reflexivity].
  exact (proj1 (xmp_document_skipped Decimal.float_of_decimal "a.xmp" "a.xmp"
                                     xmp_with_text_latitude
                                     (or_intror eq_refl)) empty_tracks).
Defined.

Section WalkFacts.
Variable py_float : string -> option float.

Lemma failed_exn (placemark : KmlPlacemark) :
  failed py_float placemark = true ->
  exists e, exn_of py_float placemark = Some e.
Proof.
  unfold failed, exn_of. destruct (outcome py_float placemark); try discriminate; eauto.
Qed.

Lemma not_failed_exn (placemark : KmlPlacemark) :
  failed py_float placemark = false -> exn_of py_float placemark = None.
Proof.
  unfold failed, exn_of. destruct (outcome py_float placemark); try discriminate; auto.
Qed.

Lemma walk_until_failure (before : list KmlPlacemark) (bad : KmlPlacemark)
      (rest : list KmlPlacemark) :
  Forall (fun placemark => failed py_float placemark = false) before ->
  walk py_float (before ++ bad :: rest)
  = match exn_of py_float bad with
    | Some e => (flat_map (entries_of py_float) before ++ leftover_of py_float bad,
                 Some e)
    | None => (flat_map (entries_of py_float) before
               ++ entries_of py_float bad ++ fst (walk py_float rest),
               snd (walk py_float rest))
    end.
Proof.
  induction 1 as [|placemark before Hok _ IH]; cbn [app walk flat_map].
  - destruct (exn_of py_float bad); reflexivity.
  - rewrite (not_failed_exn _ Hok), IH.
    destruct (exn_of py_float bad); cbn [fst snd]; now rewrite app_assoc.
Qed.
End WalkFacts.

(** C10.  Converting a point document is not atomic.  When the placemarks
    [before] convert (or have no point) and the next one, [bad], fails, the
    call still returns normally with one diagnostic, the tracks made from
    [before] stay in the folder, followed by the textless stub of [bad] when
    it failed after its element was created, and the placemarks after [bad]
    are not looked at: the result does not depend on them. *)
Theorem kml_file_not_atomic (py_float : string -> option float) (file_path : string)
        (before : list KmlPlacemark) (bad : KmlPlacemark) (rest : list KmlPlacemark)
        (s : TrackState) :
  Forall (fun placemark => failed py_float placemark = false) before ->
  failed py_float bad = true ->
  exists e : Exn,
    exn_of py_float bad = Some e
    /\ process_kml_file py_float file_path (Some (before ++ bad :: rest)) s
       = (Returned tt,
          extended s (flat_map (entries_of py_float) before ++ leftover_of py_float bad)
                   [KmlFileError file_path e]).
Proof.
  intros Hbefore Hbad. destruct (failed_exn py_float bad Hbad) as [e He].
  exists e. split; [exact He|].
  rewrite process_kml_file_summary. unfold kml_tracks, kml_stdout.
  rewrite (walk_until_failure py_float before bad rest Hbefore), He. reflexivity.
Qed.

Lemma kml_file_not_atomic_witness :
  exists e : Exn,
    exn_of Decimal.float_of_decimal non_numeric_placemark = Some e
    /\ process_kml_file Decimal.float_of_decimal "group_1.kml"
         (Some ([good_placemark] ++ non_numeric_placemark :: [good_placemark]))
         empty_tracks
       = (Returned tt,
          extended empty_tracks
                   (flat_map (entries_of Decimal.float_of_decimal) [good_placemark]
                    ++ leftover_of Decimal.float_of_decimal non_numeric_placemark)
                   [KmlFileError "group_1.kml" e]).
Proof.
  apply (kml_file_not_atomic Decimal.float_of_decimal "group_1.kml"
                             [good_placemark] non_numeric_placemark [good_placemark]
                             empty_tracks).
  - repeat constructor.
  - reflexivity.
Defined.

(** ** The distance metric *)

Section MetricFacts.
Import Metric.
Local Open Scope R_scope.

Lemma asin_nonneg (x : R) : 0 <= x -> 0 <= asin x.
Proof.
  intros Hx. pose proof PI_RGT_0 as Hpi. unfold asin.
  destruct (Rle_dec x (-1)) as [Hlow|_]; [lra|].
  destruct (Rle_dec 1 x) as [_|Hhigh]; [lra|].
  destruct (Rle_lt_or_eq_dec 0 x Hx) as [Hpos|<-].
  - left. rewrite <- atan_0. apply atan_increasing.
    apply Rdiv_lt_0_compat; [exact Hpos|].
    apply sqrt_lt_R0. unfold Rsqr. nra.
  - unfold Rdiv. rewrite Rmult_0_l, atan_0. lra.
Qed.

Lemma haversine_sym (lat1 lon1 lat2 lon2 : R) :
  haversine lat1 lon1 lat2 lon2 = haversine lat2 lon2 lat1 lon1.
Proof.
  unfold haversine.
  replace (/ 2 * (lat2 - lat1)) with (- (/ 2 * (lat1 - lat2))) by lra.
  replace (/ 2 * (lon2 - lon1)) with (- (/ 2 * (lon1 - lon2))) by lra.
  rewrite !sin_neg, <- !Rsqr_neg, (Rmult_comm (cos lat2)). reflexivity.
Qed.

Lemma haversine_diag (lat0 lon0 : R) : haversine lat0 lon0 lat0 lon0 = 0.
Proof.
  unfold haversine. rewrite !Rminus_diag, Rmult_0_r, sin_0, Rsqr_0.
  rewrite Rmult_0_r, Rplus_0_r, sqrt_0, asin_0. lra.
Qed.

Lemma haversine_nonneg (lat1 lon1 lat2 lon2 : R) :
  0 <= haversine lat1 lon1 lat2 lon2.
Proof.
  unfold haversine. pose proof (asin_nonneg _ (sqrt_pos
    ((sin (/ 2 * (lat1 - lat2)))² + cos lat1 * cos lat2 * (sin (/ 2 * (lon1 - lon2)))²))).
  lra.
Qed.

(** Comparing the unit-sphere distance with [eps] is comparing the
    distance in kilometres with [max_distance]. *)
Lemma directly_connected_km (max_distance : R) (a b : GeoPoint) :
  directly_connected max_distance a b <-> distanceKm a b <= max_distance.
Proof.
  unfold directly_connected, distanceKm, eps, earth_radius_km.
  set (d := haversine _ _ _ _). split; intros H.
  - apply (Rmult_le_compat_l 6371) in H; [|lra].
    replace (6371 * (max_distance / 6371)) with max_distance in H by (field; lra).
    exact H.
  - apply (Rmult_le_reg_l 6371); [lra|].
    replace (6371 * (max_distance / 6371)) with max_distance by (field; lra).
    exact H.
Qed.

(** C8.  The great-circle distance is symmetric, is zero from a point to
    itself, and is never negative (over the real numbers). *)
Theorem distanceKm_symmetric_zero_nonneg (a b : GeoPoint) :
  distanceKm a b = distanceKm b a
  /\ distanceKm a a = 0
  /\ 0 <= distanceKm a b.
Proof.
  unfold distanceKm, earth_radius_km. split; [|split].
  - now rewrite haversine_sym.
  - rewrite haversine_diag. lra.
  - pose proof (haversine_nonneg (radians (latitude a)) (radians (longitude a))
                                 (radians (latitude b)) (radians (longitude b))).
    nra.
Qed.
End MetricFacts.

(** ** Grouping by label *)

Section GroupFacts.
Context {A : Type}.
Implicit Types (clusters : list (Z * list A)) (pairs : list (Z * A)).

Lemma setdefault_append_members (label k : Z) (x : A) clusters :
  members label (setdefault_append k x clusters)
  = if (label =? k)%Z then members label clusters ++ [x] else members label clusters.
Proof.
  induction clusters as [|[k' ms] rest IH]; cbn [setdefault_append members].
  - destruct (label =? k)%Z; reflexivity.
  - destruct (k =? k')%Z eqn:Hk; cbn [members].
    + apply Z.eqb_eq in Hk. subst k'.
      destruct (label =? k)%Z; reflexivity.
    + destruct (label =? k')%Z eqn:Hl; [|exact IH].
      apply Z.eqb_eq in Hl. subst k'.
      rewrite Z.eqb_sym, Hk. reflexivity.
Qed.

Lemma setdefault_append_keys (k : Z) (x : A) clusters (l : Z) :
  In l (map fst (setdefault_append k x clusters)) <-> In l (map fst clusters) \/ l = k.
Proof.
  induction clusters as [|[k' ms] rest IH]; cbn [setdefault_append map fst In].
  - intuition.
  - destruct (k =? k')%Z eqn:Hk; cbn [map fst In].
    + apply Z.eqb_eq in Hk. subst k'. intuition.
    + rewrite IH. intuition.
Qed.

Lemma setdefault_append_NoDup (k : Z) (x : A) clusters :
  List.NoDup (map fst clusters) -> List.NoDup (map fst (setdefault_append k x clusters)).
Proof.
  induction clusters as [|[k' ms] rest IH]; cbn [setdefault_append map fst]; intros Hnd.
  - constructor; [intros [] | constructor].
  - inversion Hnd as [|? ? Hnotin Hrest]; subst.
    destruct (k =? k')%Z eqn:Hk; cbn [map fst].
    + constructor; assumption.
    + constructor; [|auto]. rewrite setdefault_append_keys.
      intros [Hin | ->]; [contradiction|]. rewrite Z.eqb_refl in Hk. discriminate.
Qed.

Lemma setdefault_append_concat (k : Z) (x : A) clusters :
  Permutation (concat (map snd (setdefault_append k x clusters)))
              (concat (map snd clusters) ++ [x]).
Proof.
  induction clusters as [|[k' ms] rest IH]; cbn [setdefault_append map snd concat].
  - reflexivity.
  - destruct (k =? k')%Z; cbn [map snd concat].
    + rewrite <- !app_assoc. apply Permutation_app_head, Permutation_app_comm.
    + rewrite IH, app_assoc. reflexivity.
Qed.

Lemma setdefault_append_nonempty (k : Z) (x : A) clusters :
  Forall (fun c => snd c <> []) clusters ->
  Forall (fun c => snd c <> []) (setdefault_append k x clusters).
Proof.
  induction clusters as [|[k' ms] rest IH]; cbn [setdefault_append]; intros Hall.
  - constructor; [discriminate | constructor].
  - inversion Hall; subst. destruct (k =? k')%Z.
    + constructor; [|assumption]. cbn. destruct ms; discriminate.
    + constructor; auto.
Qed.

Lemma members_In (l : Z) (ms : list A) clusters :
  List.NoDup (map fst clusters) -> In (l, ms) clusters -> members l clusters = ms.
Proof.
  induction clusters as [|[k' ms'] rest IH]; cbn [map fst members In]; intros Hnd Hin.
  - contradiction.
  - inversion Hnd as [|? ? Hnotin Hrest]; subst. destruct Hin as [Heq|Hin].
    + injection Heq as Hk Hms. subst. now rewrite Z.eqb_refl.
    + destruct (l =? k')%Z eqn:Hl; [|auto].
      apply Z.eqb_eq in Hl. subst k'. exfalso. apply Hnotin.
      apply (in_map fst) in Hin. exact Hin.
Qed.

Lemma fold_setdefault pairs clusters :
  (forall l, members l (fold_left group_step pairs clusters)
             = members l clusters
               ++ map snd (List.filter (fun lp => (fst lp =? l)%Z) pairs))
  /\ (List.NoDup (map fst clusters) -> List.NoDup (map fst (fold_left group_step pairs clusters)))
  /\ Permutation (concat (map snd (fold_left group_step pairs clusters)))
                 (concat (map snd clusters) ++ map snd pairs)
  /\ (Forall (fun c => snd c <> []) clusters ->
      Forall (fun c => snd c <> []) (fold_left group_step pairs clusters))
  /\ (forall l, In l (map fst (fold_left group_step pairs clusters)) ->
                In l (map fst clusters) \/ In l (map fst pairs)).
Proof.
  revert clusters. induction pairs as [|[k x] pairs IH]; intros clusters.
  - cbn. repeat split; auto.
    + intros l. now rewrite app_nil_r.
    + now rewrite app_nil_r.
  - cbn [fold_left]. destruct (IH (group_step clusters (k, x))) as (Hm & Hnd & Hp & Hne & Hk).
    unfold group_step in *. cbn [fst snd] in *. repeat split.
    + intros l. rewrite Hm, setdefault_append_members. cbn [List.filter map fst snd].
      rewrite (Z.eqb_sym k l). destruct (l =? k)%Z; cbn [map snd].
      * now rewrite <- app_assoc.
      * reflexivity.
    + intros Hc. apply Hnd, setdefault_append_NoDup, Hc.
    + rewrite Hp, setdefault_append_concat. cbn [map snd].
      rewrite <- app_assoc. reflexivity.
    + intros Hc. apply Hne, setdefault_append_nonempty, Hc.
    + intros l Hl. apply Hk in Hl as [Hl|Hl].
      * apply setdefault_append_keys in Hl as [Hl | ->]; [now left|].
        right. cbn. now left.
      * right. cbn. now right.
Qed.

(** What [group_by_label] returns: distinct labels, each with the records
    that carry it, in input order. *)
Lemma group_by_label_spec (labels : list Z) (photos : list A) :
  length labels = length photos ->
  let clusters := group_by_label labels photos in
  List.NoDup (map fst clusters)
  /\ Permutation (concat (map snd clusters)) photos
  /\ (forall l ms, In (l, ms) clusters ->
                   ms = labelled l labels photos /\ ms <> [] /\ In l labels).
Proof.
  intros Hlen clusters.
  destruct (fold_setdefault (zip labels photos) []) as (Hm & Hnd & Hp & Hne & Hk).
  change (fold_left group_step (zip labels photos) []) with clusters in Hm, Hnd, Hp, Hne, Hk.
  assert (Hnodup : List.NoDup (map fst clusters)) by (apply Hnd; constructor).
  split; [exact Hnodup|]. split.
  - rewrite Hp. cbn [map concat app]. rewrite snd_zip by lia. reflexivity.
  - intros l ms Hin. split; [|split].
    + rewrite <- (members_In l ms clusters Hnodup Hin), Hm. reflexivity.
    + specialize (Hne (Forall_nil_2 _)). rewrite Forall_forall in Hne.
      apply (Hne (l, ms)). apply list_elem_of_In. exact Hin.
    + apply (in_map fst) in Hin. apply Hk in Hin as [[]|Hin].
      rewrite fst_zip in Hin by lia. exact Hin.
Qed.

Lemma labelled_sublist (l : Z) (labels : list Z) (photos : list A) :
  labelled l labels photos `sublist_of` photos.
Proof.
  unfold labelled. revert photos.
  induction labels as [|k labels IH]; intros photos.
  - apply sublist_nil_l.
  - destruct photos as [|p photos]; [apply sublist_nil_l|].
    cbn [zip_with List.filter fst]. destruct (k =? l)%Z; cbn [map snd].
    + apply sublist_skip, IH.
    + apply sublist_cons, IH.
Qed.

Lemma labelled_In (l : Z) (labels : list Z) (photos : list A) (a : A) :
  In a (labelled l labels photos)
  <-> exists i, labels !! i = Some l /\ photos !! i = Some a.
Proof.
  unfold labelled. revert photos.
  induction labels as [|k labels IH]; intros photos.
  - cbn. split; [intros [] | intros (i & Hi & _); destruct i; discriminate].
  - destruct photos as [|p photos].
    + cbn. split; [intros [] | intros (i & _ & Hi); destruct i; discriminate].
    + cbn [zip_with List.filter fst]. split.
      * intros Hin. destruct (k =? l)%Z eqn:Hk; cbn [map snd In] in Hin.
        -- destruct Hin as [<-|Hin].
           ++ exists 0%nat. apply Z.eqb_eq in Hk. subst. auto.
           ++ apply IH in Hin as (i & Hi & Ha). exists (S i). auto.
        -- apply IH in Hin as (i & Hi & Ha). exists (S i). auto.
      * intros ([|i] & Hi & Ha); cbn in Hi, Ha.
        -- injection Hi as Hk. injection Ha as Hp. subst. rewrite Z.eqb_refl. now left.
        -- assert (Hin : In a (map snd (List.filter (fun lp => (fst lp =? l)%Z)
                                                    (zip labels photos))))
             by (apply IH; eauto).
           destruct (k =? l)%Z; [now right | exact Hin].
Qed.
End GroupFacts.

(** ** The labelling *)

Section LabelFacts.
Variable within_eps : Coord -> Coord -> bool.
Variable X : list Coord.

Local Abbreviation adj := (DBSCAN.adj within_eps X).
Local Abbreviation neighborhoods := (DBSCAN.neighborhoods within_eps X).
Local Abbreviation is_core := (DBSCAN.is_core within_eps X).
Local Abbreviation label_point := (DBSCAN.label_point within_eps X).
Local Abbreviation expand := (DBSCAN.expand within_eps X).
Local Abbreviation visit := (DBSCAN.visit within_eps X).
Local Abbreviation noise := DBSCAN.noise.
Local Abbreviation unlabeled := DBSCAN.unlabeled.

Lemma unlabeled_true (L : list Z) (v : nat) :
  unlabeled L v = true <-> L !! v = Some noise.
Proof.
  unfold DBSCAN.unlabeled. destruct (L !! v) as [l|]; [|split; discriminate].
  rewrite Z.eqb_eq. split; [intros ->; reflexivity | congruence].
Qed.

Lemma unlabeled_false (L : list Z) (v : nat) :
  unlabeled L v = false -> v < length L -> exists l, L !! v = Some l /\ l <> noise.
Proof.
  unfold DBSCAN.unlabeled. intros Hu Hv.
  destruct (lookup_lt_is_Some_2 L v Hv) as [l Hl]. rewrite Hl in Hu.
  exists l. split; [exact Hl|]. now apply Z.eqb_neq.
Qed.

Lemma pending_le (L : list Z) : pending L <= length L.
Proof.
  unfold pending. induction L as [|l L IH]; cbn; [lia|].
  destruct (l =? noise)%Z; cbn; lia.
Qed.

Lemma pending_insert (L : list Z) (i : nat) (c : Z) :
  L !! i = Some noise -> c <> noise -> pending L = S (pending (<[i := c]> L)).
Proof.
  unfold pending. revert i. induction L as [|l L IH]; intros i Hi Hc.
  - destruct i; discriminate.
  - destruct i as [|i]; cbn in Hi.
    + injection Hi as Hl. subst l. cbn.
      apply Z.eqb_neq in Hc. rewrite Hc. reflexivity.
    + cbn. destruct (l =? noise)%Z; cbn; rewrite (IH i Hi Hc); reflexivity.
Qed.

Lemma pushed_length (L : list Z) (i : nat) :
  length (rev (List.filter (unlabeled L) (neighborhoods i))) <= length X.
Proof.
  rewrite length_rev. unfold DBSCAN.neighborhoods.
  etransitivity; [apply List.filter_length_le|].
  etransitivity; [apply List.filter_length_le|]. now rewrite length_seq.
Qed.

Lemma pushed_In (L : list Z) (i v : nat) :
  In v (rev (List.filter (unlabeled L) (neighborhoods i))) ->
  adj i v = true /\ L !! v = Some noise.
Proof.
  rewrite <- in_rev, filter_In. unfold DBSCAN.neighborhoods. rewrite filter_In.
  intros [[_ Hadj] Hu]. split; [exact Hadj | now apply unlabeled_true].
Qed.

(** *** One turn *)

Lemma label_point_length (c : Z) (i : nat) (stack : list nat) (L : list Z) :
  length (fst (label_point c i stack L)) = length L.
Proof.
  unfold DBSCAN.label_point. destruct (unlabeled L i); cbn [fst]; [|reflexivity].
  apply length_insert.
Qed.

Lemma label_point_keeps (c : Z) (i : nat) (stack : list nat) (L : list Z) (v : nat) (l : Z) :
  L !! v = Some l -> l <> noise -> fst (label_point c i stack L) !! v = Some l.
Proof.
  intros Hv Hl. unfold DBSCAN.label_point.
  destruct (unlabeled L i) eqn:Hu; cbn [fst]; [|exact Hv].
  apply unlabeled_true in Hu.
  rewrite list_lookup_insert_ne; [exact Hv|]. intros ->. congruence.
Qed.

Lemma label_point_new (c : Z) (i : nat) (stack : list nat) (L : list Z) (v : nat) (l : Z) :
  fst (label_point c i stack L) !! v = Some l ->
  L !! v = Some l \/ (L !! v = Some noise /\ l = c /\ v = i).
Proof.
  unfold DBSCAN.label_point. destruct (unlabeled L i) eqn:Hu; cbn [fst]; [|now left].
  apply unlabeled_true in Hu. intros Hv.
  destruct (decide (i = v)) as [->|Hne].
  - rewrite list_lookup_insert_eq in Hv by (eapply lookup_lt_Some; eassumption).
    injection Hv as <-. right. auto.
  - rewrite list_lookup_insert_ne in Hv by assumption. now left.
Qed.

Lemma label_point_labels (c : Z) (i : nat) (stack : list nat) (L : list Z) :
  c <> noise -> i < length L ->
  exists l, fst (label_point c i stack L) !! i = Some l /\ l <> noise.
Proof.
  intros Hc Hi. unfold DBSCAN.label_point.
  destruct (unlabeled L i) eqn:Hu; cbn [fst].
  - exists c. split; [|exact Hc]. now apply list_lookup_insert_eq.
  - now apply unlabeled_false.
Qed.

Lemma label_point_measure (c : Z) (i : nat) (stack : list nat) (L : list Z) :
  c <> noise ->
  S (length X) * pending (fst (label_point c i stack L))
  + length (snd (label_point c i stack L))
  <= S (length X) * pending L + length stack.
Proof.
  intros Hc. unfold DBSCAN.label_point.
  destruct (unlabeled L i) eqn:Hu; cbn [fst snd]; [|lia].
  apply unlabeled_true in Hu. rewrite (pending_insert L i c Hu Hc).
  rewrite Nat.mul_succ_r.
  destruct (is_core i); [|lia].
  rewrite length_app. pose proof (pushed_length (<[i := c]> L) i). lia.
Qed.

(** *** One expansion *)

Lemma expand_returns (c : Z) (fuel i : nat) (stack : list nat) (L : list Z) :
  c <> noise ->
  S (length X) * pending L + length stack < fuel ->
  exists L', expand c fuel i stack L = Some L'.
Proof.
  intros Hc. revert i stack L.
  induction fuel as [|fuel IH]; intros i stack L Hfuel; [lia|].
  cbn [DBSCAN.expand].
  pose proof (label_point_measure c i stack L Hc) as Hm.
  destruct (label_point c i stack L) as [L1 stack1]. cbn [fst snd] in Hm.
  destruct stack1 as [|j stack1]; [eauto|].
  apply IH. cbn [length] in Hm. lia.
Qed.

Lemma expand_facts (c : Z) (fuel i : nat) (stack : list nat) (L L' : list Z) :
  expand c fuel i stack L = Some L' ->
  length L' = length L
  /\ (forall v l, L !! v = Some l -> l <> noise -> L' !! v = Some l)
  /\ (forall v l, L' !! v = Some l -> L !! v = Some l \/ (L !! v = Some noise /\ l = c))
  /\ (c <> noise -> i < length L -> exists l, L' !! i = Some l /\ l <> noise).
Proof.
  revert i stack L.
  induction fuel as [|fuel IH]; intros i stack L Hrun; [discriminate|].
  cbn [DBSCAN.expand] in Hrun.
  pose proof (label_point_length c i stack L) as Hlen.
  pose proof (label_point_keeps c i stack L) as Hkeep.
  pose proof (label_point_new c i stack L) as Hnew.
  pose proof (label_point_labels c i stack L) as Hlab.
  destruct (label_point c i stack L) as [L1 stack1]. cbn [fst] in *.
  assert (Hrest : length L' = length L1
                  /\ (forall v l, L1 !! v = Some l -> l <> noise -> L' !! v = Some l)
                  /\ (forall v l, L' !! v = Some l ->
                                  L1 !! v = Some l \/ (L1 !! v = Some noise /\ l = c))).
  { destruct stack1 as [|j stack1].
    - injection Hrun as <-. repeat split; auto.
    - destruct (IH j stack1 L1 Hrun) as (H1 & H2 & H3 & _). auto. }
  destruct Hrest as (H1 & H2 & H3). repeat split.
  - congruence.
  - intros v l Hv Hl. apply H2; [|exact Hl]. now apply Hkeep.
  - intros v l Hv. apply H3 in Hv as [Hv|[Hv ->]].
    + apply Hnew in Hv as [Hv|(Hv & -> & _)]; auto.
    + apply Hnew in Hv as [Hv|(Hv & _)]; right; auto.
  - intros Hc Hi. destruct (Hlab Hc Hi) as (l & Hl & Hne).
    exists l. split; [|exact Hne]. now apply H2.
Qed.
End LabelFacts.

Section ChainFacts.
Variable within_eps : Coord -> Coord -> bool.
Variable X : list Coord.

Local Abbreviation adj := (DBSCAN.adj within_eps X).
Local Abbreviation label_point := (DBSCAN.label_point within_eps X).
Local Abbreviation expand := (DBSCAN.expand within_eps X).
Local Abbreviation visit := (DBSCAN.visit within_eps X).
Local Abbreviation noise := DBSCAN.noise.
Local Abbreviation chained := (chained within_eps X).
Local Abbreviation frontier := (frontier within_eps X).

Lemma chained_mono (L L' : list Z) (c : Z) (a b : nat) :
  (forall v, L !! v = Some c -> L' !! v = Some c) ->
  chained L c a b -> chained L' c a b.
Proof.
  intros Hsub Hch. induction Hch as [|x y z Hxy _ IH]; [apply rtc_refl|].
  eapply rtc_l; [|exact IH]. destruct Hxy as (Hx & Hy & Ha). repeat split; auto.
Qed.

Lemma frontier_mono (L L' : list Z) (c : Z) (v : nat) :
  (forall v, L !! v = Some c -> L' !! v = Some c) ->
  frontier L c v -> frontier L' c v.
Proof.
  intros Hsub [Hv|(u & Hu & Ha)]; [left; auto | right; eauto].
Qed.

(** The symmetry of the radius test on the points at hand. *)
Hypothesis adj_sym : forall u v, adj u v = adj v u.

(** The invariant of an expansion with label [c]: the points that carry [c]
    are chained, and the stack holds frontier points only, or nothing
    carries [c] yet and the stack is empty. *)
Lemma label_point_chain (c : Z) (i : nat) (stack : list nat) (L : list Z) :
  c <> noise ->
  (forall a b, L !! a = Some c -> L !! b = Some c -> chained L c a b) ->
  Forall (frontier L c) (i :: stack) \/ ((forall u, L !! u <> Some c) /\ stack = []) ->
  let L1 := fst (label_point c i stack L) in
  let stack1 := snd (label_point c i stack L) in
  (forall a b, L1 !! a = Some c -> L1 !! b = Some c -> chained L1 c a b)
  /\ (Forall (frontier L1 c) stack1 \/ ((forall u, L1 !! u <> Some c) /\ stack1 = [])).
Proof.
  intros Hc Hinv Hpre L1 stack1.
  assert (Hkeep : forall v, L !! v = Some c -> L1 !! v = Some c)
    by (intros v Hv; now apply label_point_keeps).
  pose proof (label_point_new within_eps X c i stack L) as Hnew. fold L1 in Hnew.
  subst L1 stack1. revert Hkeep Hnew. unfold DBSCAN.label_point.
  destruct (DBSCAN.unlabeled L i) eqn:Hu; cbn [fst snd]; intros Hkeep Hnew.
  2: { split; [exact Hinv|]. destruct Hpre as [Hall|Hnone]; [left | now right].
       now inversion Hall. }
  apply unlabeled_true in Hu.
  assert (Hi : <[i := c]> L !! i = Some c)
    by (apply list_lookup_insert_eq; eapply lookup_lt_Some; eassumption).
  assert (Hold : forall v, <[i := c]> L !! v = Some c -> v = i \/ L !! v = Some c).
  { intros v Hv. apply Hnew in Hv as [Hv|(_ & _ & ->)]; auto. }
  split.
  - destruct Hpre as [Hall|[Hnone _]].
    + inversion Hall as [|? ? Hfront _]; subst.
      destruct Hfront as [Habs|(u & Hu' & Ha)]; [congruence|].
      assert (Hto : forall x, <[i := c]> L !! x = Some c -> chained (<[i := c]> L) c u x).
      { intros x Hx. destruct (Hold x Hx) as [->|Hx'].
        - apply rtc_once. repeat split; auto.
        - apply (chained_mono L); auto. }
      assert (Hfrom : forall x, <[i := c]> L !! x = Some c -> chained (<[i := c]> L) c x u).
      { intros x Hx. destruct (Hold x Hx) as [->|Hx'].
        - apply rtc_once. repeat split; auto. now rewrite adj_sym.
        - apply (chained_mono L); auto. }
      intros a b Ha' Hb'. eapply rtc_trans; [apply Hfrom | apply Hto]; assumption.
    + intros a b Ha' Hb'.
      destruct (Hold a Ha') as [->|Habs]; [|now apply Hnone in Habs].
      destruct (Hold b Hb') as [->|Habs]; [|now apply Hnone in Habs].
      apply rtc_refl.
  - left.
    assert (Hstack : Forall (frontier (<[i := c]> L) c) stack).
    { destruct Hpre as [Hall|[_ ->]]; [|constructor].
      inversion Hall as [|? ? _ Hrest]; subst.
      eapply Forall_impl; [exact Hrest|]. intros v. now apply frontier_mono. }
    destruct (DBSCAN.is_core within_eps X i); [|exact Hstack].
    apply Forall_app. split; [|exact Hstack].
    apply Forall_forall. intros v Hv. apply list_elem_of_In, pushed_In in Hv as [Ha _].
    right. exists i. auto.
Qed.

Lemma expand_chain (c : Z) (fuel i : nat) (stack : list nat) (L L' : list Z) :
  c <> noise ->
  (forall a b, L !! a = Some c -> L !! b = Some c -> chained L c a b) ->
  Forall (frontier L c) (i :: stack) \/ ((forall u, L !! u <> Some c) /\ stack = []) ->
  expand c fuel i stack L = Some L' ->
  forall a b, L' !! a = Some c -> L' !! b = Some c -> chained L' c a b.
Proof.
  intros Hc. revert i stack L.
  induction fuel as [|fuel IH]; intros i stack L Hinv Hpre Hrun; [discriminate|].
  cbn [DBSCAN.expand] in Hrun.
  destruct (label_point_chain c i stack L Hc Hinv Hpre) as [Hinv1 Hpre1].
  destruct (label_point c i stack L) as [L1 stack1]. cbn [fst snd] in *.
  destruct stack1 as [|j stack1].
  - injection Hrun as <-. exact Hinv1.
  - apply (IH j stack1 L1 Hinv1); [|exact Hrun].
    destruct Hpre1 as [Hall|[_ Habs]]; [now left | discriminate].
Qed.

(** *** The outer loop *)

Lemma expand_well_labelled (num : Z) (i : nat) (L L' : list Z) :
  well_labelled within_eps X num L ->
  expand num (DBSCAN.fuel X) i [] L = Some L' ->
  well_labelled within_eps X (num + 1) L'.
Proof.
  intros (Hlen & Hnum & Hbound & Hchain) Hrun.
  assert (Hc : num <> noise) by (unfold DBSCAN.noise; lia).
  destruct (expand_facts within_eps X num _ i [] L L' Hrun) as (Hl & Hkeep & Hnew & _).
  assert (Hfresh : forall u, L !! u <> Some num).
  { intros u Hu. apply Hbound in Hu as [Hu|Hu]; [congruence | lia]. }
  repeat split.
  - congruence.
  - lia.
  - intros v l Hv. apply Hnew in Hv as [Hv|[_ ->]].
    + apply Hbound in Hv as [Hv|Hv]; [now left | right; lia].
    + right. lia.
  - intros c a b Hcn Ha Hb. destruct (Z.eq_dec c num) as [->|Hne].
    + apply (expand_chain num (DBSCAN.fuel X) i [] L L'); auto.
    + apply (chained_mono L); [intros v Hv; now apply Hkeep|].
      apply Hnew in Ha as [Ha|[_ Ha]]; [|congruence].
      apply Hnew in Hb as [Hb|[_ Hb]]; [|congruence].
      now apply Hchain.
Qed.

Lemma visit_well_labelled (points : list nat) (num : Z) (L Lf : list Z) :
  well_labelled within_eps X num L ->
  visit points num L = Some Lf ->
  exists num', well_labelled within_eps X num' Lf.
Proof.
  revert num L. induction points as [|i points IH]; intros num L Hwell Hrun.
  - injection Hrun as <-. eauto.
  - cbn [DBSCAN.visit] in Hrun.
    destruct (negb (DBSCAN.unlabeled L i) || negb (DBSCAN.is_core within_eps X i)).
    + eapply IH; eassumption.
    + destruct (expand num (DBSCAN.fuel X) i [] L) as [L1|] eqn:Hexp; [|discriminate].
      eapply IH; [|exact Hrun]. eapply expand_well_labelled; eassumption.
Qed.

Lemma replicate_well_labelled :
  well_labelled within_eps X 0 (replicate (length X) noise).
Proof.
  repeat split.
  - apply length_replicate.
  - lia.
  - intros v l Hv. apply lookup_replicate in Hv as [-> _]. now left.
  - intros c a b Hc Ha. apply lookup_replicate in Ha as [-> _]. congruence.
Qed.

Lemma fit_well_labelled (L : list Z) :
  DBSCAN.fit within_eps X = Some L -> exists num, well_labelled within_eps X num L.
Proof.
  intros Hfit. eapply visit_well_labelled; [apply replicate_well_labelled | exact Hfit].
Qed.
End ChainFacts.

Section VisitFacts.
Variable within_eps : Coord -> Coord -> bool.
Variable X : list Coord.

Local Abbreviation adj := (DBSCAN.adj within_eps X).
Local Abbreviation expand := (DBSCAN.expand within_eps X).
Local Abbreviation visit := (DBSCAN.visit within_eps X).
Local Abbreviation noise := DBSCAN.noise.

Lemma visit_returns (points : list nat) (num : Z) (L : list Z) :
  (0 <= num)%Z -> length L = length X ->
  exists Lf, visit points num L = Some Lf.
Proof.
  revert num L. induction points as [|i points IH]; intros num L Hnum Hlen.
  - cbn. eauto.
  - cbn [DBSCAN.visit].
    destruct (negb (DBSCAN.unlabeled L i) || negb (DBSCAN.is_core within_eps X i)).
    + now apply IH.
    + assert (Hc : num <> noise) by (unfold DBSCAN.noise; lia).
      destruct (expand_returns within_eps X num (DBSCAN.fuel X) i [] L Hc) as [L1 Hexp].
      { unfold DBSCAN.fuel. pose proof (pending_le L) as Hp. rewrite Hlen in Hp.
        cbn [length]. nia. }
      rewrite Hexp. apply IH; [lia|].
      destruct (expand_facts within_eps X num _ i [] L L1 Hexp) as (Hl & _).
      congruence.
Qed.

Lemma visit_facts (points : list nat) (num : Z) (L Lf : list Z) :
  (0 <= num)%Z ->
  visit points num L = Some Lf ->
  length Lf = length L
  /\ (forall v l, L !! v = Some l -> l <> noise -> Lf !! v = Some l).
Proof.
  revert num L. induction points as [|i points IH]; intros num L Hnum Hrun.
  - injection Hrun as <-. auto.
  - cbn [DBSCAN.visit] in Hrun.
    destruct (negb (DBSCAN.unlabeled L i) || negb (DBSCAN.is_core within_eps X i)).
    + eapply IH; eassumption.
    + destruct (expand num (DBSCAN.fuel X) i [] L) as [L1|] eqn:Hexp; [|discriminate].
      destruct (expand_facts within_eps X num _ i [] L L1 Hexp) as (Hl & Hkeep & _).
      destruct (IH (num + 1)%Z L1 ltac:(lia) Hrun) as (Hl' & Hkeep').
      split; [congruence | auto].
Qed.

(** Every point is within the radius of itself. *)
Hypothesis adj_refl : forall i, i < length X -> adj i i = true.

Lemma is_core_all (i : nat) : i < length X -> DBSCAN.is_core within_eps X i = true.
Proof.
  intros Hi. unfold DBSCAN.is_core, DBSCAN.min_samples, DBSCAN.neighborhoods.
  apply Nat.leb_le.
  assert (Hin : In i (List.filter (adj i) (seq 0 (length X)))).
  { apply filter_In. split; [apply in_seq; lia | now apply adj_refl]. }
  destruct (List.filter (adj i) (seq 0 (length X))); [destruct Hin | cbn; lia].
Qed.

Lemma visit_labels_all (points : list nat) (num : Z) (L Lf : list Z) :
  (0 <= num)%Z -> length L = length X ->
  Forall (fun i => i < length X) points ->
  visit points num L = Some Lf ->
  Forall (fun i => exists l, Lf !! i = Some l /\ l <> noise) points.
Proof.
  revert num L. induction points as [|i points IH]; intros num L Hnum Hlen Hall Hrun.
  - constructor.
  - inversion Hall as [|? ? Hi Hrest]; subst. cbn [DBSCAN.visit] in Hrun.
    rewrite (is_core_all i Hi), orb_false_r in Hrun.
    assert (Hc : num <> noise) by (unfold DBSCAN.noise; lia).
    destruct (DBSCAN.unlabeled L i) eqn:Hu; cbn [negb] in Hrun.
    + destruct (expand num (DBSCAN.fuel X) i [] L) as [L1|] eqn:Hexp; [|discriminate].
      destruct (expand_facts within_eps X num _ i [] L L1 Hexp) as (Hl & _ & _ & Hlab).
      destruct (Hlab Hc ltac:(lia)) as (l & Hl1 & Hne).
      destruct (visit_facts points (num + 1)%Z L1 Lf ltac:(lia) Hrun) as (_ & Hkeep).
      constructor; [exists l; auto|].
      apply (IH (num + 1)%Z L1); auto; [lia | congruence].
    + destruct (unlabeled_false L i Hu ltac:(lia)) as (l & Hl1 & Hne).
      destruct (visit_facts points num L Lf Hnum Hrun) as (_ & Hkeep).
      constructor; [exists l; auto|].
      apply (IH num L); auto.
Qed.

Lemma fit_no_noise (L : list Z) :
  DBSCAN.fit within_eps X = Some L ->
  forall i l, L !! i = Some l -> l <> noise.
Proof.
  intros Hfit i l Hi. unfold DBSCAN.fit in Hfit.
  assert (Hzero : (0 <= 0)%Z) by lia.
  assert (Hrep : length (replicate (length X) noise) = length X)
    by apply length_replicate.
  destruct (visit_facts _ _ _ _ Hzero Hfit) as (Hlen & _).
  rewrite Hrep in Hlen.
  assert (Hpoints : Forall (fun i => i < length X) (seq 0 (length X))).
  { apply Forall_forall. intros x Hx. apply list_elem_of_In, in_seq in Hx. lia. }
  pose proof (visit_labels_all _ _ _ _ Hzero Hrep Hpoints Hfit) as Hall.
  rewrite Forall_forall in Hall.
  destruct (Hall i) as (l' & Hl' & Hne).
  - apply list_elem_of_In, in_seq. apply lookup_lt_Some in Hi. lia.
  - congruence.
Qed.
End VisitFacts.

Lemma fit_returns (within_eps : Coord -> Coord -> bool) (X : list Coord) :
  exists L, DBSCAN.fit within_eps X = Some L /\ length L = length X.
Proof.
  assert (Hzero : (0 <= 0)%Z) by lia.
  assert (Hrep : length (replicate (length X) DBSCAN.noise) = length X)
    by apply length_replicate.
  destruct (visit_returns within_eps X (seq 0 (length X)) 0 _ Hzero Hrep) as [L HL].
  exists L. split; [exact HL|].
  destruct (visit_facts within_eps X _ _ _ _ Hzero HL) as (Hlen & _).
  now rewrite Hlen.
Qed.

(** ** [cluster_points] *)

Section ClusterFacts.
Variable within_eps : Coord -> Coord -> bool.
Variable photos : list GeoRecord.

Local Abbreviation X := (map coord_of photos).

Lemma cluster_points_returns :
  exists L,
    length L = length photos
    /\ (photos <> [] -> DBSCAN.fit within_eps X = Some L)
    /\ cluster_points within_eps photos = Some (group_by_label L photos).
Proof.
  destruct photos as [|r rest] eqn:Hphotos.
  - exists []. repeat split; congruence.
  - rewrite <- Hphotos. destruct (fit_returns within_eps X) as (L & Hfit & Hlen).
    exists L. rewrite length_map in Hlen.
    split; [exact Hlen|]. split; [intros _; exact Hfit|].
    unfold cluster_points. rewrite Hfit. rewrite Hphotos at 1. reflexivity.
Qed.

Lemma adj_records (i j : nat) :
  DBSCAN.adj within_eps X i j = true ->
  exists a b, photos !! i = Some a /\ photos !! j = Some b
              /\ within_eps (coord_of a) (coord_of b) = true.
Proof.
  unfold DBSCAN.adj. rewrite !list_lookup_fmap.
  destruct (photos !! i) as [a|], (photos !! j) as [b|]; cbn; try discriminate.
  eauto.
Qed.

Lemma adj_refl_records :
  (forall r, In r photos -> within_eps (coord_of r) (coord_of r) = true) ->
  forall i, i < length X -> DBSCAN.adj within_eps X i i = true.
Proof.
  intros Hrefl i Hi. unfold DBSCAN.adj. rewrite list_lookup_fmap.
  rewrite length_map in Hi. destruct (lookup_lt_is_Some_2 photos i Hi) as [r Hr].
  rewrite Hr. cbn. apply Hrefl. apply list_elem_of_In, list_elem_of_lookup. eauto.
Qed.

Lemma adj_sym_records :
  (forall p q, In p photos -> In q photos ->
               within_eps (coord_of p) (coord_of q) = within_eps (coord_of q) (coord_of p)) ->
  forall i j, DBSCAN.adj within_eps X i j = DBSCAN.adj within_eps X j i.
Proof.
  intros Hsym i j. unfold DBSCAN.adj. rewrite !list_lookup_fmap.
  destruct (photos !! i) as [a|] eqn:Ha, (photos !! j) as [b|] eqn:Hb; cbn;
    try reflexivity.
  apply Hsym; apply list_elem_of_In, list_elem_of_lookup; eauto.
Qed.

Lemma chained_connected (L : list Z) (l : Z) (i j : nat) :
  chained within_eps X L l i j ->
  forall a, photos !! i = Some a ->
  exists b, photos !! j = Some b
            /\ connected_in within_eps (labelled l L photos) a b.
Proof.
  intros Hch. induction Hch as [x|x y z Hxy _ IH]; intros a Ha.
  - exists a. split; [exact Ha | apply rtc_refl].
  - destruct Hxy as (Hx & Hy & Hadj).
    destruct (adj_records x y Hadj) as (a' & b' & Ha' & Hb' & Hwithin).
    assert (a' = a) by congruence. subst a'.
    destruct (IH b' Hb') as (b & Hb & Hconn).
    exists b. split; [exact Hb|].
    eapply rtc_l; [|exact Hconn].
    repeat split; [| |exact Hwithin]; apply labelled_In; eauto.
Qed.
End ClusterFacts.

(** C9.  [cluster_points] returns, and the members of each cluster appear
    in the order of the input sequence: each member list is a subsequence of
    the input. *)
Theorem cluster_points_stable (within_eps : Coord -> Coord -> bool)
        (photos : list GeoRecord) :
  exists clusters : Clusters,
    cluster_points within_eps photos = Some clusters
    /\ forall l ms, In (l, ms) clusters -> ms `sublist_of` photos.
Proof.
  destruct (cluster_points_returns within_eps photos) as (L & Hlen & _ & Hcp).
  exists (group_by_label L photos). split; [exact Hcp|].
  intros l ms Hin.
  destruct (group_by_label_spec L photos Hlen) as (_ & _ & Hspec).
  destruct (Hspec l ms Hin) as (-> & _). apply labelled_sublist.
Qed.

(** C2.  [cluster_points] returns a partition of its input: the member
    lists of the clusters together hold every input record exactly once,
    under distinct labels, and no cluster is empty; when every point is
    within the radius of itself, as a distance of zero is, no cluster carries
    the noise label; for the empty input the mapping is empty. *)
Theorem cluster_points_partition (within_eps : Coord -> Coord -> bool)
        (photos : list GeoRecord) :
  exists clusters : Clusters,
    cluster_points within_eps photos = Some clusters
    /\ Permutation (concat (map snd clusters)) photos
    /\ List.NoDup (map fst clusters)
    /\ (forall l ms, In (l, ms) clusters -> ms <> [])
    /\ ((forall r, In r photos -> within_eps (coord_of r) (coord_of r) = true) ->
        forall l ms, In (l, ms) clusters -> l <> DBSCAN.noise)
    /\ (photos = [] -> clusters = []).
Proof.
  destruct (cluster_points_returns within_eps photos) as (L & Hlen & Hfit & Hcp).
  exists (group_by_label L photos). split; [exact Hcp|].
  destruct (group_by_label_spec L photos Hlen) as (Hnd & Hperm & Hspec).
  repeat split; try assumption.
  - intros l ms Hin. now destruct (Hspec l ms Hin) as (_ & Hne & _).
  - intros Hrefl l ms Hin. destruct (Hspec l ms Hin) as (_ & Hne & Hl).
    assert (Hphotos : photos <> []).
    { intros ->. destruct L; [destruct Hl | discriminate]. }
    apply list_elem_of_In, list_elem_of_lookup in Hl as [i Hi].
    exact (fit_no_noise within_eps (map coord_of photos)
                        (adj_refl_records within_eps photos Hrefl) L
                        (Hfit Hphotos) i l Hi).
  - intros ->. destruct L; [reflexivity | discriminate].
Qed.

Lemma cluster_points_partition_witness :
  exists clusters : Clusters,
    cluster_points (within_box 1) photos_in_a_row = Some clusters
    /\ Permutation (concat (map snd clusters)) photos_in_a_row
    /\ forall l ms, In (l, ms) clusters -> l <> DBSCAN.noise.
Proof.
  destruct (cluster_points_partition (within_box 1) photos_in_a_row)
    as (clusters & Hcp & Hperm & _ & _ & Hnoise & _).
  exists clusters. split; [exact Hcp|]. split; [exact Hperm|].
  apply Hnoise. intros r Hr. cbn in Hr.
  destruct Hr as [<-|[<-|[<-|[<-|[]]]]]; vm_compute; reflexivity.
Defined.

(** C1.  When the radius test is symmetric and holds between a point and
    itself, [cluster_points] returns clusters in which any two members are
    joined by a chain of members of that cluster, each within the radius of
    the next.  (Nothing is said of the two ends of a chain being within the
    radius of each other; [chain_is_not_a_clique] shows they need not be.) *)
Theorem cluster_points_chain_connected (within_eps : Coord -> Coord -> bool)
        (photos : list GeoRecord) :
  (forall r, In r photos -> within_eps (coord_of r) (coord_of r) = true) ->
  (forall p q, In p photos -> In q photos ->
               within_eps (coord_of p) (coord_of q) = within_eps (coord_of q) (coord_of p)) ->
  exists clusters : Clusters,
    cluster_points within_eps photos = Some clusters
    /\ forall l ms a b,
        In (l, ms) clusters -> In a ms -> In b ms -> connected_in within_eps ms a b.
Proof.
  intros Hrefl Hsym.
  destruct (cluster_points_returns within_eps photos) as (L & Hlen & Hfit & Hcp).
  exists (group_by_label L photos). split; [exact Hcp|].
  intros l ms a b Hin Ha Hb.
  destruct (group_by_label_spec L photos Hlen) as (_ & _ & Hspec).
  destruct (Hspec l ms Hin) as (-> & _ & Hl).
  assert (Hphotos : photos <> []).
  { intros ->. destruct L; [destruct Hl | discriminate]. }
  specialize (Hfit Hphotos).
  apply labelled_In in Ha as (i & Hi & Hai). apply labelled_In in Hb as (j & Hj & Hbj).
  assert (Hne : l <> DBSCAN.noise).
  { exact (fit_no_noise within_eps (map coord_of photos)
                        (adj_refl_records within_eps photos Hrefl) L Hfit i l Hi). }
  destruct (fit_well_labelled within_eps (map coord_of photos)
                              (adj_sym_records within_eps photos Hsym) L Hfit)
    as (num & _ & _ & _ & Hchain).
  destruct (chained_connected within_eps photos L l i j (Hchain l i j Hne Hi Hj) a Hai)
    as (b' & Hb' & Hconn).
  assert (b' = b) by congruence. subst b'. exact Hconn.
Qed.

Lemma cluster_points_chain_connected_witness :
  exists clusters : Clusters,
    cluster_points (within_box 1) photos_in_a_row = Some clusters
    /\ forall l ms a b,
        In (l, ms) clusters -> In a ms -> In b ms -> connected_in (within_box 1) ms a b.
Proof.
  apply (cluster_points_chain_connected (within_box 1) photos_in_a_row).
  - intros r Hr. cbn in Hr.
    destruct Hr as [<-|[<-|[<-|[<-|[]]]]]; vm_compute; reflexivity.
  - intros p q Hp Hq. cbn in Hp, Hq.
    destruct Hp as [<-|[<-|[<-|[<-|[]]]]];
      destruct Hq as [<-|[<-|[<-|[<-|[]]]]]; vm_compute; reflexivity.
Defined.

(** The first, third and fourth photograph of the row form one cluster
    although the first and the fourth are not within the radius of each
    other: a cluster is a chain, not a clique. *)
Example chain_is_not_a_clique :
  cluster_points (within_box 1) photos_in_a_row
  = Some [(0%Z, [mkGeoRecord "IMG_1.jpg" 0 0 None;
                 mkGeoRecord "IMG_3.jpg" 1 0 None;
                 mkGeoRecord "IMG_4.jpg" 2 0 None]);
          (1%Z, [mkGeoRecord "IMG_2.jpg" 5 5 None])]%float
  /\ within_box 1 (0, 0)%float (2, 0)%float = false.
Proof. split; vm_compute; reflexivity. Qed.

(** ** Worked examples *)

(** The track-pass scenario: one track, named after the placemark, without
    description, from (10.0, 20.0) to (10.000001, 20.000001). *)
Example track_scenario :
  scenario_tracks
  = [with_coordinates
       (mkLineCoords (IStr "10.0") (IStr "20.0")
                     0x1.40000218def41p+3%float 0x1.4000010c6f7a1p+4%float)
       (track_stub (Some (Some "IMG_1.jpg")) None)].
Proof. vm_compute. reflexivity. Qed.

(** A coordinate text without a comma stops the file before anything is
    appended for it; the first track stays, the third placemark is never
    reached. *)
Example unsplittable_placemark_stops_the_file :
  process_kml_file Decimal.float_of_decimal "group_1.kml"
                   (Some [good_placemark; unsplittable_placemark; good_placemark])
                   empty_tracks
  = (Returned tt,
     {| folder_tracks :=
          [synthesize (Some (Some "IMG_1.jpg")) (Some (Some "2024-01-02T03:04:05Z"))
                      "10.0" "20.0" 10 20];
        stdout := [KmlFileError "group_1.kml" ValueError] |}).
Proof. vm_compute. reflexivity. Qed.

(** A longitude that is not a number stops the file after the new element
    was appended: it stays, without coordinates. *)
Example non_numeric_placemark_leaves_a_stub :
  process_kml_file Decimal.float_of_decimal "group_1.kml"
                   (Some [good_placemark; non_numeric_placemark; good_placemark])
                   empty_tracks
  = (Returned tt,
     {| folder_tracks :=
          [synthesize (Some (Some "IMG_1.jpg")) (Some (Some "2024-01-02T03:04:05Z"))
                      "10.0" "20.0" 10 20;
           track_stub (Some (Some "IMG_3.jpg")) None];
        stdout := [KmlFileError "group_1.kml" ValueError] |}).
Proof. vm_compute. reflexivity. Qed.

Example xmp_without_latitude_is_skipped :
  process_xmp_file Decimal.float_of_decimal "a.xmp" "a.xmp" (Some xmp_without_latitude)
                   empty_tracks
  = (Returned tt, {| folder_tracks := []; stdout := [XmpMissingCoordinates "a.xmp"] |}).
Proof. vm_compute. reflexivity. Qed.

(** Scenario B: a cluster of 3 and a cluster of 10 give one document,
    numbered 1 of 1, one cluster dropped and 3 records dropped. *)
Example filter_scenario_B :
  let r := mkGeoRecord "IMG.jpg" 0 0 None in
  let clusters := [(0%Z, replicate 3 r); (1%Z, replicate 10 r)] in
  fst (filter_clusters Xml.compatible "trip" clusters) = Returned tt
  /\ map (fun g => (group_index g, length (group_members g),
                    title_total (doc_title (group_document g))))
         (generated (snd (filter_clusters Xml.compatible "trip" clusters)))
     = [(1, 10, 1)]
  /\ discarded_clusters Xml.compatible "trip" clusters = Some 1
  /\ discarded_points Xml.compatible "trip" clusters = Some 3.
Proof. repeat split; vm_compute; reflexivity. Qed.

(** Scenario C: two photographs far apart fall into two clusters, both
    dropped. *)
Example filter_scenario_C :
  let photos := [mkGeoRecord "IMG_1.jpg" 0 0 None; mkGeoRecord "IMG_2.jpg" 5 5 None]%float in
  exists clusters,
    cluster_points (within_box 1) photos = Some clusters
    /\ map fst clusters = [0%Z; 1%Z]
    /\ filter_clusters Xml.compatible "trip" clusters
       = (Returned tt, mkFilterState 0 2 [])
    /\ discarded_clusters Xml.compatible "trip" clusters = Some 2
    /\ discarded_points Xml.compatible "trip" clusters = Some 2.
Proof. eexists. repeat split; vm_compute; reflexivity. Qed.

(* ================================================================== *)
(** * Further properties *)
(* ================================================================== *)

(** ** File names *)

Section NameFacts.
Local Open Scope string_scope.

Lemma str_length_app (a b : string) :
  String.length (a ++ b) = String.length a + String.length b.
Proof. induction a as [|c a IH]; cbn; [reflexivity | now rewrite IH]. Qed.

Lemma str_app_inv_head (a x y : string) : a ++ x = a ++ y -> x = y.
Proof. induction a as [|c a IH]; cbn; intros H; [exact H | injection H as H; auto]. Qed.

Lemma str_app_inv_length (x y a b : string) :
  String.length x = String.length y -> x ++ a = y ++ b -> x = y /\ a = b.
Proof.
  revert y. induction x as [|c x IH]; intros [|d y] Hlen H; cbn in *; try discriminate.
  - auto.
  - injection H as -> H. injection Hlen as Hlen. destruct (IH y Hlen H) as [-> ->]. auto.
Qed.

Lemma str_app_inv_tail (x y e : string) : x ++ e = y ++ e -> x = y.
Proof.
  intros H. assert (Hlen : String.length x = String.length y).
  { apply (f_equal String.length) in H. rewrite !str_length_app in H. lia. }
  now destruct (str_app_inv_length x y e e Hlen H).
Qed.

Lemma all_chars_app (p : ascii -> bool) (a b : string) :
  all_chars p (a ++ b) = all_chars p a && all_chars p b.
Proof.
  induction a as [|c a IH]; cbn; [reflexivity|]. now rewrite IH, andb_assoc.
Qed.

Lemma sanitize_path_kept (c : ascii) (s : string) :
  name_char c = true -> sanitize_path (String c s) = String c (sanitize_path s).
Proof.
  unfold name_char. intros Hc. apply negb_true_iff in Hc.
  apply orb_false_elim in Hc as [Hc Hspace]. apply orb_false_elim in Hc as [Hc Hslash].
  apply orb_false_elim in Hc as [Hcolon Hback].
  rewrite sanitize_path_cons, Hcolon, Hback, Hslash, Hspace. reflexivity.
Qed.

Lemma sanitize_path_name_chars (path : string) :
  all_chars name_char (sanitize_path path) = true.
Proof.
  induction path as [|c s IH]; [reflexivity|].
  rewrite sanitize_path_cons.
  destruct (Ascii.eqb c ":") eqn:Ecolon; [exact IH|].
  destruct (Ascii.eqb c backslash) eqn:Eback; [cbn; exact IH|].
  destruct (Ascii.eqb c "/") eqn:Eslash; [cbn; exact IH|].
  destruct (Ascii.eqb c " ") eqn:Espace; [cbn; exact IH|].
  cbn [orb all_chars]. rewrite IH. unfold name_char.
  now rewrite Ecolon, Eback, Eslash, Espace.
Qed.

Lemma sanitize_path_fixed (s : string) :
  all_chars name_char s = true -> sanitize_path s = s.
Proof.
  induction s as [|c s IH]; [reflexivity|]. cbn [all_chars]. intros H.
  apply andb_prop in H as [Hc Hs]. rewrite (sanitize_path_kept c s Hc), (IH Hs).
  reflexivity.
Qed.

Lemma sanitize_path_length (path : string) :
  String.length (sanitize_path path) <= String.length path.
Proof.
  induction path as [|c s IH]; [reflexivity|].
  rewrite sanitize_path_cons.
  destruct (Ascii.eqb c ":"); [cbn; lia|].
  destruct (Ascii.eqb c backslash || Ascii.eqb c "/" || Ascii.eqb c " "); cbn; lia.
Qed.

Lemma sanitize_path_append (a b : string) :
  sanitize_path (a ++ b) = sanitize_path a ++ sanitize_path b.
Proof.
  induction a as [|c a IH]; [reflexivity|].
  cbn [String.append]. rewrite !sanitize_path_cons, IH.
  destruct (Ascii.eqb c ":"); [reflexivity|].
  destruct (Ascii.eqb c backslash || Ascii.eqb c "/" || Ascii.eqb c " "); reflexivity.
Qed.

Lemma is_digit_name_char (c : ascii) : is_digit c = true -> name_char c = true.
Proof.
  destruct c as [[] [] [] [] [] [] [] []]; vm_compute; intros H;
    first [reflexivity | discriminate H].
Qed.

Lemma all_chars_impl (p q : ascii -> bool) (s : string) :
  (forall c, p c = true -> q c = true) -> all_chars p s = true -> all_chars q s = true.
Proof.
  intros Hpq. induction s as [|c s IH]; [reflexivity|]. cbn. intros H.
  apply andb_prop in H as [Hc Hs]. now rewrite (Hpq c Hc), (IH Hs).
Qed.

Lemma py_str_nat_inj (n m : nat) : py_str_nat n = py_str_nat m -> n = m.
Proof.
  unfold py_str_nat. intros H.
  apply (f_equal NilEmpty.uint_of_string) in H. rewrite !NilEmpty.usu in H.
  injection H as H. apply (f_equal Nat.of_uint) in H.
  now rewrite !DecimalNat.Unsigned.of_to in H.
Qed.

Lemma numbered_inj (base ext : string) (n m : nat) :
  numbered base ext n = numbered base ext m -> n = m.
Proof.
  unfold numbered. intros H. apply str_app_inv_head in H.
  change ("_" ++ ?x) with (String "_" x) in H. injection H as H.
  apply str_app_inv_tail in H. now apply py_str_nat_inj.
Qed.

Lemma numbered_longer (base ext : string) (n : nat) :
  numbered base ext n <> base ++ ext.
Proof.
  unfold numbered. intros H. apply (f_equal String.length) in H.
  rewrite !str_length_app in H. cbn in H. lia.
Qed.
End NameFacts.

Lemma NoDup_map_injective {A B : Type} (f : A -> B) (l : list A) :
  (forall x y, f x = f y -> x = y) -> List.NoDup l -> List.NoDup (map f l).
Proof.
  intros Hinj. induction 1 as [|x l Hx _ IH]; cbn; constructor; [|exact IH].
  intros Hin. apply in_map_iff in Hin as (y & Hy & Hyl).
  apply Hinj in Hy. subst y. contradiction.
Qed.

(** X1.  Whatever the path, [sanitize_path] returns a string without colon,
    backslash, slash or space, and never a longer one. *)
Theorem sanitize_path_safe (path : string) :
  all_chars name_char (sanitize_path path) = true
  /\ String.length (sanitize_path path) <= String.length path.
Proof. split; [apply sanitize_path_name_chars | apply sanitize_path_length]. Qed.

(** X2.  Sanitising twice is sanitising once. *)
Theorem sanitize_path_idempotent (path : string) :
  sanitize_path (sanitize_path path) = sanitize_path path.
Proof. apply sanitize_path_fixed, sanitize_path_name_chars. Qed.

(** X3.  [sanitize_path] works character by character: the sanitised
    concatenation is the concatenation of the sanitised parts. *)
Theorem sanitize_path_concat (a b : string) :
  sanitize_path (a ++ b)%string = (sanitize_path a ++ sanitize_path b)%string.
Proof. apply sanitize_path_append. Qed.

(** X4.  With a time string of digits, as [strftime("%Y%m%d%H%M")] gives,
    the prefix under which a directory's files are written holds no colon,
    separator or space, whatever the two paths are; sanitising it again
    leaves it as it is. *)
Theorem output_prefix_safe (absolute_path relative_path time_str : string) :
  all_chars is_digit time_str = true ->
  all_chars name_char (output_prefix absolute_path relative_path time_str) = true
  /\ sanitize_path (output_prefix absolute_path relative_path time_str)
     = output_prefix absolute_path relative_path time_str.
Proof.
  intros Hdigits.
  assert (Hsafe : all_chars name_char
                    (output_prefix absolute_path relative_path time_str) = true).
  { unfold output_prefix. rewrite !all_chars_app, !sanitize_path_name_chars.
    rewrite (all_chars_impl is_digit name_char time_str is_digit_name_char Hdigits).
    reflexivity. }
  split; [exact Hsafe | now apply sanitize_path_fixed].
Qed.

Lemma output_prefix_safe_witness :
  all_chars name_char
            (output_prefix "C:\Users\me\My Photos" "2024 trip/day 1" "202401021530")
  = true
  /\ sanitize_path (output_prefix "C:\Users\me\My Photos" "2024 trip/day 1" "202401021530")
     = output_prefix "C:\Users\me\My Photos" "2024 trip/day 1" "202401021530".
Proof.
  apply (output_prefix_safe "C:\Users\me\My Photos" "2024 trip/day 1" "202401021530").
  reflexivity.
Defined.

(** X5.  The point documents of one directory get pairwise distinct file
    names, and none of them is the name of the directory's log file. *)
Theorem kml_filenames_distinct (xml_compatible : string -> bool)
        (prefix folder_name : string) (clusters : Clusters) :
  List.NoDup (map (fun g => kml_filename prefix (group_index g))
                  (generated (snd (filter_clusters xml_compatible folder_name clusters))))
  /\ forall n, kml_filename prefix n <> log_filename prefix.
Proof.
  split.
  - assert (Hi : exists written,
               map group_index
                   (generated (snd (filter_clusters xml_compatible folder_name clusters)))
               = seq 1 written).
    { unfold filter_clusters.
      destruct (accepted_from xml_compatible folder_name (total_clusters_of clusters) 1
                              (List.filter retained (map snd clusters))) eqn:Hacc.
      - destruct (filter_step_run xml_compatible folder_name
                    (total_clusters_of clusters) clusters (mkFilterState 0 0 []) Hacc)
          as (st & -> & _ & Hi & _).
        eexists. exact Hi.
      - destruct (filter_step_raised xml_compatible folder_name
                    (total_clusters_of clusters) clusters (mkFilterState 0 0 []) Hacc)
          as (st & before & c & after & -> & _ & _ & _ & _ & Hi).
        eexists. exact Hi. }
    destruct Hi as [written Hi].
    rewrite <- (map_map group_index (kml_filename prefix)), Hi.
    apply NoDup_map_injective; [|apply seq_NoDup].
    intros n m H. unfold kml_filename in H. apply str_app_inv_head in H.
    change ("_" ++ ?x)%string with (String "_" x) in H. injection H as H.
    apply str_app_inv_tail in H. now apply py_str_nat_inj.
  - intros n H. unfold kml_filename, log_filename in H. apply str_app_inv_head in H.
    change ("_" ++ ?x)%string with (String "_" x) in H. injection H as H.
    assert (Hlen : String.length (py_str_nat n) = String.length "log"%string).
    { apply (f_equal String.length) in H. rewrite str_length_app in H. cbn in H.
      cbn. lia. }
    change "log.txt"%string with ("log" ++ ".txt")%string in H.
    destruct (str_app_inv_length _ _ _ _ Hlen H) as [_ Habs]. discriminate Habs.
Qed.

(** ** Point documents *)

Lemma placemark_of_plain (r : GeoRecord) :
  truthy (timestamp r) = false ->
  placemark_of r = [KName (photo_name r); KPoint (lon r) (lat r)].
Proof. unfold placemark_of. intros ->. reflexivity. Qed.

(** X6.  [create_kml] returns a document exactly when lxml takes every
    text it is given: the name of each record, the normalised capture time
    of each record that has one, and the title.  Otherwise it raises
    [ValueError] and there is no document.  The document returned has one
    placemark per record, in order.  A record whose capture time is [None]
    or the empty string gets a name and a point and no timestamp; every
    placemark starts with the name and ends with the point ([lon], then
    [lat]), with at most the timestamp in between. *)
Theorem create_kml_placemarks (xml_compatible : string -> bool)
        (cluster_points_list : list GeoRecord) (cluster_number total_clusters : nat)
        (folder_name : string) :
  if forallb xml_compatible
             (document_texts cluster_points_list cluster_number total_clusters
                             folder_name)
  then exists document : PointDocument,
      create_kml xml_compatible cluster_points_list cluster_number total_clusters
                 folder_name = Returned document
      /\ length (doc_placemarks document) = length cluster_points_list
      /\ forall i r,
          cluster_points_list !! i = Some r ->
          (exists middle,
              doc_placemarks document !! i
              = Some (KName (photo_name r) :: middle ++ [KPoint (lon r) (lat r)])
              /\ length middle <= 1)
          /\ (timestamp r = None \/ timestamp r = Some EmptyString ->
              doc_placemarks document !! i
              = Some [KName (photo_name r); KPoint (lon r) (lat r)])
  else create_kml xml_compatible cluster_points_list cluster_number total_clusters
                  folder_name = Raised ValueError.
Proof.
  rewrite create_kml_spec.
  destruct (forallb xml_compatible _); [|reflexivity].
  eexists. split; [reflexivity|].
  cbn [doc_placemarks]. split; [apply length_map|].
  intros i r Hi. rewrite list_lookup_fmap, Hi. cbn [fmap option_fmap option_map].
  split.
  - unfold placemark_of. destruct (truthy (timestamp r)); [|exists []; auto].
    destruct (timestamp r) as [ts|]; [|exists []; auto].
    exists [KTimeStamp (timestamp_formatted ts)]. auto.
  - intros Hts. rewrite placemark_of_plain; [reflexivity|].
    destruct Hts as [-> | ->]; reflexivity.
Qed.

(** ** Grouping by label, continued *)

Section GroupOrder.
Context {A : Type}.

Lemma setdefault_append_key_list (k : Z) (x : A) (clusters : list (Z * list A)) :
  map fst (setdefault_append k x clusters)
  = if known (map fst clusters) k then map fst clusters else map fst clusters ++ [k].
Proof.
  unfold known. induction clusters as [|[k' ms] rest IH]; [reflexivity|].
  cbn [setdefault_append map fst existsb].
  destruct (k =? k')%Z; cbn [map fst orb]; [reflexivity|].
  rewrite IH. destruct (existsb (Z.eqb k) (map fst rest)); reflexivity.
Qed.

Lemma filter_filter_and {B : Type} (f g : B -> bool) (l : list B) :
  List.filter f (List.filter g l) = List.filter (fun x => f x && g x) l.
Proof.
  induction l as [|x l IH]; [reflexivity|]. cbn.
  destruct (g x); cbn; [|now rewrite andb_false_r].
  rewrite andb_true_r. destruct (f x); now rewrite IH.
Qed.

Lemma filter_same {B : Type} (f g : B -> bool) (l : list B) :
  (forall x, f x = g x) -> List.filter f l = List.filter g l.
Proof.
  intros H. induction l as [|x l IH]; [reflexivity|]. cbn. now rewrite H, IH.
Qed.

Lemma fold_group_step_keys (pairs : list (Z * A)) (clusters : list (Z * list A)) :
  map fst (fold_left group_step pairs clusters)
  = map fst clusters
    ++ List.filter (fun k => negb (known (map fst clusters) k))
                   (first_seen (map fst pairs)).
Proof.
  revert clusters. induction pairs as [|[k x] pairs IH]; intros clusters.
  - cbn. now rewrite app_nil_r.
  - cbn [fold_left map fst first_seen List.filter]. rewrite IH.
    unfold group_step at 1 2. cbn [fst snd]. rewrite setdefault_append_key_list.
    destruct (known (map fst clusters) k) eqn:Hk; cbn [negb].
    + f_equal. rewrite filter_filter_and. apply filter_same. intros y.
      destruct (y =? k)%Z eqn:Hy; cbn [negb]; [|now rewrite andb_true_r].
      apply Z.eqb_eq in Hy. subst y. now rewrite Hk.
    + rewrite <- app_assoc. cbn [app]. do 2 f_equal.
      rewrite filter_filter_and. apply filter_same. intros y.
      unfold known. rewrite existsb_app. cbn [existsb]. rewrite orb_false_r.
      now rewrite negb_orb.
Qed.
End GroupOrder.

(** X7.  The clusters are listed in the order in which their labels first
    occur in the label vector: the mapping's keys are the distinct labels,
    each at its first occurrence. *)
Theorem group_by_label_order {A : Type} (labels : list Z) (photos : list A) :
  length labels = length photos ->
  map fst (group_by_label labels photos) = first_seen labels.
Proof.
  intros Hlen. unfold group_by_label. rewrite fold_group_step_keys.
  cbn [map app].
  assert (Hfst : map fst (zip labels photos) = labels) by (apply fst_zip; lia).
  rewrite Hfst.
  rewrite (filter_same _ (fun _ => true)) by reflexivity.
  induction (first_seen labels) as [|k l IH]; [reflexivity|]. cbn. now rewrite IH.
Qed.

Lemma group_by_label_order_witness :
  map fst (group_by_label [0; 1; 0; 2; 1]%Z ["a"; "b"; "c"; "d"; "e"]%string)
  = [0; 1; 2]%Z.
Proof.
  exact (group_by_label_order [0; 1; 0; 2; 1]%Z ["a"; "b"; "c"; "d"; "e"]%string eq_refl).
Defined.

(** X8.  Looking a label up in the mapping gives exactly the records that
    carry it, in input order, and nothing for a label that does not occur;
    in particular the record at any position is found under the label at
    that position. *)
Theorem group_by_label_lookup {A : Type} (labels : list Z) (photos : list A) :
  (forall l, members l (group_by_label labels photos) = labelled l labels photos)
  /\ (forall i l r, labels !! i = Some l -> photos !! i = Some r ->
                    In r (members l (group_by_label labels photos)))
  /\ (forall l, ~ In l labels -> members l (group_by_label labels photos) = []).
Proof.
  assert (Hm : forall l, members l (group_by_label labels photos)
                         = labelled l labels photos).
  { intros l. destruct (fold_setdefault (zip labels photos) (@nil (Z * list A)))
      as (Hm & _). exact (Hm l). }
  split; [exact Hm|]. split.
  - intros i l r Hl Hr. rewrite Hm. apply labelled_In. eauto.
  - intros l Hl. rewrite Hm. destruct (labelled l labels photos) as [|r rest] eqn:E;
      [reflexivity|].
    exfalso. apply Hl.
    assert (Hin : In r (labelled l labels photos)) by (rewrite E; now left).
    apply labelled_In in Hin as (i & Hi & _).
    apply list_elem_of_In, list_elem_of_lookup. eauto.
Qed.

(** ** Clustering followed by the filter *)

Lemma list_sum_filter_split {B : Type} (f : B -> bool) (w : B -> nat) (l : list B) :
  list_sum (map w (List.filter f l))
  + list_sum (map w (List.filter (fun x => negb (f x)) l))
  = list_sum (map w l).
Proof.
  induction l as [|x l IH]; [reflexivity|]. unfold list_sum in *.
  cbn [List.filter map]. destruct (f x); cbn [negb map fold_right]; lia.
Qed.

(** X9.  Nothing is lost between the clustering and the documents.  The
    clustering returns for any photographs with coordinates; when lxml takes
    the texts of every document, so that the loop over the clusters runs to
    its end, the placemarks of the documents written and the records
    counted as discarded add up to the number of photographs, and the
    documents written and the clusters counted as discarded add up to the
    number of clusters. *)
Theorem clustering_conserves_records (within_eps : Coord -> Coord -> bool)
        (xml_compatible : string -> bool) (folder_name : string)
        (photos : list GeoRecord) :
  exists clusters : Clusters,
    cluster_points within_eps photos = Some clusters
    /\ (writable xml_compatible folder_name clusters = true ->
        exists (st : FilterState) (points_dropped clusters_dropped : nat),
          filter_clusters xml_compatible folder_name clusters = (Returned tt, st)
          /\ discarded_points xml_compatible folder_name clusters = Some points_dropped
          /\ discarded_clusters xml_compatible folder_name clusters
             = Some clusters_dropped
          /\ list_sum (map (fun g => length (doc_placemarks (group_document g)))
                           (generated st))
             + points_dropped
             = length photos
          /\ length (generated st) + clusters_dropped = length clusters).
Proof.
  destruct (cluster_points_returns within_eps photos) as (L & Hlen & _ & Hcp).
  exists (group_by_label L photos). split; [exact Hcp|].
  destruct (group_by_label_spec L photos Hlen) as (_ & Hperm & _).
  set (clusters := group_by_label L photos) in *. intros Hw.
  destruct (filter_step_run xml_compatible folder_name (total_clusters_of clusters)
                            clusters (mkFilterState 0 0 []) Hw)
    as (st & Hrun & Hm & _ & Hv & Hd & Hf).
  cbn [generated valid_cluster_count total_discarded_points map app Nat.add] in *.
  fold (filter_clusters xml_compatible folder_name clusters) in Hrun.
  specialize (Hf (Forall_nil_2 _)).
  assert (Hsizes : map (fun g => length (doc_placemarks (group_document g)))
                       (generated st)
                   = map length (List.filter retained (map snd clusters))).
  { rewrite <- Hm, map_map. apply map_ext_in. intros g Hg.
    rewrite Forall_forall in Hf. apply list_elem_of_In in Hg.
    destruct (Hf g Hg) as (_ & _ & ->). apply length_map. }
  exists st, (total_discarded_points st), (length clusters - valid_cluster_count st).
  split; [exact Hrun|].
  split; [unfold discarded_points; now rewrite Hrun|].
  split; [unfold discarded_clusters; now rewrite Hrun|].
  split.
  - rewrite Hsizes, Hd.
    unfold discarded. rewrite list_sum_filter_split.
    rewrite <- length_concat. now apply Permutation_length.
  - assert (Hgen : length (generated st)
                   = length (List.filter retained (map snd clusters)))
      by (rewrite <- Hm; now rewrite length_map).
    rewrite Hgen, Hv.
    pose proof (filter_partition_length retained (map snd clusters)) as Hp.
    rewrite length_map in Hp. lia.
Qed.

Lemma clustering_conserves_records_witness :
  exists (clusters : Clusters) (st : FilterState),
    cluster_points (within_box 1)
                   [mkGeoRecord "IMG_1.jpg" 0 0 None; mkGeoRecord "IMG_2.jpg" 9 9 None;
                    mkGeoRecord "IMG_3.jpg" 1 0 None; mkGeoRecord "IMG_4.jpg" 2 0 None;
                    mkGeoRecord "IMG_5.jpg" 3 0 None]%float
    = Some clusters
    /\ filter_clusters Xml.compatible "trip" clusters = (Returned tt, st)
    /\ list_sum (map (fun g => length (doc_placemarks (group_document g)))
                     (generated st)) = 4
    /\ discarded_points Xml.compatible "trip" clusters = Some 1
    /\ discarded_clusters Xml.compatible "trip" clusters = Some 1.
Proof.
  destruct (clustering_conserves_records (within_box 1) Xml.compatible "trip"
              [mkGeoRecord "IMG_1.jpg" 0 0 None; mkGeoRecord "IMG_2.jpg" 9 9 None;
               mkGeoRecord "IMG_3.jpg" 1 0 None; mkGeoRecord "IMG_4.jpg" 2 0 None;
               mkGeoRecord "IMG_5.jpg" 3 0 None]%float)
    as (clusters & Hcp & Hconserved).
  assert (Hclusters : clusters
                      = [(0%Z, [mkGeoRecord "IMG_1.jpg" 0 0 None;
                                mkGeoRecord "IMG_3.jpg" 1 0 None;
                                mkGeoRecord "IMG_4.jpg" 2 0 None;
                                mkGeoRecord "IMG_5.jpg" 3 0 None]%float);
                         (1%Z, [mkGeoRecord "IMG_2.jpg" 9 9 None]%float)]).
  { vm_compute in Hcp. congruence. }
  subst clusters.
  destruct Hconserved as (st & points_dropped & clusters_dropped & Hrun & Hdp & Hdc
                          & Hsum & Hcount).
  - vm_compute. reflexivity.
  - eexists. exists st. split; [exact Hcp|]. split; [exact Hrun|].
    assert (Hp : discarded_points Xml.compatible "trip"
                   [(0%Z, [mkGeoRecord "IMG_1.jpg" 0 0 None;
                           mkGeoRecord "IMG_3.jpg" 1 0 None;
                           mkGeoRecord "IMG_4.jpg" 2 0 None;
                           mkGeoRecord "IMG_5.jpg" 3 0 None]%float);
                    (1%Z, [mkGeoRecord "IMG_2.jpg" 9 9 None]%float)] = Some 1)
      by (vm_compute; reflexivity).
    assert (Hc : discarded_clusters Xml.compatible "trip"
                   [(0%Z, [mkGeoRecord "IMG_1.jpg" 0 0 None;
                           mkGeoRecord "IMG_3.jpg" 1 0 None;
                           mkGeoRecord "IMG_4.jpg" 2 0 None;
                           mkGeoRecord "IMG_5.jpg" 3 0 None]%float);
                    (1%Z, [mkGeoRecord "IMG_2.jpg" 9 9 None]%float)] = Some 1)
      by (vm_compute; reflexivity).
    rewrite Hp in Hdp. injection Hdp as <-.
    split; [|split; [exact Hp | exact Hc]].
    cbn [length] in Hsum. lia.
Defined.

(** X25.  When lxml refuses a text of some document, the loop over the
    clusters does not run to its end: it raises [ValueError] at the first
    cluster kept whose document holds a refused text.  The documents of the
    clusters kept before that one are written, numbered 1, 2, ...; no later
    document is written, and neither count is reported. *)
Theorem filter_clusters_stops (xml_compatible : string -> bool)
        (folder_name : string) (clusters : Clusters) :
  writable xml_compatible folder_name clusters = false ->
  exists (st : FilterState) (before : list (list GeoRecord)) (c : list GeoRecord)
         (after : list (list GeoRecord)),
    filter_clusters xml_compatible folder_name clusters = (Raised ValueError, st)
    /\ List.filter retained (map snd clusters) = before ++ c :: after
    /\ accepted_from xml_compatible folder_name (total_clusters_of clusters) 1 before
       = true
    /\ create_kml xml_compatible c (S (length before)) (total_clusters_of clusters)
                  folder_name = Raised ValueError
    /\ map group_members (generated st) = before
    /\ map group_index (generated st) = seq 1 (length before)
    /\ discarded_clusters xml_compatible folder_name clusters = None
    /\ discarded_points xml_compatible folder_name clusters = None.
Proof.
  intros Hw.
  destruct (filter_step_raised xml_compatible folder_name (total_clusters_of clusters)
                               clusters (mkFilterState 0 0 []) Hw)
    as (st & before & c & after & Hrun & Hsplit & Hbefore & Hrefused & Hm & Hi).
  cbn [generated valid_cluster_count map app Nat.add] in *.
  fold (filter_clusters xml_compatible folder_name clusters) in Hrun.
  exists st, before, c, after.
  split; [exact Hrun|]. split; [exact Hsplit|]. split; [exact Hbefore|].
  split; [now rewrite create_kml_spec, Hrefused|].
  split; [exact Hm|]. split; [exact Hi|].
  unfold discarded_clusters, discarded_points. now rewrite Hrun.
Qed.

Lemma filter_clusters_stops_witness :
  exists st : FilterState,
    filter_clusters Xml.compatible "trip" clusters_with_a_refused_name
    = (Raised ValueError, st)
    /\ map group_index (generated st) = [1]
    /\ map group_members (generated st)
       = [replicate 4 (mkGeoRecord "IMG.jpg" 0 0 None)].
Proof.
  destruct (filter_clusters_stops Xml.compatible "trip" clusters_with_a_refused_name)
    as (st & before & c & after & Hrun & _ & _ & _ & Hm & Hi & _).
  - vm_compute. reflexivity.
  - exists st. split; [exact Hrun|].
    assert (Hst : st = snd (filter_clusters Xml.compatible "trip"
                                            clusters_with_a_refused_name))
      by now rewrite Hrun.
    rewrite Hst. split; vm_compute; reflexivity.
Defined.

(** ** The photographs of a directory *)

Section TallyFacts.
Variable extract_gps : string -> GpsOutcome.

Lemma tally_photo_run (photos : list string) (t : PhotoTally) :
  let t' := fold_left (tally_photo extract_gps) photos t in
  length (photos_with_gps t') + no_gps_count t' + failed_count t'
  = length (photos_with_gps t) + no_gps_count t + failed_count t + length photos
  /\ (exists added,
         photos_with_gps t' = photos_with_gps t ++ added
         /\ map photo_name added `sublist_of` photos
         /\ Forall (fun r => extract_gps (photo_name r)
                             = GpsFound (lat r) (lon r) (timestamp r)) added)
  /\ (exists failed,
         failure_log t' = failure_log t ++ failed
         /\ length failed + failed_count t = failed_count t'
         /\ Forall (fun f => extract_gps (fst f) = GpsRaised (snd f)) failed).
Proof.
  revert t. induction photos as [|photo photos IH]; intros t; cbn [fold_left].
  - cbn. split; [lia|]. split; exists []; rewrite app_nil_r; repeat split; auto.
  - destruct (IH (tally_photo extract_gps t photo))
      as (Hcount & (added & Hadd & Hsub & Hall) & (failed & Hlog & Hflen & Hfall)).
    set (t1 := tally_photo extract_gps t photo) in *.
    assert (Ht1 : t1 = tally_photo extract_gps t photo) by reflexivity.
    clearbody t1. unfold tally_photo in Ht1.
    destruct (extract_gps photo) as [la lo ts| |e] eqn:Hex; subst t1;
      cbn [photos_with_gps no_gps_count failed_count failure_log] in *.
    + split; [rewrite Hcount, length_app; cbn; lia|]. split.
      * exists (mkGeoRecord photo la lo ts :: added). rewrite Hadd, <- app_assoc.
        split; [reflexivity|]. split; [cbn; now apply sublist_skip|].
        constructor; [exact Hex | exact Hall].
      * exists failed. auto.
    + split; [rewrite Hcount; cbn; lia|]. split.
      * exists added. split; [exact Hadd|]. split; [now apply sublist_cons | exact Hall].
      * exists failed. auto.
    + split; [rewrite Hcount; cbn; lia|]. split.
      * exists added. split; [exact Hadd|]. split; [now apply sublist_cons | exact Hall].
      * exists ((photo, e) :: failed). rewrite Hlog, <- app_assoc.
        split; [reflexivity|]. split; [cbn; lia|]. constructor; [exact Hex | exact Hfall].
Qed.
End TallyFacts.

Lemma filter_sublist_of {B : Type} (f : B -> bool) (l : list B) :
  List.filter f l `sublist_of` l.
Proof.
  induction l as [|x l IH]; [constructor|]. cbn.
  destruct (f x); [now apply sublist_skip | now apply sublist_cons].
Qed.

Lemma tally_photo_exact (extract_gps : string -> GpsOutcome) (photos : list string)
      (t : PhotoTally) :
  let t' := fold_left (tally_photo extract_gps) photos t in
  photos_with_gps t' = photos_with_gps t ++ flat_map (record_found extract_gps) photos
  /\ failure_log t' = failure_log t ++ flat_map (failure_logged extract_gps) photos
  /\ no_gps_count t'
     = no_gps_count t + length (List.filter (gps_absent extract_gps) photos)
  /\ failed_count t'
     = failed_count t + length (flat_map (failure_logged extract_gps) photos).
Proof.
  revert t. induction photos as [|photo photos IH]; intros t; cbn [fold_left].
  - cbn. rewrite !app_nil_r, !Nat.add_0_r. auto.
  - destruct (IH (tally_photo extract_gps t photo)) as (Hg & Hl & Hn & Hf).
    cbn zeta. rewrite Hg, Hl, Hn, Hf. clear IH Hg Hl Hn Hf.
    cbn [flat_map List.filter].
    remember (flat_map (record_found extract_gps) photos) as found.
    remember (flat_map (failure_logged extract_gps) photos) as logged.
    remember (List.filter (gps_absent extract_gps) photos) as absent.
    unfold tally_photo, record_found, failure_logged, gps_absent.
    destruct (extract_gps photo) as [la lo ts| |e];
      cbn [photos_with_gps no_gps_count failed_count failure_log app length];
      rewrite <- ?app_assoc; cbn [app]; repeat split; try reflexivity; lia.
Qed.

(** X10.  After the loop over the photographs of a directory,
    [photos_with_gps] holds, in listing order, exactly one record for each
    photograph for which [extract_gps] returned coordinates, with what it
    returned; the log holds, in listing order, exactly one failure for each
    photograph on which [extract_gps] raised; the other photographs are the
    ones counted as without coordinates; and the three counts of the log add
    up to the number of photographs. *)
Theorem tally_photos_accounts (extract_gps : string -> GpsOutcome)
        (all_files : list string) :
  let photo_files := photo_files_of all_files in
  let t := tally_photos extract_gps all_files in
  photos_with_gps t = flat_map (record_found extract_gps) photo_files
  /\ failure_log t = flat_map (failure_logged extract_gps) photo_files
  /\ no_gps_count t = length (List.filter (gps_absent extract_gps) photo_files)
  /\ failed_count t = length (failure_log t)
  /\ length (photos_with_gps t) + no_gps_count t + failed_count t
     = length photo_files
  /\ map photo_name (photos_with_gps t) `sublist_of` all_files
  /\ Forall (fun r => is_photo_file (photo_name r) = true
                      /\ extract_gps (photo_name r)
                         = GpsFound (lat r) (lon r) (timestamp r))
            (photos_with_gps t)
  /\ Forall (fun f => extract_gps (fst f) = GpsRaised (snd f)) (failure_log t)
  /\ (forall photo la lo ts,
        In photo photo_files -> extract_gps photo = GpsFound la lo ts ->
        In (mkGeoRecord photo la lo ts) (photos_with_gps t))
  /\ (forall photo e,
        In photo photo_files -> extract_gps photo = GpsRaised e ->
        In (photo, e) (failure_log t)).
Proof.
  intros photo_files t. subst photo_files t. unfold tally_photos.
  destruct (tally_photo_exact extract_gps (photo_files_of all_files)
                              (mkPhotoTally [] 0 0 []))
    as (Hg & Hl & Hn & Hf).
  destruct (tally_photo_run extract_gps (photo_files_of all_files)
                            (mkPhotoTally [] 0 0 []))
    as (Hcount & (added & Hadd & Hsub & Hall) & (failed & Hlog & Hflen & Hfall)).
  cbn [photos_with_gps no_gps_count failed_count failure_log app length Nat.add] in *.
  split; [exact Hg|]. split; [exact Hl|]. split; [exact Hn|].
  split; [now rewrite Hf, Hl|]. split; [exact Hcount|].
  rewrite Hadd, Hlog. split; [|split; [|split; [|split]]].
  - etransitivity; [exact Hsub | apply filter_sublist_of].
  - apply Forall_forall. intros r Hr. split.
    + assert (Hin : In (photo_name r) (photo_files_of all_files)).
      { apply list_elem_of_In. eapply sublist_subseteq; [exact Hsub|].
        apply list_elem_of_In, in_map, list_elem_of_In, Hr. }
      unfold photo_files_of in Hin. apply filter_In in Hin. tauto.
    + rewrite Forall_forall in Hall. now apply Hall.
  - exact Hfall.
  - intros photo la lo ts Hin Hex. rewrite <- Hadd, Hg. apply in_flat_map.
    exists photo. split; [exact Hin|]. unfold record_found. rewrite Hex. now left.
  - intros photo e Hin Hex. rewrite <- Hlog, Hl. apply in_flat_map.
    exists photo. split; [exact Hin|]. unfold failure_logged. rewrite Hex. now left.
Qed.

(** ** Which files are photographs *)

Section PhotoNameFacts.
Local Open Scope string_scope.

Lemma substring_all (s : string) : substring 0 (String.length s) s = s.
Proof. induction s as [|c s IH]; cbn; [reflexivity | now rewrite IH]. Qed.

Lemma substring_tail (a b : string) :
  substring (String.length a) (String.length b) (a ++ b) = b.
Proof. induction a as [|c a IH]; cbn; [apply substring_all | exact IH]. Qed.

Lemma substring_split (n : nat) (s : string) :
  n <= String.length s ->
  s = substring 0 n s ++ substring n (String.length s - n) s.
Proof.
  revert n. induction s as [|c s IH]; intros n Hn.
  - destruct n; reflexivity.
  - destruct n as [|n]; cbn.
    + now rewrite substring_all.
    + cbn in Hn. rewrite <- (IH n) by lia. reflexivity.
Qed.

Lemma substring_prefix_length (n : nat) (s : string) :
  n <= String.length s -> String.length (substring 0 n s) = n.
Proof.
  revert n. induction s as [|c s IH]; intros [|n] Hn; cbn in *; try lia.
  rewrite IH by lia. reflexivity.
Qed.

Lemma str_endswith_iff (s suffix : string) :
  str_endswith s suffix = true <-> exists stem, s = stem ++ suffix.
Proof.
  unfold str_endswith. split.
  - intros H. apply andb_prop in H as [Hlen Heq].
    apply Nat.leb_le in Hlen. apply String.eqb_eq in Heq.
    exists (substring 0 (String.length s - String.length suffix) s).
    pose proof (substring_split (String.length s - String.length suffix) s
                                ltac:(lia)) as Hsplit.
    replace (String.length s - (String.length s - String.length suffix))
      with (String.length suffix) in Hsplit by lia.
    rewrite Heq in Hsplit. exact Hsplit.
  - intros [stem ->]. rewrite str_length_app.
    replace (String.length stem + String.length suffix - String.length suffix)
      with (String.length stem) by lia.
    rewrite substring_tail, String.eqb_refl, andb_true_r. apply Nat.leb_le. lia.
Qed.

Lemma str_lower_app (a b : string) : str_lower (a ++ b) = str_lower a ++ str_lower b.
Proof. induction a as [|c a IH]; cbn; [reflexivity | now rewrite IH]. Qed.

Lemma str_lower_length (s : string) : String.length (str_lower s) = String.length s.
Proof. induction s as [|c s IH]; cbn; [reflexivity | now rewrite IH]. Qed.

Lemma lowered_endswith (file suffix : string) :
  str_endswith (str_lower file) suffix = true
  <-> exists stem ext, file = stem ++ ext /\ str_lower ext = suffix.
Proof.
  rewrite str_endswith_iff. split.
  - intros [stem' Hlow].
    assert (Hlen : String.length stem' <= String.length file).
    { apply (f_equal String.length) in Hlow.
      rewrite str_lower_length, str_length_app in Hlow. lia. }
    pose proof (substring_split (String.length stem') file Hlen) as Hsplit.
    set (a := substring 0 (String.length stem') file) in *.
    set (b := substring (String.length stem')
                        (String.length file - String.length stem') file) in *.
    exists a, b. split; [exact Hsplit|].
    rewrite Hsplit, str_lower_app in Hlow.
    apply str_app_inv_length in Hlow; [tauto|].
    rewrite str_lower_length. subst a. now apply substring_prefix_length.
  - intros (stem & ext & -> & <-). exists (str_lower stem). apply str_lower_app.
Qed.
End PhotoNameFacts.

(** X11.  A file counts as a photograph exactly when it ends in [.jpg],
    [.jpeg] or [.png], in any mix of upper and lower case. *)
Theorem is_photo_file_iff (file : string) :
  is_photo_file file = true
  <-> exists stem ext,
      file = (stem ++ ext)%string
      /\ (str_lower ext = ".jpg"%string \/ str_lower ext = ".jpeg"%string
          \/ str_lower ext = ".png"%string).
Proof.
  unfold is_photo_file. rewrite !orb_true_iff, !lowered_endswith. split.
  - intros [[H|H]|H]; destruct H as (stem & ext & Hf & He); exists stem, ext; auto.
  - intros (stem & ext & Hf & [He|[He|He]]); [left; left | left; right | right];
      exists stem, ext; auto.
Qed.

(** ** Neighbours share a cluster *)

Section ClosureFacts.
Variable within_eps : Coord -> Coord -> bool.
Variable X : list Coord.

Local Abbreviation adj := (DBSCAN.adj within_eps X).
Local Abbreviation label_point := (DBSCAN.label_point within_eps X).
Local Abbreviation expand := (DBSCAN.expand within_eps X).
Local Abbreviation visit := (DBSCAN.visit within_eps X).
Local Abbreviation noise := DBSCAN.noise.

Hypothesis adj_refl : forall i, i < length X -> adj i i = true.
Hypothesis adj_sym : forall u v, adj u v = adj v u.

Lemma adj_in_range (u v : nat) : adj u v = true -> v < length X.
Proof.
  unfold DBSCAN.adj. destruct (X !! u); [|discriminate].
  destruct (X !! v) eqn:Hv; [|discriminate]. intros _. eapply lookup_lt_Some, Hv.
Qed.

Lemma label_point_awaiting (c : Z) (i : nat) (stack : list nat) (L : list Z) :
  c <> noise -> length L = length X ->
  awaiting within_eps X L c i stack ->
  forall u v,
    fst (label_point c i stack L) !! u = Some c -> adj u v = true ->
    fst (label_point c i stack L) !! v = Some noise ->
    In v (snd (label_point c i stack L)).
Proof.
  intros Hc Hlen Hwait u v. unfold DBSCAN.label_point.
  destruct (DBSCAN.unlabeled L i) eqn:Hu; cbn [fst snd].
  - apply unlabeled_true in Hu.
    assert (Hi : i < length X) by (rewrite <- Hlen; eapply lookup_lt_Some, Hu).
    rewrite (is_core_all within_eps X adj_refl i Hi).
    intros Hlu Hadj Hlv.
    assert (Hvi : v <> i).
    { intros ->. rewrite list_lookup_insert_eq in Hlv by lia. congruence. }
    rewrite list_lookup_insert_ne in Hlv by congruence.
    apply in_or_app. destruct (decide (u = i)) as [->|Hui].
    + left. rewrite <- in_rev. apply filter_In. split.
      * unfold DBSCAN.neighborhoods. apply filter_In. split; [|exact Hadj].
        apply in_seq. pose proof (adj_in_range i v Hadj). lia.
      * apply unlabeled_true. now rewrite list_lookup_insert_ne by congruence.
    + right. rewrite list_lookup_insert_ne in Hlu by congruence.
      destruct (Hwait u v Hlu Hadj Hlv) as [->|Hin]; [contradiction | exact Hin].
  - intros Hlu Hadj Hlv. destruct (Hwait u v Hlu Hadj Hlv) as [->|Hin]; [|exact Hin].
    apply unlabeled_true in Hlv. congruence.
Qed.

Lemma expand_closed (c : Z) (fuel i : nat) (stack : list nat) (L L' : list Z) :
  c <> noise -> length L = length X ->
  awaiting within_eps X L c i stack ->
  expand c fuel i stack L = Some L' ->
  forall u v, L' !! u = Some c -> adj u v = true -> L' !! v <> Some noise.
Proof.
  intros Hc. revert i stack L.
  induction fuel as [|fuel IH]; intros i stack L Hlen Hwait Hrun; [discriminate|].
  cbn [DBSCAN.expand] in Hrun.
  pose proof (label_point_awaiting c i stack L Hc Hlen Hwait) as Hnext.
  pose proof (label_point_length within_eps X c i stack L) as Hlen1.
  destruct (label_point c i stack L) as [L1 stack1]. cbn [fst snd] in *.
  destruct stack1 as [|j stack1].
  - injection Hrun as <-. intros u v Hu Hadj Hv. exact (Hnext u v Hu Hadj Hv).
  - apply (IH j stack1 L1); [congruence | | exact Hrun].
    intros u v Hu Hadj Hv. destruct (Hnext u v Hu Hadj Hv) as [<-|Hin]; auto.
Qed.

Lemma expand_closed_labels (num : Z) (i : nat) (L L' : list Z) :
  well_labelled within_eps X num L ->
  closed_labels within_eps X L ->
  expand num (DBSCAN.fuel X) i [] L = Some L' ->
  closed_labels within_eps X L'.
Proof.
  intros (Hlen & Hnum & Hbound & _) Hclosed Hrun.
  assert (Hc : num <> noise) by (unfold DBSCAN.noise; lia).
  destruct (expand_facts within_eps X num _ i [] L L' Hrun) as (Hl & Hkeep & Hnew & _).
  assert (Hfresh : forall u, L !! u <> Some num).
  { intros u Hu. apply Hbound in Hu as [Hu|Hu]; [congruence | lia]. }
  assert (Hwait : awaiting within_eps X L num i [])
    by (intros u v Hu; now apply Hfresh in Hu).
  pose proof (expand_closed num _ i [] L L' Hc Hlen Hwait Hrun) as Hdone.
  intros u v c Hcn Hu Hadj.
  destruct (Hnew u c Hu) as [Hold|[Hnoise ->]].
  - apply Hkeep; [|exact Hcn]. exact (Hclosed u v c Hcn Hold Hadj).
  - assert (Hv : v < length L') by (rewrite Hl, Hlen; exact (adj_in_range u v Hadj)).
    destruct (lookup_lt_is_Some_2 L' v Hv) as [c' Hc'].
    destruct (Z.eq_dec c' num) as [->|Hne]; [exact Hc'|]. exfalso.
    destruct (Hnew v c' Hc') as [Hold|[_ ->]]; [|congruence].
    assert (Hcn' : c' <> noise).
    { intros ->. exact (Hdone u v Hu Hadj Hc'). }
    rewrite adj_sym in Hadj.
    pose proof (Hclosed v u c' Hcn' Hold Hadj). congruence.
Qed.

Lemma visit_closed_labels (points : list nat) (num : Z) (L Lf : list Z) :
  well_labelled within_eps X num L ->
  closed_labels within_eps X L ->
  visit points num L = Some Lf ->
  closed_labels within_eps X Lf.
Proof.
  revert num L. induction points as [|i points IH]; intros num L Hwell Hclosed Hrun.
  - injection Hrun as <-. exact Hclosed.
  - cbn [DBSCAN.visit] in Hrun.
    destruct (negb (DBSCAN.unlabeled L i) || negb (DBSCAN.is_core within_eps X i)).
    + eapply IH; eassumption.
    + destruct (expand num (DBSCAN.fuel X) i [] L) as [L1|] eqn:Hexp; [|discriminate].
      apply (IH (num + 1)%Z L1); [| |exact Hrun].
      * eapply expand_well_labelled; eassumption.
      * eapply expand_closed_labels; eassumption.
Qed.

Lemma fit_closed_labels (L : list Z) :
  DBSCAN.fit within_eps X = Some L -> closed_labels within_eps X L.
Proof.
  intros Hfit.
  apply (visit_closed_labels (seq 0 (length X)) 0 (replicate (length X) noise));
    [now apply replicate_well_labelled | | exact Hfit].
  intros u v c Hc Hu. apply lookup_replicate in Hu as [-> _]. congruence.
Qed.
End ClosureFacts.

(** X12.  When the radius test is symmetric and holds between a point and
    itself, a photograph within the radius of a member of a cluster is a
    member of that cluster too: no two clusters hold photographs within the
    radius of each other. *)
Theorem cluster_points_neighbours_together (within_eps : Coord -> Coord -> bool)
        (photos : list GeoRecord) :
  (forall r, In r photos -> within_eps (coord_of r) (coord_of r) = true) ->
  (forall p q, In p photos -> In q photos ->
               within_eps (coord_of p) (coord_of q) = within_eps (coord_of q) (coord_of p)) ->
  exists clusters : Clusters,
    cluster_points within_eps photos = Some clusters
    /\ forall l ms a b,
        In (l, ms) clusters -> In a ms -> In b photos ->
        within_eps (coord_of a) (coord_of b) = true -> In b ms.
Proof.
  intros Hrefl Hsym.
  destruct (cluster_points_returns within_eps photos) as (L & Hlen & Hfit & Hcp).
  exists (group_by_label L photos). split; [exact Hcp|].
  intros l ms a b Hin Ha Hb Hnear.
  destruct (group_by_label_spec L photos Hlen) as (_ & _ & Hspec).
  destruct (Hspec l ms Hin) as (-> & _ & Hl).
  assert (Hphotos : photos <> []).
  { intros ->. destruct L; [destruct Hl | discriminate]. }
  specialize (Hfit Hphotos).
  apply labelled_In in Ha as (i & Hi & Hai).
  apply list_elem_of_In, list_elem_of_lookup in Hb as [j Hbj].
  assert (Hne : l <> DBSCAN.noise).
  { exact (fit_no_noise within_eps (map coord_of photos)
                        (adj_refl_records within_eps photos Hrefl) L Hfit i l Hi). }
  assert (Hadj : DBSCAN.adj within_eps (map coord_of photos) i j = true).
  { unfold DBSCAN.adj. rewrite !list_lookup_fmap, Hai, Hbj. exact Hnear. }
  pose proof (fit_closed_labels within_eps (map coord_of photos)
                (adj_refl_records within_eps photos Hrefl)
                (adj_sym_records within_eps photos Hsym) L Hfit i j l Hne Hi Hadj) as Hj.
  apply labelled_In. eauto.
Qed.

Lemma cluster_points_neighbours_together_witness :
  exists clusters : Clusters,
    cluster_points (within_box 1) photos_in_a_row = Some clusters
    /\ forall l ms a b,
        In (l, ms) clusters -> In a ms -> In b photos_in_a_row ->
        within_box 1 (coord_of a) (coord_of b) = true -> In b ms.
Proof.
  apply (cluster_points_neighbours_together (within_box 1) photos_in_a_row).
  - intros r Hr. cbn in Hr.
    destruct Hr as [<-|[<-|[<-|[<-|[]]]]]; vm_compute; reflexivity.
  - intros p q Hp Hq. cbn in Hp, Hq.
    destruct Hp as [<-|[<-|[<-|[<-|[]]]]];
      destruct Hq as [<-|[<-|[<-|[<-|[]]]]]; vm_compute; reflexivity.
Defined.

(** ** The track pass, continued *)

Section TrackFacts2.
Variable py_float : string -> option float.

Lemma outcome_cases (placemark : KmlPlacemark) :
  match outcome py_float placemark with
  | Skipped => has_coordinates placemark = false
  | Converted entry =>
      has_coordinates placemark = true
      /\ tp_name entry = pm_name placemark
      /\ tp_description entry = pm_when placemark
      /\ tp_coordinates entry <> None
      /\ styled entry
  | FailedBefore _ => has_coordinates placemark = true
  | FailedAfter stub =>
      has_coordinates placemark = true /\ tp_coordinates stub = None /\ styled stub
  end.
Proof.
  unfold outcome, has_coordinates.
  destruct (pm_point placemark) as [[[t|]|]|]; try reflexivity.
  destruct (PyStr.split "," (PyStr.strip t)) as [|lon [|lat fields]]; try reflexivity.
  destruct (py_float lon) as [x|]; [destruct (py_float lat) as [y|]|];
    cbn; unfold styled; cbn; repeat split; discriminate.
Qed.

Lemma walk_skips (placemarks : list KmlPlacemark) :
  walk py_float (List.filter has_coordinates placemarks) = walk py_float placemarks.
Proof.
  induction placemarks as [|placemark rest IH]; [reflexivity|].
  cbn [List.filter]. pose proof (outcome_cases placemark) as Hcase.
  destruct (has_coordinates placemark) eqn:Hhas.
  - cbn [walk]. rewrite IH. reflexivity.
  - cbn [walk]. unfold exn_of, entries_of.
    destruct (outcome py_float placemark); try (destruct Hcase; discriminate);
      try discriminate.
    cbn [app]. rewrite IH. now destruct (walk py_float rest).
Qed.

Lemma walk_stub_last (placemarks : list KmlPlacemark) (i : nat) (t : TrackPlacemark) :
  fst (walk py_float placemarks) !! i = Some t ->
  tp_coordinates t = None ->
  S i = length (fst (walk py_float placemarks))
  /\ snd (walk py_float placemarks) <> None.
Proof.
  revert i. induction placemarks as [|placemark rest IH]; intros i Hi Hnone.
  - destruct i; discriminate.
  - cbn [walk] in *. pose proof (outcome_cases placemark) as Hcase.
    unfold exn_of, entries_of, leftover_of in *.
    destruct (outcome py_float placemark) as [|entry|e|stub]; cbn [fst snd app] in *.
    + now apply IH.
    + destruct i as [|i]; cbn in Hi.
      * injection Hi as <-. destruct Hcase as (_ & _ & _ & Hsome & _). contradiction.
      * destruct (IH i Hi Hnone) as [Hlen Hexn]. cbn. split; [lia | exact Hexn].
    + destruct i; discriminate.
    + destruct i as [|[|i]]; try discriminate. split; [reflexivity | discriminate].
Qed.

Lemma walk_all_converted (placemarks : list KmlPlacemark) :
  Forall (fun placemark => failed py_float placemark = false) placemarks ->
  snd (walk py_float placemarks) = None
  /\ map (fun t => (tp_name t, tp_description t)) (fst (walk py_float placemarks))
     = map (fun placemark => (pm_name placemark, pm_when placemark))
           (List.filter has_coordinates placemarks)
  /\ Forall (fun t => tp_coordinates t <> None) (fst (walk py_float placemarks)).
Proof.
  induction 1 as [|placemark rest Hok _ IH]; [repeat split; constructor|].
  destruct IH as (Hexn & Hmap & Hall).
  cbn [walk List.filter]. pose proof (outcome_cases placemark) as Hcase.
  unfold failed in Hok. unfold exn_of, entries_of.
  destruct (outcome py_float placemark) as [|entry|e|stub]; try discriminate;
    cbn [fst snd app].
  - rewrite Hcase. auto.
  - destruct Hcase as (-> & Hname & Hdesc & Hsome & _).
    cbn [map]. rewrite Hname, Hdesc, Hmap. repeat split; auto.
Qed.


End TrackFacts2.

(** X13.  Whatever the file, [process_kml_file] returns normally, leaves the
    tracks already in the folder as they are and appends after them, and
    prints at most one diagnostic.  An unreadable or malformed file appends
    nothing.  A track without coordinates can only be the last one
    appended, and then a diagnostic was printed. *)
Theorem process_kml_file_appends (py_float : string -> option float)
        (file_path : string) (file : KmlFile) (s : TrackState) :
  exists tracks lines,
    process_kml_file py_float file_path file s
    = (Returned tt, {| folder_tracks := folder_tracks s ++ tracks;
                       stdout := stdout s ++ lines |})
    /\ length lines <= 1
    /\ (file = None -> tracks = [] /\ lines = [KmlFileError file_path ParseError])
    /\ (forall i t, tracks !! i = Some t -> tp_coordinates t = None ->
                    S i = length tracks /\ lines <> []).
Proof.
  exists (kml_tracks py_float file), (kml_stdout py_float file_path file).
  split; [apply process_kml_file_summary|].
  unfold kml_tracks, kml_stdout. destruct file as [placemarks|].
  - split; [destruct (snd (walk py_float placemarks)); cbn; lia|].
    split; [discriminate|]. intros i t Hi Hnone.
    destruct (walk_stub_last py_float placemarks i t Hi Hnone) as [Hlen Hexn].
    split; [exact Hlen|]. destruct (snd (walk py_float placemarks)); [discriminate|].
    congruence.
  - split; [cbn; lia|]. split; [auto|]. intros i t Hi. destruct i; discriminate.
Qed.


(** X15.  Placemarks without a point, or with a point without coordinates,
    are passed over: a file gives the same result as the file without
    them. *)
Theorem process_kml_file_skips (py_float : string -> option float)
        (file_path : string) (placemarks : list KmlPlacemark) (s : TrackState) :
  process_kml_file py_float file_path (Some placemarks) s
  = process_kml_file py_float file_path
                     (Some (List.filter has_coordinates placemarks)) s.
Proof.
  rewrite !process_kml_file_summary. unfold kml_tracks, kml_stdout.
  now rewrite walk_skips.
Qed.

(** X16.  When no placemark of a file fails, the file is converted without
    a diagnostic: one track for each placemark that has coordinates, in
    order, with the placemark's name as name, the text of its timestamp as
    description, and coordinates. *)
Theorem process_kml_file_converts (py_float : string -> option float)
        (file_path : string) (placemarks : list KmlPlacemark) (s : TrackState) :
  Forall (fun placemark => failed py_float placemark = false) placemarks ->
  exists tracks,
    process_kml_file py_float file_path (Some placemarks) s
    = (Returned tt, {| folder_tracks := folder_tracks s ++ tracks; stdout := stdout s |})
    /\ map (fun t => (tp_name t, tp_description t)) tracks
       = map (fun placemark => (pm_name placemark, pm_when placemark))
             (List.filter has_coordinates placemarks)
    /\ Forall (fun t => tp_coordinates t <> None) tracks.
Proof.
  intros Hok. destruct (walk_all_converted py_float placemarks Hok) as (Hexn & Hmap & Hall).
  exists (fst (walk py_float placemarks)). split; [|auto].
  rewrite process_kml_file_summary. unfold kml_tracks, kml_stdout, extended.
  now rewrite Hexn, app_nil_r.
Qed.

Lemma process_kml_file_converts_witness :
  exists tracks,
    process_kml_file Decimal.float_of_decimal "group_1.kml"
                     (Some [good_placemark; mkKmlPlacemark None None None; good_placemark])
                     empty_tracks
    = (Returned tt, {| folder_tracks := [] ++ tracks; stdout := [] |})
    /\ map (fun t => (tp_name t, tp_description t)) tracks
       = [(Some (Some "IMG_1.jpg"), Some (Some "2024-01-02T03:04:05Z"));
          (Some (Some "IMG_1.jpg"), Some (Some "2024-01-02T03:04:05Z"))]%string
    /\ Forall (fun t => tp_coordinates t <> None) tracks.
Proof.
  apply (process_kml_file_converts Decimal.float_of_decimal "group_1.kml"
           [good_placemark; mkKmlPlacemark None None None; good_placemark] empty_tracks).
  repeat constructor.
Defined.

(** X17.  A run is the concatenation of its files: the folder ends up with
    what it held, then the tracks of each point document in turn, then the
    tracks of each geotag document in turn, each file contributing what it
    contributes on its own, however often it is listed; and the run returns
    normally. *)
Theorem process_tracks_concatenates (py_float : string -> option float)
        (kml_files : list (string * KmlFile))
        (xmp_files : list (string * string * XmpFile)) (s : TrackState) :
  fst (process_tracks py_float kml_files xmp_files s) = Returned tt
  /\ folder_tracks (snd (process_tracks py_float kml_files xmp_files s))
     = folder_tracks s
       ++ flat_map (fun f => folder_tracks
                               (snd (process_kml_file py_float (fst f) (snd f)
                                                      empty_tracks)))
                   kml_files
       ++ flat_map (fun f => folder_tracks
                               (snd (process_xmp_file py_float (fst (fst f))
                                                      (snd (fst f)) (snd f) empty_tracks)))
                   xmp_files.
Proof.
  destruct (process_tracks_summary py_float kml_files xmp_files s) as [lines ->].
  split; [reflexivity|]. cbn [snd extended folder_tracks]. do 2 f_equal.
  - unfold kml_all. apply flat_map_ext. intros f.
    now rewrite process_kml_file_summary.
  - unfold xmp_all. apply flat_map_ext. intros f.
    now rewrite process_xmp_file_summary.
Qed.




(** ** A point document read back by the track pass *)

Section ReadBackFacts.
Local Open Scope string_scope.

Lemma space_width_plain (c : ascii) (s : string) :
  (nat_of_ascii c <? 128)%nat = true -> PyStr.is_space c = false ->
  PyStr.space_width (String c s) = 0.
Proof.
  intros Hc Hs. apply Nat.ltb_lt in Hc. unfold PyStr.space_width. rewrite Hs.
  assert (H194 : (nat_of_ascii c =? 194)%nat = false) by (apply Nat.eqb_neq; lia).
  assert (H225 : (nat_of_ascii c =? 225)%nat = false) by (apply Nat.eqb_neq; lia).
  assert (H226 : (nat_of_ascii c =? 226)%nat = false) by (apply Nat.eqb_neq; lia).
  assert (H227 : (nat_of_ascii c =? 227)%nat = false) by (apply Nat.eqb_neq; lia).
  destruct s as [|c1 [|c2 s2]]; cbn zeta; rewrite ?H194, ?H225, ?H226, ?H227;
    reflexivity.
Qed.

Lemma rstrip_plain (s : string) :
  all_chars (fun c => (nat_of_ascii c <? 128)%nat && negb (PyStr.is_space c)) s = true ->
  PyStr.rstrip s = s.
Proof.
  induction s as [|c s IH]; [reflexivity|]. cbn [all_chars PyStr.rstrip]. intros H.
  apply andb_prop in H as [Hc Hs]. rewrite (IH Hs).
  apply andb_prop in Hc as [Hascii Hspace]. apply negb_true_iff in Hspace.
  cbn zeta. now rewrite (space_width_plain c s Hascii Hspace).
Qed.

Lemma strip_plain (s : string) :
  all_chars (fun c => (nat_of_ascii c <? 128)%nat && negb (PyStr.is_space c)) s = true ->
  PyStr.strip s = s.
Proof.
  intros H. unfold PyStr.strip.
  assert (Hl : PyStr.lstrip s = s).
  { destruct s as [|c s]; [reflexivity|]. cbn [all_chars] in H.
    apply andb_prop in H as [Hc _]. apply andb_prop in Hc as [Hascii Hspace].
    apply negb_true_iff in Hspace. unfold PyStr.lstrip. cbn [PyStr.lstrip_from].
    now rewrite (space_width_plain c s Hascii Hspace). }
  rewrite Hl. now apply rstrip_plain.
Qed.

Lemma split_last_field (b : string) :
  all_chars (fun c => negb (Ascii.eqb c ",")) b = true -> PyStr.split "," b = [b].
Proof.
  induction b as [|c b IH]; [reflexivity|]. cbn [all_chars PyStr.split]. intros H.
  apply andb_prop in H as [Hc Hb]. apply negb_true_iff in Hc. now rewrite Hc, (IH Hb).
Qed.

Lemma split_first_field (a b : string) :
  all_chars (fun c => negb (Ascii.eqb c ",")) a = true ->
  PyStr.split "," (a ++ String "," b) = a :: PyStr.split "," b.
Proof.
  induction a as [|c a IH]; [reflexivity|]. cbn [all_chars String.append PyStr.split].
  intros H. apply andb_prop in H as [Hc Ha]. apply negb_true_iff in Hc.
  now rewrite Hc, (IH Ha).
Qed.

Lemma coordinates_text_fields (a b : string) :
  plain_number a = true -> plain_number b = true ->
  PyStr.split "," (PyStr.strip (a ++ "," ++ b)) = [a; b]
  /\ parsed_text (a ++ "," ++ b) = Some (a ++ "," ++ b).
Proof.
  unfold plain_number. intros Ha Hb.
  apply andb_prop in Ha as [_ Ha]. apply andb_prop in Hb as [_ Hb].
  assert (Hcomma : forall s, all_chars number_char s = true ->
                             all_chars (fun c => negb (Ascii.eqb c ",")) s = true).
  { intros s. apply all_chars_impl. unfold number_char. intros c Hc.
    apply andb_prop in Hc as [Hc _]. now apply andb_prop in Hc. }
  assert (Hspace : forall s, all_chars number_char s = true ->
                             all_chars (fun c => (nat_of_ascii c <? 128)%nat
                                                 && negb (PyStr.is_space c)) s = true).
  { intros s. apply all_chars_impl. unfold number_char. intros c Hc.
    apply andb_prop in Hc as [Hc Hs]. apply andb_prop in Hc as [Hc _].
    now rewrite Hc, Hs. }
  split.
  - rewrite strip_plain.
    + change ("," ++ b) with (String "," b).
      rewrite split_first_field by auto. now rewrite split_last_field by auto.
    + rewrite all_chars_app. change ("," ++ b) with (String "," b).
      cbn [all_chars]. rewrite !Hspace by assumption. reflexivity.
  - change ("," ++ b) with (String "," b). now destruct a.
Qed.

Lemma timestamp_formatted_text (ts : string) :
  parsed_text (timestamp_formatted ts) = Some (timestamp_formatted ts).
Proof.
  unfold timestamp_formatted.
  destruct (PyStr.replace " " "T" None (PyStr.replace ":" "-" (Some 2) ts)); reflexivity.
Qed.

Variable repr : float -> string.
Variable py_float : string -> option float.

Lemma outcome_of_record (r : GeoRecord) :
  renders repr py_float r ->
  outcome py_float (placemark_as_read repr (placemark_of r))
  = Converted (track_of_record repr r).
Proof.
  intros (Hlon & Hlat & Hx & Hy).
  destruct (coordinates_text_fields _ _ Hlon Hlat) as [Hsplit Htext].
  unfold outcome, track_of_record, placemark_of.
  destruct (truthy (timestamp r)) eqn:Htruthy.
  - destruct (timestamp r) as [ts|]; [|discriminate].
    cbn [py_insert take drop app placemark_as_read pm_point pm_name pm_when
         find_point find_name find_when].
    rewrite Htext, Hsplit, Hx, Hy, timestamp_formatted_text. reflexivity.
  - cbn [placemark_as_read pm_point pm_name pm_when find_point find_name find_when].
    rewrite Htext, Hsplit, Hx, Hy. reflexivity.
Qed.

Lemma walk_of_records (records : list GeoRecord) :
  Forall (renders repr py_float) records ->
  walk py_float (map (placemark_as_read repr) (map placemark_of records))
  = (map (track_of_record repr) records, None).
Proof.
  induction 1 as [|r records Hr _ IH]; [reflexivity|].
  cbn [map walk]. unfold exn_of, entries_of.
  rewrite (outcome_of_record r Hr), IH. reflexivity.
Qed.
End ReadBackFacts.

(** X20.  When lxml takes every text of the document, so that
    [create_kml] writes it, the document read back by the track pass is
    converted without a diagnostic into one track per record, in order: the
    photograph's name as name, the normalised capture time (when there is
    one) as description, and the line from (lon, lat) to
    (lon + 0.000001, lat + 0.000001), provided that [float] reads back the
    rendering of each coordinate and the rendering holds no comma and no
    space. *)
Theorem point_document_read_back (xml_compatible : string -> bool)
        (repr : float -> string) (py_float : string -> option float)
        (cluster_points_list : list GeoRecord) (cluster_number total_clusters : nat)
        (folder_name file_path : string) (s : TrackState) :
  forallb xml_compatible
          (document_texts cluster_points_list cluster_number total_clusters folder_name)
  = true ->
  Forall (renders repr py_float) cluster_points_list ->
  exists document : PointDocument,
    create_kml xml_compatible cluster_points_list cluster_number total_clusters
               folder_name = Returned document
    /\ process_kml_file py_float file_path (document_as_read repr document) s
       = (Returned tt,
          {| folder_tracks :=
               folder_tracks s ++ map (track_of_record repr) cluster_points_list;
             stdout := stdout s |}).
Proof.
  intros Htexts Hall. rewrite create_kml_spec, Htexts.
  eexists. split; [reflexivity|].
  rewrite process_kml_file_summary.
  unfold document_as_read, kml_tracks, kml_stdout, extended.
  cbn [doc_placemarks].
  rewrite (walk_of_records repr py_float cluster_points_list Hall).
  cbn [fst snd]. now rewrite app_nil_r.
Qed.

Lemma point_document_read_back_witness :
  exists document : PointDocument,
    create_kml Xml.compatible
               [mkGeoRecord "IMG_1.jpg" 20 10 (Some "2024:01:02 03:04:05");
                mkGeoRecord "IMG_2.jpg" 20 10 None] 1 1 "trip" = Returned document
    /\ process_kml_file Decimal.float_of_decimal "group_1.kml"
                        (document_as_read scenario_repr document) empty_tracks
       = (Returned tt,
          {| folder_tracks :=
               [] ++ map (track_of_record scenario_repr)
                         [mkGeoRecord "IMG_1.jpg" 20 10 (Some "2024:01:02 03:04:05");
                          mkGeoRecord "IMG_2.jpg" 20 10 None];
             stdout := [] |}).
Proof.
  apply (point_document_read_back Xml.compatible scenario_repr Decimal.float_of_decimal
           [mkGeoRecord "IMG_1.jpg" 20 10 (Some "2024:01:02 03:04:05");
            mkGeoRecord "IMG_2.jpg" 20 10 None] 1 1 "trip" "group_1.kml" empty_tracks).
  - vm_compute. reflexivity.
  - repeat constructor; vm_compute; reflexivity.
Defined.

(** ** Flattening a directory *)

Section FlattenFacts.
Local Open Scope string_scope.

Lemma rfind_spec (c : ascii) (s : string) (d : nat) :
  rfind c s = Some d ->
  d < String.length s
  /\ exists e, substring d (String.length s - d) s = String c e /\ rfind c e = None.
Proof.
  revert d. induction s as [|a s IH]; intros d; cbn [rfind]; [discriminate|].
  destruct (rfind c s) as [i|] eqn:Hr.
  - intros H. injection H as <-. destruct (IH i eq_refl) as (Hi & e & He & Hnone).
    split; [cbn; lia|]. exists e. cbn. auto.
  - destruct (Ascii.eqb_spec a c) as [->|_]; [|discriminate].
    intros H. injection H as <-. split; [cbn; lia|]. exists s.
    cbn. rewrite substring_all. auto.
Qed.

Lemma existsb_eqb_In (name : string) (existing : list string) :
  existsb (String.eqb name) existing = true <-> In name existing.
Proof.
  rewrite existsb_exists. split.
  - intros (x & Hx & Heq). apply String.eqb_eq in Heq. now subst.
  - intros H. exists name. split; [exact H | apply String.eqb_refl].
Qed.

Lemma forallb_false_exists {B : Type} (f : B -> bool) (l : list B) :
  forallb f l = false -> exists x, In x l /\ f x = false.
Proof.
  induction l as [|x l IH]; [discriminate|]. cbn.
  destruct (f x) eqn:Hx; [|exists x; auto].
  intros H. destruct (IH H) as (y & Hy & Hfy). exists y. auto.
Qed.

Variables base ext : string.
Variable exists_ : string -> bool.

Lemma next_free_first (m fuel counter : nat) :
  m < fuel ->
  exists_ (numbered base ext (counter + m)) = false ->
  exists k,
    counter <= k <= counter + m
    /\ next_free fuel exists_ base ext (numbered base ext counter) (S counter)
       = Some (numbered base ext k)
    /\ exists_ (numbered base ext k) = false
    /\ forall j, counter <= j < k -> exists_ (numbered base ext j) = true.
Proof.
  revert fuel counter. induction m as [|m IH]; intros fuel counter Hfuel Hfree.
  - destruct fuel as [|fuel]; [lia|]. rewrite Nat.add_0_r in Hfree.
    exists counter. cbn [next_free]. rewrite Hfree.
    repeat split; try lia; try assumption; try (intros j Hj; lia).
  - destruct fuel as [|fuel]; [lia|]. cbn [next_free].
    destruct (exists_ (numbered base ext counter)) eqn:Hc.
    + destruct (IH fuel (S counter) ltac:(lia)) as (k & Hk & Hrun & Hkfree & Hbelow).
      { now replace (S counter + m) with (counter + S m) by lia. }
      exists k. repeat split; try lia; try assumption.
      intros j Hj. destruct (Nat.eq_dec j counter) as [->|Hne]; [exact Hc|].
      apply Hbelow. lia.
    + exists counter. repeat split; try lia; try assumption; try (intros j Hj; lia).
Qed.
End FlattenFacts.

Lemma numbered_free (base ext : string) (existing : list string) :
  exists m, m <= length existing
            /\ existsb (String.eqb (numbered base ext (1 + m))) existing = false.
Proof.
  set (candidates := map (numbered base ext) (seq 1 (S (length existing)))).
  destruct (forallb (fun name => existsb (String.eqb name) existing) candidates)
    eqn:Hall.
  - exfalso. rewrite forallb_forall in Hall.
    assert (Hincl : incl candidates existing).
    { intros name Hname. apply existsb_eqb_In, Hall, Hname. }
    assert (Hnodup : List.NoDup candidates).
    { apply NoDup_map_injective; [apply numbered_inj | apply seq_NoDup]. }
    pose proof (NoDup_incl_length Hnodup Hincl) as Hlen.
    unfold candidates in Hlen. rewrite length_map, length_seq in Hlen. lia.
  - apply forallb_false_exists in Hall as (name & Hname & Hfree).
    apply in_map_iff in Hname as (k & <- & Hk). apply in_seq in Hk.
    exists (k - 1). split; [lia|]. now replace (1 + (k - 1)) with k by lia.
Qed.

Lemma destination_name_spec (existing : list string) (file : string) :
  exists destination,
    destination_name existing file = Some destination
    /\ ~ In destination existing
    /\ (~ In file existing -> destination = file)
    /\ (In file existing ->
        exists k, 1 <= k
                  /\ destination = numbered (fst (splitext file)) (snd (splitext file)) k
                  /\ forall j, 1 <= j < k ->
                               In (numbered (fst (splitext file)) (snd (splitext file)) j)
                                  existing).
Proof.
  unfold destination_name.
  destruct (existsb (String.eqb file) existing) eqn:Hfile.
  - destruct (splitext file) as [base ext]. cbn [fst snd].
    destruct (numbered_free base ext existing) as (m & Hm & Hfree).
    destruct (next_free_first base ext (fun name => existsb (String.eqb name) existing)
                              m (S (length existing)) 1 ltac:(lia) Hfree)
      as (k & Hk & Hrun & Hkfree & Hbelow).
    exists (numbered base ext k). cbn [next_free]. rewrite Hfile.
    split; [exact Hrun|]. split.
    + intros Hin. apply existsb_eqb_In in Hin. congruence.
    + split.
      * intros Hnot. exfalso. apply Hnot. now apply existsb_eqb_In.
      * intros _. exists k. split; [lia|]. split; [reflexivity|].
        intros j Hj. apply existsb_eqb_In. now apply Hbelow.
  - exists file. split; [reflexivity|].
    assert (Hnot : ~ In file existing).
    { intros Hin. apply existsb_eqb_In in Hin. congruence. }
    split; [exact Hnot|]. split; [reflexivity | contradiction].
Qed.

(** [splitext] cuts a file name in two parts that join back to the
    name; the extension is empty or starts at the last dot of the name; and
    the part before it is empty only for the empty name. *)
Theorem splitext_joins (name : string) :
  (fst (splitext name) ++ snd (splitext name))%string = name
  /\ (snd (splitext name) = EmptyString
      \/ exists e, snd (splitext name) = String "." e /\ rfind "." e = None)
  /\ (name <> EmptyString -> fst (splitext name) <> EmptyString).
Proof.
  unfold splitext. destruct (rfind "." name) as [dot|] eqn:Hdot.
  - destruct (rfind_spec "." name dot Hdot) as (Hlt & e & He & Hnone).
    destruct (all_chars (fun c => Ascii.eqb c ".") (substring 0 dot name)) eqn:Hdots;
      cbn [fst snd].
    + split; [|split; [now left | auto]].
      clear. induction name as [|c s IH]; cbn; [reflexivity | now rewrite IH].
    + split; [symmetry; apply substring_split; lia|].
      split; [right; eauto|]. intros _ Hempty. rewrite Hempty in Hdots. discriminate.
  - cbn [fst snd]. split; [|split; [now left | auto]].
    clear. induction name as [|c s IH]; cbn; [reflexivity | now rewrite IH].
Qed.

(** X21.  The name chosen for a file moved into the root directory is
    always found, and is never the name of an entry of the root.  It is the
    file's own name when that is free; otherwise it is the name numbered
    [_k] before the extension, for the first [k] from 1 whose numbered name
    is free. *)
Theorem destination_name_is_free (existing : list string) (file : string) :
  exists destination,
    destination_name existing file = Some destination
    /\ ~ In destination existing
    /\ (~ In file existing -> destination = file)
    /\ (In file existing ->
        exists k, 1 <= k
                  /\ destination = numbered (fst (splitext file)) (snd (splitext file)) k
                  /\ forall j, 1 <= j < k ->
                               In (numbered (fst (splitext file)) (snd (splitext file)) j)
                                  existing).
Proof. apply destination_name_spec. Qed.

(** X22.  Flattening gives every file of the subdirectories a name in the
    root directory: the names given are pairwise distinct and none is the
    name of an entry the root had before, so no move overwrites anything,
    whatever names the files bear. *)
Theorem flatten_moves_never_overwrite (existing : list string) (files : list string) :
  exists moves,
    flatten_moves existing files = Some moves
    /\ map fst moves = files
    /\ List.NoDup (map snd moves)
    /\ forall destination, In destination (map snd moves) -> ~ In destination existing.
Proof.
  revert existing. induction files as [|file files IH]; intros existing.
  - exists []. repeat split; [constructor | intros d []].
  - cbn [flatten_moves].
    destruct (destination_name_spec existing file) as (destination & -> & Hfree & _).
    destruct (IH (destination :: existing)) as (moves & -> & Hfst & Hnodup & Hnew).
    exists ((file, destination) :: moves). cbn [map fst snd].
    split; [reflexivity|]. split; [now rewrite Hfst|]. split.
    + constructor; [|exact Hnodup]. intros Hin. apply (Hnew destination Hin). now left.
    + intros d [<-|Hin]; [exact Hfree|]. intros Hd. apply (Hnew d Hin). now right.
Qed.

(** ** The shape of a normalised timestamp *)

Section TimestampShape.
Local Open Scope string_scope.

Lemma iso_chars_shape (n : nat) (s : string) :
  String.length (iso_chars n s) = String.length s
  /\ count_char " " (iso_chars n s) = 0
  /\ count_char ":" (iso_chars n s) = count_char ":" s - n.
Proof.
  revert n. induction s as [|c s IH]; intros n; [repeat split|].
  cbn [iso_chars]. destruct (Ascii.eqb c ":") eqn:Ecolon.
  - apply Ascii.eqb_eq in Ecolon. subst c. destruct n as [|k].
    + destruct (IH 0) as (Hl & Hs & Hc). cbn. rewrite Hl, Hs, Hc. repeat split. lia.
    + destruct (IH k) as (Hl & Hs & Hc). cbn. rewrite Hl, Hs, Hc. repeat split.
  - destruct (IH n) as (Hl & Hs & Hc).
    destruct (Ascii.eqb c " ") eqn:Espace; cbn [String.length count_char];
      rewrite ?Ecolon, ?Espace, Hl, Hs, Hc; repeat split.
Qed.

Lemma count_char_app (c : ascii) (a b : string) :
  count_char c (a ++ b) = count_char c a + count_char c b.
Proof.
  induction a as [|x a IH]; [reflexivity|]. cbn. destruct (Ascii.eqb x c); now rewrite IH.
Qed.
End TimestampShape.

(** X23.  The normalised timestamp is one character longer than the capture
    time and ends in [Z]; it holds no space; and it holds two colons fewer
    than the capture time, or none when the capture time has at most two:
    later colons, those of the time of day, stay. *)
Theorem timestamp_formatted_shape (ts : string) :
  String.length (timestamp_formatted ts) = S (String.length ts)
  /\ (exists body, timestamp_formatted ts = (body ++ "Z")%string)
  /\ count_char " " (timestamp_formatted ts) = 0
  /\ count_char ":" (timestamp_formatted ts) = count_char ":" ts - 2.
Proof.
  unfold timestamp_formatted. rewrite timestamp_formatted_chars.
  destruct (iso_chars_shape 2 ts) as (Hl & Hs & Hc).
  rewrite str_length_app, !count_char_app, Hl, Hs, Hc. cbn.
  repeat split; try lia. eauto.
Qed.

(** ** The labels of the clusters *)

Lemma known_filter (x l : Z) (keys : list Z) :
  (l =? x)%Z = false ->
  known (List.filter (fun k => negb (k =? x)%Z) keys) l = known keys l.
Proof.
  intros Hl. unfold known. induction keys as [|k keys IH]; [reflexivity|]. cbn.
  destruct (k =? x)%Z eqn:Hk; cbn; [|now rewrite IH].
  apply Z.eqb_eq in Hk. subst k. now rewrite Hl, IH.
Qed.

Lemma first_seen_snoc (labels : list Z) (l : Z) :
  first_seen (labels ++ [l])
  = if known (first_seen labels) l then first_seen labels else first_seen labels ++ [l].
Proof.
  induction labels as [|x labels IH]; [reflexivity|].
  cbn [app first_seen]. rewrite IH. unfold known at 2. cbn [existsb]. fold (known
    (List.filter (fun k => negb (k =? x)%Z) (first_seen labels)) l).
  destruct (l =? x)%Z eqn:Hl; cbn [orb].
  - apply Z.eqb_eq in Hl. subst l.
    destruct (known (first_seen labels) x); [reflexivity|].
    rewrite List.filter_app. cbn. rewrite Z.eqb_refl. cbn. now rewrite app_nil_r.
  - rewrite (known_filter x l _ Hl).
    destruct (known (first_seen labels) l); [reflexivity|].
    rewrite List.filter_app. cbn. rewrite Hl. reflexivity.
Qed.

Lemma known_seqZ (num l : Z) :
  known (seqZ 0 num) l = true <-> (0 <= l < num)%Z.
Proof.
  unfold known. rewrite existsb_exists. split.
  - intros (x & Hx & Heq). apply Z.eqb_eq in Heq. subst x.
    apply list_elem_of_In, elem_of_seqZ in Hx. lia.
  - intros Hl. exists l. split; [|apply Z.eqb_refl].
    apply list_elem_of_In, elem_of_seqZ. lia.
Qed.

Section LabelOrder.
Variable within_eps : Coord -> Coord -> bool.
Variable X : list Coord.

Local Abbreviation adj := (DBSCAN.adj within_eps X).
Local Abbreviation expand := (DBSCAN.expand within_eps X).
Local Abbreviation visit := (DBSCAN.visit within_eps X).
Local Abbreviation noise := DBSCAN.noise.

Hypothesis adj_refl : forall i, i < length X -> adj i i = true.

Local Abbreviation visited := (visited_upto X).

Lemma visited_step_labelled (i : nat) (num l : Z) (L : list Z) :
  visited i num L -> L !! i = Some l -> l <> noise -> visited (S i) num L.
Proof.
  intros (Hlen & Hnum & Hbound & Hdone & Hfirst) Hi Hl.
  repeat split; try assumption.
  - intros j Hj. destruct (Nat.eq_dec j i) as [->|Hne]; [eauto|]. apply Hdone. lia.
  - rewrite (take_S_r L i l Hi), first_seen_snoc, Hfirst.
    assert (Hin : known (seqZ 0 num) l = true).
    { apply known_seqZ. destruct (Hbound i l Hi); [contradiction | assumption]. }
    now rewrite Hin.
Qed.

Lemma visited_step_expanded (i : nat) (num : Z) (L L1 : list Z) :
  visited i num L -> L !! i = Some noise ->
  expand num (DBSCAN.fuel X) i [] L = Some L1 ->
  visited (S i) (num + 1) L1.
Proof.
  intros (Hlen & Hnum & Hbound & Hdone & Hfirst) Hi Hrun.
  assert (Hc : num <> noise) by (unfold DBSCAN.noise; lia).
  destruct (expand_facts within_eps X num _ i [] L L1 Hrun) as (Hl & Hkeep & Hnew & Hlab).
  assert (Hilt : i < length L) by (eapply lookup_lt_Some, Hi).
  assert (Hseed : L1 !! i = Some num).
  { destruct (Hlab Hc Hilt) as (l & Hl1 & Hne).
    destruct (Hnew i l Hl1) as [Hold|[_ ->]]; [congruence | exact Hl1]. }
  assert (Htake : take i L1 = take i L).
  { apply list_eq. intros j. destruct (decide (j < i)) as [Hj|Hj].
    - rewrite !lookup_take_lt by assumption.
      destruct (Hdone j Hj) as (l & Hlj & Hne). rewrite Hlj. now apply Hkeep.
    - rewrite !lookup_take_ge by lia. reflexivity. }
  repeat split.
  - congruence.
  - lia.
  - intros v l Hv. destruct (Hnew v l Hv) as [Hold|[_ ->]]; [|right; lia].
    destruct (Hbound v l Hold); [now left | right; lia].
  - intros j Hj. destruct (Nat.eq_dec j i) as [->|Hne]; [eauto|].
    destruct (Hdone j ltac:(lia)) as (l & Hlj & Hln). exists l. split; [|exact Hln].
    now apply Hkeep.
  - rewrite (take_S_r L1 i num Hseed), Htake, first_seen_snoc, Hfirst.
    assert (Hout : known (seqZ 0 num) num = false).
    { destruct (known (seqZ 0 num) num) eqn:E; [|reflexivity].
      apply known_seqZ in E. lia. }
    rewrite Hout, seqZ_app by lia. f_equal.
Qed.

Lemma visit_visited (k i : nat) (num : Z) (L Lf : list Z) :
  i + k = length X ->
  visited i num L ->
  visit (seq i k) num L = Some Lf ->
  exists num', visited (length X) num' Lf.
Proof.
  revert i num L. induction k as [|k IH]; intros i num L Hik Hv Hrun.
  - cbn in Hrun. injection Hrun as <-. rewrite Nat.add_0_r in Hik. subst i. eauto.
  - cbn [seq DBSCAN.visit] in Hrun.
    assert (Hi : i < length X) by lia.
    rewrite (is_core_all within_eps X adj_refl i Hi), orb_false_r in Hrun.
    destruct (DBSCAN.unlabeled L i) eqn:Hu; cbn [negb] in Hrun.
    + apply unlabeled_true in Hu.
      destruct (expand num (DBSCAN.fuel X) i [] L) as [L1|] eqn:Hexp; [|discriminate].
      apply (IH (S i) (num + 1)%Z L1); [lia | | exact Hrun].
      eapply visited_step_expanded; eassumption.
    + destruct Hv as (Hlen & Hrest).
      destruct (unlabeled_false L i Hu ltac:(lia)) as (l & Hl & Hne).
      apply (IH (S i) num L); [lia | | exact Hrun].
      eapply visited_step_labelled; [split; eassumption | exact Hl | exact Hne].
Qed.

Lemma fit_first_seen (L : list Z) :
  DBSCAN.fit within_eps X = Some L -> exists num, first_seen L = seqZ 0 num.
Proof.
  intros Hfit. unfold DBSCAN.fit in Hfit.
  destruct (visit_visited (length X) 0 0 (replicate (length X) noise) L) as [num Hv];
    [reflexivity | | exact Hfit |].
  - repeat split; try lia.
    + apply length_replicate.
    + intros v l Hv. apply lookup_replicate in Hv as [-> _]. now left.
  - destruct Hv as (Hlen & _ & _ & _ & Hfirst). exists num.
    now rewrite <- Hlen, firstn_all in Hfirst.
Qed.
End LabelOrder.

(** X24.  When the radius test holds between a point and itself, the keys
    of the mapping returned by [cluster_points] are 0, 1, ..., K - 1 in this
    order, K being the number of clusters: going through the mapping is
    going through the labels in increasing order, each cluster being met
    where its first photograph stands in the input. *)
Theorem cluster_points_labels_in_order (within_eps : Coord -> Coord -> bool)
        (photos : list GeoRecord) :
  (forall r, In r photos -> within_eps (coord_of r) (coord_of r) = true) ->
  exists clusters : Clusters,
    cluster_points within_eps photos = Some clusters
    /\ map fst clusters = seqZ 0 (Z.of_nat (length clusters)).
Proof.
  intros Hrefl.
  destruct (cluster_points_returns within_eps photos) as (L & Hlen & Hfit & Hcp).
  exists (group_by_label L photos). split; [exact Hcp|].
  destruct photos as [|r rest] eqn:Hphotos.
  - destruct L; [reflexivity | discriminate].
  - rewrite <- Hphotos in *.
    assert (Hne : photos <> []) by (rewrite Hphotos; discriminate).
    destruct (fit_first_seen within_eps (map coord_of photos)
                (adj_refl_records within_eps photos Hrefl) L (Hfit Hne)) as [num Hnum].
    assert (Hkeys : map fst (group_by_label L photos) = seqZ 0 num).
    { unfold group_by_label. rewrite fold_group_step_keys. cbn [map app].
      assert (Hfst : map fst (zip L photos) = L) by (apply fst_zip; lia).
      rewrite Hfst, Hnum, (filter_same _ (fun _ => true)) by reflexivity.
      clear. induction (seqZ 0 num) as [|k l IH]; [reflexivity|]. cbn. now rewrite IH. }
    rewrite Hkeys. f_equal.
    apply (f_equal (@length Z)) in Hkeys. rewrite length_map, length_seqZ in Hkeys.
    destruct (Z_le_gt_dec 0 num) as [Hpos|Hneg]; [lia|].
    exfalso. clear - Hnum Hneg Hlen Hphotos.
    rewrite Hphotos in Hlen. destruct L as [|l L]; [discriminate|].
    unfold seqZ in Hnum. replace (Z.to_nat num) with 0 in Hnum by lia. discriminate.
Qed.

Lemma cluster_points_labels_in_order_witness :
  exists clusters : Clusters,
    cluster_points (within_box 1) photos_in_a_row = Some clusters
    /\ map fst clusters = seqZ 0 (Z.of_nat (length clusters)).
Proof.
  apply (cluster_points_labels_in_order (within_box 1) photos_in_a_row).
  intros r Hr. cbn in Hr.
  destruct Hr as [<-|[<-|[<-|[<-|[]]]]]; vm_compute; reflexivity.
Defined.
